(** * pgql: the query compiler, the type mapper and the name matcher

    A shallow embedding of the parts of [src/index.ts],
    [src/utils/string.ts] and [src/utils/db/pgTypesToGraphql.ts] that turn
    caller requests into parameterised SQL, followed by the properties
    established about them.

    Conventions of the embedding:
    - a JavaScript value that may be [undefined] (or [null] where the code
      only tests truthiness or uses [??]/[?.]) is an [option];
    - a JavaScript object read through [Object.keys]/[Object.values] is an
      association list in insertion order;
    - an array or object that the code mutates in place ([values], the
      [Table]) is threaded through the functions and returned;
    - [throw] is the [Throw] constructor of [result]. *)

From Stdlib Require Import String Ascii List ZArith Lia Bool DecimalString.
From Stdlib Require DecimalNat.
From stdpp Require Import base strings list gmap.
Import ListNotations.

(** ** JavaScript runtime primitives used by the sources *)
Module JS.

(** The scalar values that reach the compiler: [null], booleans, numbers
    (integers here; GraphQL [Int] arguments and integer column values)
    and strings. *)
Inductive jsval : Type :=
| JNull
| JBool (b : bool)
| JNum (n : Z)
| JStr (s : string).

Inductive result (A : Type) : Type :=
| Ok (a : A)
| Throw (message : string).
Arguments Ok {A} a.
Arguments Throw {A} message.

Definition bind {A B : Type} (r : result A) (k : A -> result B) : result B :=
  match r with
  | Ok a => k a
  | Throw m => Throw m
  end.

Definition string_of_nat (n : nat) : string :=
  NilEmpty.string_of_uint (Nat.to_uint n).

Definition string_of_Z (z : Z) : string :=
  NilZero.string_of_int (Z.to_int z).

(** [String(v)] *)
Definition String_ (v : jsval) : string :=
  match v with
  | JNull => "null"
  | JBool true => "true"
  | JBool false => "false"
  | JNum n => string_of_Z n
  | JStr s => s
  end.

(** [Boolean(v)]: truthiness. *)
Definition Boolean_ (v : jsval) : bool :=
  match v with
  | JNull => false
  | JBool b => b
  | JNum n => negb (n =? 0)%Z
  | JStr s => negb (s =? "")%string
  end.

(** Truthiness of a possibly absent string ([table.defaultWhere ? .. : ..]). *)
Definition truthy_str (s : option string) : bool :=
  match s with
  | Some s => negb (s =? "")%string
  | None => false
  end.

(** [xs.join(sep)] on an array of strings. *)
Definition join (sep : string) (xs : list string) : string :=
  String.concat sep xs.

(** [xs.includes(x)] on an array of strings. *)
Definition includes (xs : list string) (x : string) : bool :=
  existsb (String.eqb x) xs.

Fixpoint drop_chars (n : nat) (s : string) : string :=
  match n, s with
  | O, _ => s
  | S n', String _ s' => drop_chars n' s'
  | S _, EmptyString => EmptyString
  end.

(** [s.replace(pat, rep)] with a string pattern: only the first occurrence
    is replaced.  The replacement texts built by the sources are a number
    or [$] followed by a number; with a string pattern there are no capture
    groups, so such a text is inserted literally. *)
Fixpoint replace (pat rep s : string) : string :=
  if String.prefix pat s then rep +:+ drop_chars (String.length pat) s
  else match s with
       | EmptyString => EmptyString
       | String c s' => String c (replace pat rep s')
       end.

(** [o !== undefined] (and not [null]), also the truthiness of an array
    or object that may be absent. *)
Definition defined {A : Type} (o : option A) : bool :=
  match o with
  | Some _ => true
  | None => false
  end.

(** [o[k]] on an object. *)
Fixpoint prop {A : Type} (o : list (string * A)) (k : string) : option A :=
  match o with
  | [] => None
  | (k', v) :: o' => if (k' =? k)%string then Some v else prop o' k
  end.

End JS.
Import JS.

(** ** [src/utils/db/pgTypesToGraphql.ts] *)
Module TypeMapper.

(** [Scalar | CustomScalar] *)
Inductive SemanticType : Type :=
| TString | TInt | TFloat | TBoolean | TPoint | TCircle | TInterval.

(** An entry of [TypeObject]; [isArray] is [None] when the property is
    absent from the object. *)
Record TypeEntry : Type := mkEntry { type : SemanticType; isArray : option bool }.

Abbreviation TypeObject := (gmap Z TypeEntry).

(** [register(oid, type?, isArray?)] *)
Definition register (types : TypeObject) (oid : Z)
    (ty : option SemanticType) (arr : option bool) : TypeObject :=
  <[oid := mkEntry (default TString ty) (Some (default false arr))]> types.

(** The calls of [register] in [getType], in source order. *)
Definition calls : list (Z * option SemanticType * option bool) :=
  [ (20, Some TInt, None); (21, Some TInt, None); (23, Some TInt, None);
    (26, Some TInt, None); (1700, Some TFloat, None); (700, Some TFloat, None);
    (701, Some TFloat, None); (16, Some TBoolean, None); (1082, Some TString, None);
    (1114, Some TString, None); (1184, Some TString, None); (600, Some TPoint, None);
    (651, Some TString, Some true); (718, Some TCircle, None);
    (1000, Some TBoolean, Some true); (1001, Some TString, Some true);
    (1005, Some TInt, Some true); (1007, Some TInt, Some true);
    (1028, Some TInt, Some true); (1016, Some TInt, Some true);
    (1017, Some TPoint, Some true); (1021, Some TFloat, Some true);
    (1022, Some TFloat, Some true); (1231, Some TFloat, Some true);
    (1014, Some TString, Some true); (1015, Some TString, Some true);
    (1008, Some TString, Some true); (1009, Some TString, Some true);
    (1040, Some TString, Some true); (1041, Some TString, Some true);
    (1115, Some TString, Some true); (1182, Some TString, Some true);
    (1185, Some TString, Some true); (1186, Some TInterval, None);
    (1187, Some TInterval, Some true); (17, Some TString, None);
    (114, Some TString, None); (3802, Some TString, None);
    (199, Some TString, Some true); (3807, Some TString, Some true);
    (3907, Some TString, Some true); (2951, Some TString, Some true);
    (791, Some TString, Some true); (1183, Some TString, Some true);
    (1270, Some TString, Some true) ]%Z.

Definition run_calls (cs : list (Z * option SemanticType * option bool))
    (types : TypeObject) : TypeObject :=
  foldl (fun t c => register t c.1.1 c.1.2 c.2) types cs.

(** [getType(oid)]: [types[oid] || { type: 'string' }]. *)
Definition getType (oid : Z) : TypeEntry :=
  let types := run_calls calls ∅ in
  match types !! oid with
  | Some e => e
  | None => mkEntry TString None
  end.

Definition registered_oids : list Z := map (fun c => c.1.1) calls.

End TypeMapper.

(** ** [src/utils/string.ts]: [matchGitignorePattern] *)
Module Glob.

(** The fragment of [RegExp] syntax that [matchGitignorePattern] can
    produce: literal characters, identity escapes, [.], the quantifiers
    [*] and [{n}], and the anchors. *)
Inductive atom : Type :=
| Lit (c : ascii)
| AnyChar.

Inductive quant : Type :=
| One
| Star
| Times (n : nat).

Inductive item : Type :=
| Bol
| Eol
| Match (a : atom) (q : quant).

Definition is_digit (c : ascii) : bool :=
  let n := nat_of_ascii c in (48 <=? n) && (n <=? 57).

Definition digit_val (c : ascii) : nat := nat_of_ascii c - 48.

(** Reads [digits}] after an opening brace. *)
Fixpoint read_count (s : string) (acc : nat) : option (nat * string) :=
  match s with
  | String "}" s' => Some (acc, s')
  | String c s' => if is_digit c then read_count s' (10 * acc + digit_val c) else None
  | EmptyString => None
  end.

Definition set_quant (q : quant) (items : list item) : list item :=
  match items with
  | Match a _ :: rest => Match a q :: rest
  | _ => items
  end.

(** Parser of the pattern text; [rev_items] holds the items read so far,
    last first, so that a quantifier applies to its head.  [fuel] bounds
    the number of characters read. *)
Fixpoint parse (fuel : nat) (s : string) (rev_items : list item) : list item :=
  match fuel with
  | O => rev rev_items
  | S fuel' =>
      match s with
      | EmptyString => rev rev_items
      | String "\" (String c s') => parse fuel' s' (Match (Lit c) One :: rev_items)
      | String "^" s' => parse fuel' s' (Bol :: rev_items)
      | String "$" s' => parse fuel' s' (Eol :: rev_items)
      | String "." s' => parse fuel' s' (Match AnyChar One :: rev_items)
      | String "*" s' => parse fuel' s' (set_quant Star rev_items)
      | String "{" s' =>
          match read_count s' 0 with
          | Some (n, s'') => parse fuel' s'' (set_quant (Times n) rev_items)
          | None => parse fuel' s' (Match (Lit "{") One :: rev_items)
          end
      | String c s' => parse fuel' s' (Match (Lit c) One :: rev_items)
      end
  end.

(** [.] matches every character but the line terminators. *)
Definition atom_matches (a : atom) (c : ascii) : bool :=
  match a with
  | Lit c' => Ascii.eqb c' c
  | AnyChar => negb (Ascii.eqb c "010") && negb (Ascii.eqb c "013")
  end.

(** [matches items at_start s]: the items match a prefix of [s];
    [at_start] tells whether [s] begins at index 0 of the input. *)
Fixpoint matches (items : list item) : bool -> string -> bool :=
  match items with
  | [] => fun _ _ => true
  | Bol :: rest => fun at_start s => at_start && matches rest at_start s
  | Eol :: rest => fun at_start s =>
      match s with
      | EmptyString => matches rest at_start s
      | String _ _ => false
      end
  | Match a One :: rest => fun _ s =>
      match s with
      | String c s' => atom_matches a c && matches rest false s'
      | EmptyString => false
      end
  | Match a Star :: rest =>
      fix star (at_start : bool) (s : string) : bool :=
        matches rest at_start s ||
        match s with
        | String c s' => atom_matches a c && star false s'
        | EmptyString => false
        end
  | Match a (Times n) :: rest =>
      (fix times (k : nat) (at_start : bool) (s : string) : bool :=
         match k with
         | O => matches rest at_start s
         | S k' =>
             match s with
             | String c s' => atom_matches a c && times k' false s'
             | EmptyString => false
             end
         end) n
  end.

(** [regexp.test(str)]: a match may start at any index. *)
Fixpoint search (items : list item) (at_start : bool) (s : string) : bool :=
  matches items at_start s ||
  match s with
  | String _ s' => search items false s'
  | EmptyString => false
  end.

Definition RegExp_test (source str : string) : bool :=
  search (parse (String.length source) source []) true str.

(** [s.replace(/[class]/g, f)] for a one-character class. *)
Fixpoint replace_chars (f : ascii -> option string) (s : string) : string :=
  match s with
  | EmptyString => EmptyString
  | String c s' =>
      match f c with
      | Some r => r +:+ replace_chars f s'
      | None => String c (replace_chars f s')
      end
  end.

(** The class [[\-\[\]\/\{\}\(\)\+\?\.\\\^\$\|]]. *)
Definition special : list ascii :=
  ["-"; "["; "]"; "/"; "{"; "}"; "("; ")"; "+"; "?"; "."; "\"; "^"; "$"; "|"]%char.

Definition escape (c : ascii) : option string :=
  if existsb (Ascii.eqb c) special then Some (String "\" (String c EmptyString)) else None.

Definition star_to_regex (c : ascii) : option string :=
  if Ascii.eqb c "*" then Some ".*" else None.

Definition question_to_regex (c : ascii) : option string :=
  if Ascii.eqb c "?" then Some ".{1}" else None.

Definition toRegexSource (pattern : string) : string :=
  let regex :=
    replace_chars question_to_regex
      (replace_chars star_to_regex
         (replace_chars escape pattern)) in
  "^" +:+ regex +:+ "$".

Definition matchGitignorePattern (pattern str : string) : bool :=
  RegExp_test (toRegexSource pattern) str.

End Glob.

(** ** The catalog model of [src/index.ts] *)
Module Column.
(** [Column]; [description] and [foreignKey] are read by none of the
    functions below and are left out. *)
Record t : Type := mk {
  name : string;
  type : string;
  oid : Z;
  nullable : bool;
  isPrimaryKey : bool
}.
End Column.

Module TableVariable.
Inductive VariableType : Type := string_ | int | float | boolean.
Record t : Type := mk {
  name : string;
  type : VariableType;
  nullable : bool
}.
End TableVariable.

Module Table.
Inductive Operations : Type := CREATE | READ | UPDATE | DELETE.
Inductive kind : Type := table | view.
Record t : Type := mk {
  name : string;
  columns : list Column.t;
  operations : list Operations;
  type : kind;
  variables : option (list TableVariable.t);
  defaultWhere : option string;
  cols : option (list string)
}.

(** [table.defaultWhere = w] *)
Definition set_defaultWhere (tb : t) (w : option string) : t :=
  mk (name tb) (columns tb) (operations tb) (type tb) (variables tb) w (cols tb).

(** [table.columns.find(c => c.name == k)] *)
Definition find_column (tb : t) (k : string) : option Column.t :=
  List.find (fun c => (Column.name c =? k)%string) (columns tb).
End Table.

Module Schema.
(** [Omit<Schema, 'tables'>], of which the builders read [name]. *)
Record t : Type := mk { name : string }.
End Schema.

(** ** The filter compiler: [whereSQL] *)
Module Filter.

Inductive SingleConditions : Type :=
| EQUAL | NOT_EQUAL | LESS_THAN | LESS_THAN_OR_EQUAL | GREATER_THAN
| GREATER_THAN_OR_EQUAL | LIKE | ILIKE | NOT_LIKE | NOT_ILIKE
| IS_NULL | IS_NOT_NULL.

Inductive ArrayConditions : Type := BETWEEN | NOT_BETWEEN | IN | NOT_IN.

(** [value] is [None] when the property is [undefined]. *)
Record SingleCondition : Type := mkSingle {
  s_condition : SingleConditions;
  s_value : option jsval
}.

Record ArrayCondition : Type := mkArray {
  a_condition : ArrayConditions;
  a_value : list jsval
}.

(** [{ SINGLE?: SingleCondition; ARRAY?: ArrayCondition }] *)
Record Leaf : Type := mkLeaf {
  SINGLE : option SingleCondition;
  ARRAY : option ArrayCondition
}.

Inductive Connective : Type := AND | OR.

(** [ANDType] and [ORType] have the same shape: an object whose
    properties hold a list of such objects, a leaf, or [null]: the input
    types make every column field and the lists under [AND] and [OR]
    nullable (only the elements of the lists are not), so a request may
    give [null] under any of these keys. *)
Inductive ANDOrORType : Type :=
| Obj (props : list (string * PropValue))
with PropValue : Type :=
| Nested (children : list ANDOrORType)
| Cond (data : Leaf)
| Null.

Record WhereType : Type := mkWhere {
  where_AND : option (list ANDOrORType);
  where_OR : option (list ANDOrORType)
}.

(** The table [operators]. *)
Definition operators_single (c : SingleConditions) : string :=
  match c with
  | EQUAL => "="
  | NOT_EQUAL => "<>"
  | LESS_THAN => "<"
  | LESS_THAN_OR_EQUAL => "<="
  | GREATER_THAN => ">"
  | GREATER_THAN_OR_EQUAL => ">="
  | LIKE => "LIKE"
  | ILIKE => "ILIKE"
  | NOT_LIKE => "NOT LIKE"
  | NOT_ILIKE => "NOT ILIKE"
  | IS_NULL => "IS NULL"
  | IS_NOT_NULL => "IS NOT NULL"
  end.

Definition operators_array (c : ArrayConditions) : string :=
  match c with
  | BETWEEN => "BETWEEN"
  | NOT_BETWEEN => "NOT BETWEEN"
  | IN => "IN"
  | NOT_IN => "NOT IN"
  end.

(** [nullableOperators.includes(c)] *)
Definition nullableOperators (c : SingleConditions) : bool :=
  match c with
  | IS_NULL | IS_NOT_NULL => true
  | _ => false
  end.

Definition keyword (c : Connective) : string :=
  match c with AND => "AND" | OR => "OR" end.

(** Computations that push onto the shared [values] array and may throw. *)
Definition M (A : Type) : Type := list jsval -> result (A * list jsval).

Definition ret {A : Type} (a : A) : M A := fun values => Ok (a, values).

Definition mbind {A B : Type} (m : M A) (k : A -> M B) : M B :=
  fun values =>
    match m values with
    | Ok (a, values') => k a values'
    | Throw e => Throw e
    end.

Definition throw {A : Type} (e : string) : M A := fun _ => Throw e.

(** [xs.map(f)] for an [f] with effects, left to right. *)
Definition mapM {A B : Type} (f : A -> M B) : list A -> M (list B) :=
  fix go (xs : list A) : M (list B) :=
    match xs with
    | [] => ret []
    | x :: xs' => mbind (f x) (fun y => mbind (go xs') (fun ys => ret (y :: ys)))
    end.

(** [xs.forEach(f)] for an [f] that updates local variables [S]. *)
Definition forEachM {A S : Type} (f : A -> S -> M S) : list A -> S -> M S :=
  fix go (xs : list A) (s : S) : M S :=
    match xs with
    | [] => ret s
    | x :: xs' => mbind (f x s) (go xs')
    end.

Section whereSQL.
Variable table : Table.t.
Variable startVarIndex : option nat.

(** [mapCondition] for an array value. *)
Definition mapCondition_array (c : ArrayCondition) (type : string) : M string :=
  fun values =>
    let v := a_value c in
    let initIndex := length values in
    let finalIndex := initIndex + length v in
    let values' := values ++ map (fun vv => JStr (String_ vv)) v in
    let finalValues := firstn (finalIndex - initIndex) (skipn initIndex values') in
    Ok (operators_array (a_condition c) +:+ " (" +:+
        join ("::" +:+ type +:+ ", ")
          (imap (fun i _ => "$" +:+ string_of_nat (i + 1)) finalValues) +:+
        "::" +:+ type +:+ ")",
        values').

(** [mapCondition] for a scalar or absent value. *)
Definition mapCondition_single (c : SingleCondition) (type : string) : M string :=
  fun values =>
    let values' :=
      match s_value c with
      | Some v => values ++ [JStr (String_ v)]
      | None => values
      end in
    let index := length values' + default 0 startVarIndex in
    Ok (operators_single (s_condition c) +:+
        match s_value c with
        | Some _ => " $" +:+ string_of_nat index +:+ "::" +:+ type
        | None => ""
        end,
        values').

Definition mapCondition (c : SingleCondition + ArrayCondition) (type : string) : M string :=
  match c with
  | inl s => mapCondition_single s type
  | inr a => mapCondition_array a type
  end.

(** [data.SINGLE ?? data.ARRAY] *)
Definition single_or_array (data : Leaf) : option (SingleCondition + ArrayCondition) :=
  match SINGLE data with
  | Some s => Some (inl s)
  | None => option_map inr (ARRAY data)
  end.

(** [d?.condition && (d?.value !== undefined || nullableOperators.includes(d.condition))] *)
Definition usable (d : option (SingleCondition + ArrayCondition)) : bool :=
  match d with
  | Some (inl s) =>
      match s_value s with
      | Some _ => true
      | None => nullableOperators (s_condition s)
      end
  | Some (inr _) => true
  | None => false
  end.

(** The local variables of [mapWhere] that [keys.forEach] updates. *)
Record Scan : Type := mkScan {
  conditions : list (Column.t * Leaf);
  subAND : option string;
  subOR : option string
}.

(** One entry of [conditions.map(...)]. *)
Definition condition_sql (cl : Column.t * Leaf) : M string :=
  match single_or_array cl.2 with
  | Some c => mbind (mapCondition c (Column.type cl.1))
                (fun s => ret (Column.name cl.1 +:+ " " +:+ s))
  | None => ret "1 = 1"
  end.

(** [s ? `(${s})` : undefined] *)
Definition parenthesised (s : option string) : option string :=
  match s with
  | Some s => if (s =? "")%string then None else Some ("(" +:+ s +:+ ")")
  | None => None
  end.

(** [[...].filter(v => Boolean(v))] on optional strings. *)
Definition filter_truthy (xs : list (option string)) : list string :=
  omap (fun x => match x with
                 | Some s => if (s =? "")%string then None else Some s
                 | None => None
                 end) xs.

(** The body of [keys.forEach(k => ...)] in [mapWhere]; [mapWhere_]
    is [mapWhere] itself, for the nested lists.  Under [AND] or [OR] the
    value is used as a list: [va.map] is no function on a leaf and cannot
    be read on [null].  Under the name of a column the value is read as a
    leaf: [data.SINGLE] cannot be read on [null], and is [undefined] on a
    list.  Under any other key the value is not read at all. *)
Definition scan_step (mapWhere_ : ANDOrORType -> Connective -> M string)
    (type : Connective) (kv : string * PropValue) (sc : Scan) : M Scan :=
  let k := kv.1 in
  let col := Table.find_column table k in
  if includes ["AND"; "OR"] k then
    let key := if (k =? "AND")%string then AND else OR in
    match kv.2 with
    | Nested va =>
        mbind (mapM (fun v' => mapWhere_ v' key) va)
          (fun parts =>
             let c := join (" " +:+ keyword type +:+ " ") parts in
             ret (match key with
                  | AND => mkScan (conditions sc) (Some c) (subOR sc)
                  | OR => mkScan (conditions sc) (subAND sc) (Some c)
                  end))
    | Cond _ => throw "TypeError: va.map is not a function"
    | Null => throw "TypeError: Cannot read properties of null (reading 'map')"
    end
  else
    match col, kv.2 with
    | Some col, Cond data =>
        if usable (single_or_array data)
        then ret (mkScan (conditions sc ++ [(col, data)]) (subAND sc) (subOR sc))
        else ret sc
    | Some col, Null => throw "TypeError: Cannot read properties of null (reading 'SINGLE')"
    | _, _ => ret sc
    end.

(** The [return] of [mapWhere]. *)
Definition assemble (type : Connective) (sc : Scan) : M string :=
  mbind (mapM condition_sql (conditions sc))
    (fun conds =>
       ret (join (" " +:+ keyword type +:+ " ")
              (filter_truthy
                 (map Some conds ++
                  [parenthesised (subAND sc); parenthesised (subOR sc)])))).

Fixpoint mapWhere (v : ANDOrORType) (type : Connective) {struct v} : M string :=
  match v with
  | Obj props =>
      mbind (forEachM (scan_step mapWhere type) props (mkScan [] None None))
        (assemble type)
  end.

(** The [forEach] over [table.variables] that rewrites [defaultWhere]. *)
Fixpoint substitute_variables (vars : list TableVariable.t) (i : nat) (tb : Table.t) : Table.t :=
  match vars with
  | [] => tb
  | v :: vars' =>
      let index := i + default 0 startVarIndex in
      substitute_variables vars' (S i)
        (Table.set_defaultWhere tb
           (option_map (replace ("$" +:+ TableVariable.name v) ("$" +:+ string_of_nat index))
              (Table.defaultWhere tb)))
  end.

(** [where.AND ? where.AND.map(a => mapWhere(a, 'AND')) : null], and
    the same for [OR]. *)
Definition compile_branch (b : option (list ANDOrORType)) (type : Connective)
    : M (option (list string)) :=
  match b with
  | Some l => mbind (mapM (fun a => mapWhere a type) l) (fun r => ret (Some r))
  | None => ret None
  end.

Definition compile_branches (where_ : WhereType)
    : M (option (list string) * option (list string)) :=
  mbind (compile_branch (where_AND where_) AND)
    (fun a => mbind (compile_branch (where_OR where_) OR) (fun o => ret (a, o))).

(** The table after [if (table.defaultWhere && table.variables) {...}]. *)
Definition rewrite_defaultWhere : Table.t :=
  match Table.variables table with
  | Some vars =>
      if truthy_str (Table.defaultWhere table)
      then substitute_variables vars 0 table
      else table
  | None => table
  end.

(** [whereSQL(where, values, table, startVarIndex)]; the result carries
    the text, the [values] array and the table as the call leaves them. *)
Definition whereSQL (where_ : WhereType) (values : list jsval)
    : result (string * list jsval * Table.t) :=
  bind (compile_branches where_ values)
    (fun r =>
       let '((AND_, OR_), values') := r in
       let table' := rewrite_defaultWhere in
       Ok ("WHERE " +:+
           (if truthy_str (Table.defaultWhere table')
            then "(" +:+ default "" (Table.defaultWhere table') +:+ ") = TRUE AND "
            else "") +:+
           join " AND "
             (omap id [option_map (join " AND ") AND_; option_map (join " OR ") OR_]),
           values', table')).
End whereSQL.

End Filter.

(** ** The query builders of [src/index.ts] *)
Module Builders.
Import Filter.

(** [{ [x: string]: string | number | boolean | null }] *)
Definition ValueObject : Type := list (string * jsval).

(** [OrderByType] *)
Definition OrderByType : Type := list (string * string).

Record QueryReturn : Type := mkQueryReturn {
  query : string;
  values : list jsval;
  orderByQuery : option string;
  whereQuery : option string
}.

(** [table.variables?.filter(v => !v.nullable && table.defaultWhere).map(v => v.name) ?? []] *)
Definition requiredVariables (table : Table.t) : list string :=
  match Table.variables table with
  | Some vars =>
      map TableVariable.name
        (List.filter (fun v => negb (TableVariable.nullable v) && truthy_str (Table.defaultWhere table))
           vars)
  | None => []
  end.

Definition orderBySQL (orderBy : OrderByType) : string :=
  let keys := map fst orderBy in
  if (length keys <=? 0) ||
     negb (forallb (fun k => match prop orderBy k with
                             | Some d => (d =? "ASC")%string || (d =? "DESC")%string
                             | None => false
                             end) keys)
  then ""
  else "ORDER BY " +:+
       join ", " (map (fun k => k +:+ " " +:+ default "undefined" (prop orderBy k)) keys).

(** [s.length < 1 ? undefined : s] *)
Definition nonempty (s : string) : option string :=
  if String.length s <? 1 then None else Some s.

(** [where?.AND || where?.OR] (arrays are truthy, also when empty). *)
Definition has_branch (where_ : option WhereType) : bool :=
  match where_ with
  | Some w => defined (where_AND w) || defined (where_OR w)
  | None => false
  end.

(** [makeQuery]; the table is returned as the call leaves it. *)
Definition makeQuery (schema : Schema.t) (table : Table.t) (limit offset : Z)
    (where_ : option WhereType) (variables : option ValueObject)
    (orderBy : option OrderByType) (cols : option (list string))
    : result (QueryReturn * Table.t) :=
  let colsSQL :=
    match cols with
    | Some cs =>
        if (0 <? length cs) &&
           forallb (fun c => defined (Table.find_column table c)) cs
        then join ", " cs else "*"
    | None => "*"
    end in
  let requiredVariables := requiredVariables table in
  if negb (forallb (includes requiredVariables) (map fst (default [] variables)))
  then Throw ("One required variable is missing. Required variables: " +:+
              join ", " requiredVariables)
  else
    let values :=
      map (fun v => JStr (String_ v)) (List.filter Boolean_ (map snd (default [] variables))) in
    let declared := length (default [] (Table.variables table)) in
    let values :=
      if length values <? declared
      then values ++ repeat JNull (declared - length values)
      else values in
    let orderByQuery := match orderBy with Some o => orderBySQL o | None => "" end in
    bind
      (if has_branch where_
       then whereSQL table None (default (mkWhere None None) where_) values
       else Ok ("WHERE " +:+
                (if truthy_str (Table.defaultWhere table)
                 then "(" +:+ default "" (Table.defaultWhere table) +:+ ") = TRUE"
                 else "TRUE = TRUE"),
                values, table))
      (fun r =>
         let '(whereQuery, values, table') := r in
         let values := values ++ [JStr (string_of_Z limit); JStr (string_of_Z offset)] in
         let query :=
           "SELECT " +:+ colsSQL +:+ " FROM " +:+ Schema.name schema +:+ "." +:+
           Table.name table' +:+ " " +:+ whereQuery +:+ " " +:+ orderByQuery +:+
           " LIMIT $" +:+ string_of_nat (length values - 1) +:+
           "::integer OFFSET $" +:+ string_of_nat (length values) +:+ "::integer" in
         Ok (mkQueryReturn query values (nonempty orderByQuery) (nonempty whereQuery),
             table')).

(** [getPagesQuery] *)
Definition getPagesQuery (schemaName tableName : string)
    (where_ : option (string * nat)) : string :=
  "SELECT (count(*) / $" +:+
  string_of_nat (match where_ with Some w => w.2 | None => 1 end) +:+
  ") as pages, count(*) as total_rows FROM " +:+ schemaName +:+ "." +:+ tableName +:+
  " " +:+ match where_ with Some w => w.1 | None => "" end.

Record MutationReturn : Type := mkMutationReturn {
  m_query : string;
  m_whereQuery : string;
  m_values : list jsval
}.

(** The filter of an update or a delete: [where.AND || where.OR ?
    whereSQL(where, values, table) : 'WHERE TRUE IS FALSE']. *)
Definition mutation_filter (table : Table.t) (where_ : WhereType) (values : list jsval)
    : result (string * list jsval * Table.t) :=
  if defined (where_AND where_) || defined (where_OR where_)
  then whereSQL table None where_ values
  else Ok ("WHERE TRUE IS FALSE", values, table).

(** The keys of the value object that name a known or allowed column. *)
Definition update_keys (table : Table.t) (value : ValueObject) : list string :=
  List.filter (fun k => negb (k =? "")%string)
    (omap (fun v =>
             if includes (default (map Column.name (Table.columns table)) (Table.cols table)) v
             then Some v else None)
       (map fst value)).

Definition makeMutationUpdate (schema : Schema.t) (table : Table.t)
    (value : ValueObject) (where_ : WhereType) : result (MutationReturn * Table.t) :=
  let keys := update_keys table value in
  let updateValues := map (fun k => default JNull (prop value k)) keys in
  bind (mutation_filter table where_ [])
    (fun r =>
       let '(whereQuery, values, table') := r in
       let values := values ++ updateValues in
       let query :=
         "UPDATE " +:+ Schema.name schema +:+ "." +:+ Table.name table' +:+
         " SET (" +:+ join ", " keys +:+ ") = (" +:+
         join ", "
           (imap (fun i _ => "$" +:+
                    string_of_nat (length values - length updateValues + i + 1))
              updateValues) +:+
         ") " +:+ whereQuery +:+ " RETURNING *" in
       Ok (mkMutationReturn query whereQuery values, table')).

Definition makeMutationDelete (schema : Schema.t) (table : Table.t)
    (where_ : WhereType) : result (MutationReturn * Table.t) :=
  bind (mutation_filter table where_ [])
    (fun r =>
       let '(whereQuery, values, table') := r in
       let query :=
         "DELETE FROM " +:+ Schema.name schema +:+ "." +:+ Table.name table' +:+
         " " +:+ whereQuery +:+ " RETURNING *" in
       Ok (mkMutationReturn query whereQuery values, table')).

(** An element of [finalValues] in [makeMutationCreate]: a row of
    values, or a variables object pushed as it is. *)
Inductive FinalValue : Type :=
| Row (cells : list jsval)
| Pushed (o : ValueObject).

(** An element of [finalValues.flat()]. *)
Inductive Flat : Type :=
| Scalar (v : jsval)
| Object (o : ValueObject).

Record MutationCreateReturn : Type := mkCreateReturn {
  c_query : string;
  c_values : list Flat
}.

(** The first loop of [makeMutationCreate]: throws when a variables
    object holds a falsy value (or nothing) under a required name. *)
Definition check_required (table : Table.t) (variables : option (list ValueObject))
    : result unit :=
  let required :=
    List.filter (fun v => negb (TableVariable.nullable v) && truthy_str (Table.defaultWhere table))
      (default [] (Table.variables table)) in
  fold_right
    (fun v rest =>
       bind
         (fold_right
            (fun va rest' =>
               if negb (match prop va (TableVariable.name v) with
                        | Some x => Boolean_ x
                        | None => false
                        end)
               then Throw ("Variable " +:+ TableVariable.name v +:+ " is required")
               else rest')
            (Ok tt) (default [] variables))
         (fun _ => rest))
    (Ok tt) required.

(** [columns.filter(...).map(c => c.name)] of [makeMutationCreate]. *)
Definition create_keys (table : Table.t) : list string :=
  map Column.name
    (List.filter (fun c =>
               match Table.cols table with
               | Some cs =>
                   if 0 <? length cs
                   then negb (Column.nullable c) || includes cs (Column.name c)
                   else true
               | None => true
               end)
       (Table.columns table)).

(** [variables?.forEach((v, i) => { finalValues.push(v); table.defaultWhere
    = table.defaultWhere?.replace(`$${v.name}`, String(finalValues.length - i)) })] *)
Fixpoint push_variables (variables : list ValueObject) (i : nat)
    (finalValues : list FinalValue) (table : Table.t) : list FinalValue * Table.t :=
  match variables with
  | [] => (finalValues, table)
  | v :: rest =>
      let finalValues := finalValues ++ [Pushed v] in
      let pat := "$" +:+ match prop v "name" with
                         | Some x => String_ x
                         | None => "undefined"
                         end in
      push_variables rest (S i) finalValues
        (Table.set_defaultWhere table
           (option_map (replace pat (string_of_nat (length finalValues - i)))
              (Table.defaultWhere table)))
  end.

(** [xs.slice(0, e)] for a possibly negative [e]. *)
Definition slice0 {A : Type} (xs : list A) (e : Z) : list A :=
  let len := Z.of_nat (length xs) in
  let final := if (e <? 0)%Z then Z.max (len + e) 0 else Z.min e len in
  firstn (Z.to_nat final) xs.

(** [v.map((_, i) => `$${keys.length * multiplier + (i + 1)}`).join(', ')];
    [map] is not a function of a pushed variables object. *)
Definition row_placeholders (nkeys multiplier : nat) (v : FinalValue) : result string :=
  match v with
  | Row cells =>
      Ok (join ", " (imap (fun i _ => "$" +:+ string_of_nat (nkeys * multiplier + (i + 1))) cells))
  | Pushed _ => Throw "TypeError: v.map is not a function"
  end.

Fixpoint rows_placeholders (nkeys multiplier : nat) (wrap : string -> string)
    (vs : list FinalValue) : result (list string) :=
  match vs with
  | [] => Ok []
  | v :: vs' =>
      bind (row_placeholders nkeys multiplier v)
        (fun s => bind (rows_placeholders nkeys (S multiplier) wrap vs')
                    (fun ss => Ok (wrap s :: ss)))
  end.

Definition flat (vs : list FinalValue) : list Flat :=
  concat (map (fun v => match v with
                        | Row cells => map Scalar cells
                        | Pushed o => [Object o]
                        end) vs).

Definition makeMutationCreate (schema : Schema.t) (table : Table.t)
    (values : list ValueObject) (variables : option (list ValueObject))
    : result (MutationCreateReturn * Table.t) :=
  let vars := Table.variables table in
  bind (check_required table variables)
    (fun _ =>
       let keys := create_keys table in
       let finalValues := map (fun v => Row (map (fun k => default JNull (prop v k)) keys)) values in
       let '(finalValues, table') := push_variables (default [] variables) 0 finalValues table in
       bind
         (if truthy_str (Table.defaultWhere table')
          then
            bind (rows_placeholders (length keys) 0 id
                    (slice0 finalValues
                       (Z.of_nat (length finalValues) -
                        Z.of_nat (length (default [] vars)))))
              (fun rows =>
                 Ok ("SELECT " +:+ join ", " rows +:+ " WHERE (" +:+
                     default "" (Table.defaultWhere table') +:+ ")"))
          else
            bind (rows_placeholders (length keys) 0 (fun s => "(" +:+ s +:+ ")") finalValues)
              (fun rows => Ok ("VALUES " +:+ join ", " rows)))
         (fun stringValues =>
            let query :=
              "INSERT INTO " +:+ Schema.name schema +:+ "." +:+ Table.name table' +:+
              "(" +:+ join ", " keys +:+ ") " +:+ stringValues +:+ " RETURNING *" in
            Ok (mkCreateReturn query (flat finalValues), table'))).

End Builders.

(** ** The read resolver of [generateSchema]: paging arithmetic *)
Module ReadResolver.

(** [args.maxRows <= 100 && args.maxRows > 0 ? args.maxRows : 100] *)
Definition numberOfResults (maxRows : Z) : Z :=
  if (maxRows <=? 100)%Z && (maxRows >? 0)%Z then maxRows else 100%Z.

(** [Number(args.page) >= 0 ? Number(args.page) - 1 : 0] *)
Definition pageNumber (page : Z) : Z :=
  if (page >=? 0)%Z then (page - 1)%Z else 0%Z.

(** The [offset] handed to [makeQuery]. *)
Definition offset (page maxRows : Z) : Z :=
  (pageNumber page * numberOfResults maxRows)%Z.

Record PageInfo : Type := mkPageInfo {
  pages : Z;
  totalRows : Z;
  currentPage : Z;
  rowsPerPage : Z;
  hasNextPage : bool
}.

(** The object returned by [resolve], but for [results].  [dbPages] and
    [dbTotalRows] are [Number(pages)] and [Number(total_rows)] of the
    count query, [None] standing for [NaN]. *)
Definition pageInfo (page maxRows : Z) (dbPages dbTotalRows : option Z) : PageInfo :=
  let numberOfResults := numberOfResults maxRows in
  let pageNumber := pageNumber page in
  mkPageInfo
    (match dbPages with None => 1 | Some p => p + 1 end)%Z
    (default 0%Z dbTotalRows)
    (if (pageNumber <=? 0)%Z then 1%Z else pageNumber)
    numberOfResults
    (default 0 dbPages - pageNumber >? 0)%Z.

(** The statement of the read resolver: the call of [makeQuery], whose
    [variables] argument is [args.variable], a property the arguments do
    not have. *)
Definition readQuery (schema : Schema.t) (table : Table.t) (page maxRows : Z)
    (where_ : option Filter.WhereType) (orderBy : option Builders.OrderByType)
    : result (Builders.QueryReturn * Table.t) :=
  Builders.makeQuery schema table (numberOfResults maxRows) (offset page maxRows)
    where_ None orderBy None.

(** The count statement and its parameters. *)
Definition pagesQuery (schema : Schema.t) (table : Table.t) (maxRows : Z)
    (q : Builders.QueryReturn) : string * list jsval :=
  let values := Builders.values q in
  (Builders.getPagesQuery (Schema.name schema) (Table.name table)
     (option_map (fun w => (w, length values - 1)) (Builders.whereQuery q)),
   firstn (length values - 2) values ++ [JNum (numberOfResults maxRows)]).

End ReadResolver.

(** ** Positional placeholders of a statement *)
Module Placeholders.

Inductive scanner : Type :=
| Outside
| Dollar
| Digits (n : nat).

Definition flush (st : scanner) : list nat :=
  match st with
  | Digits n => [n]
  | _ => []
  end.

(** The numbers [n] of the tokens [$n] in a text, left to right. *)
Fixpoint scan (s : string) (st : scanner) : list nat :=
  match s with
  | EmptyString => flush st
  | String c s' =>
      if Ascii.eqb c "$" then flush st ++ scan s' Dollar
      else if Glob.is_digit c then
        match st with
        | Outside => scan s' Outside
        | Dollar => scan s' (Digits (Glob.digit_val c))
        | Digits n => scan s' (Digits (10 * n + Glob.digit_val c))
        end
      else flush st ++ scan s' Outside
  end.

Definition placeholders (sql : string) : list nat := scan sql Outside.

(** The placeholders of [sql] are [start], ..., [start + n - 1], each
    once, in some order. *)
Definition contiguous (start n : nat) (sql : string) : bool :=
  let ps := placeholders sql in
  (length ps =? n) &&
  forallb (fun i => length (List.filter (Nat.eqb i) ps) =? 1) (seq start n).

End Placeholders.

(** ** Notions used to state the properties *)
Module Props.
Import Filter.

(** [drops_leaf table v v']: [v'] is [v] without one leaf whose property
    name is neither a connective nor the name of a column of [table]. *)
Inductive drops_leaf (table : Table.t) : ANDOrORType -> ANDOrORType -> Prop :=
| drop_here pre k data post :
    includes ["AND"; "OR"] k = false ->
    Table.find_column table k = None ->
    drops_leaf table (Obj (pre ++ (k, Cond data) :: post)) (Obj (pre ++ post))
| drop_below pre k before v v' after post :
    drops_leaf table v v' ->
    drops_leaf table
      (Obj (pre ++ (k, Nested (before ++ v :: after)) :: post))
      (Obj (pre ++ (k, Nested (before ++ v' :: after)) :: post)).

Inductive drops_leaf_where (table : Table.t) : WhereType -> WhereType -> Prop :=
| drop_in_AND before v v' after o :
    drops_leaf table v v' ->
    drops_leaf_where table
      (mkWhere (Some (before ++ v :: after)) o)
      (mkWhere (Some (before ++ v' :: after)) o)
| drop_in_OR a before v v' after :
    drops_leaf table v v' ->
    drops_leaf_where table
      (mkWhere a (Some (before ++ v :: after)))
      (mkWhere a (Some (before ++ v' :: after))).

(** A condition object without [null]: no property holds [null], at any
    depth, and the properties [AND] and [OR] hold lists.  This is less
    than the input types allow, which accept [null] under every key. *)
Fixpoint well_shaped (v : ANDOrORType) : bool :=
  match v with
  | Obj props =>
      forallb (fun kv : string * PropValue =>
                 match kv.2 with
                 | Nested va => forallb well_shaped va
                 | Cond _ => negb (includes ["AND"; "OR"] kv.1)
                 | Null => false
                 end) props
  end.

Definition well_shaped_where (w : WhereType) : bool :=
  forallb well_shaped (default [] (where_AND w)) &&
  forallb well_shaped (default [] (where_OR w)).

(** A computation that can only throw errors accepted by [E]. *)
Definition throws_only {A : Type} (E : string -> bool) (m : M A) : Prop :=
  forall values e, m values = Throw e -> E e = true.

(** A computation that returns on every [values] array. *)
Definition returns {A : Type} (m : M A) : Prop :=
  forall values, exists a values', m values = Ok (a, values').

(** The errors of the runtime, as opposed to those the builders throw:
    [map] called on a leaf, a property read on [null]. *)
Definition type_error (e : string) : bool := String.prefix "TypeError: " e.

(** The message of the error thrown by [makeQuery]. *)
Definition missing_variable (table : Table.t) : string :=
  "One required variable is missing. Required variables: " +:+
  join ", " (Builders.requiredVariables table).

(** Tables and requests of the examples. *)
Definition public : Schema.t := Schema.mk "public".

Definition users : Table.t :=
  Table.mk "users"
    [Column.mk "id" "int4" 23 false true;
     Column.mk "name" "text" 25 true false;
     Column.mk "email" "text" 25 true false;
     Column.mk "age" "int4" 23 true false]
    [Table.CREATE; Table.READ; Table.UPDATE; Table.DELETE] Table.table None None None.

(** A table whose [defaultWhere] refers to the required variable [uid]
    and to the optional variable [lang]. *)
Definition docs : Table.t :=
  Table.mk "docs"
    [Column.mk "id" "int4" 23 false true;
     Column.mk "owner" "int4" 23 false false;
     Column.mk "title" "text" 25 true false]
    [Table.CREATE; Table.READ; Table.UPDATE; Table.DELETE] Table.table
    (Some [TableVariable.mk "uid" TableVariable.int false;
           TableVariable.mk "lang" TableVariable.string_ true])
    (Some "owner = $uid AND lang IS NOT DISTINCT FROM $lang") None.

Definition single (c : SingleConditions) (v : jsval) : PropValue :=
  Cond (mkLeaf (Some (mkSingle c (Some v))) None).

Definition array (c : ArrayConditions) (vs : list jsval) : PropValue :=
  Cond (mkLeaf None (Some (mkArray c vs))).

(** [{AND: [{name: {SINGLE: {condition: EQUAL, value: 'Ana'}},
             age: {ARRAY: {condition: IN, value: [1, 2]}}}]}] *)
Definition name_and_ages : WhereType :=
  mkWhere (Some [Obj [("name", single EQUAL (JStr "Ana"));
                      ("age", array IN [JNum 1; JNum 2])]]) None.

(** [{AND: [{title: {SINGLE: {condition: EQUAL, value: 'Ana'}}}]}] *)
Definition title_is_Ana : WhereType :=
  mkWhere (Some [Obj [("title", single EQUAL (JStr "Ana"))]]) None.

(** [{AND: [{name: {SINGLE: {condition: EQUAL, value: 'Ana'}}}]}] *)
Definition title_is_name : WhereType :=
  mkWhere (Some [Obj [("name", single EQUAL (JStr "Ana"))]]) None.

(** [{AND: [{unknownCol: {SINGLE: {condition: EQUAL, value: 1}}},
            {age: {SINGLE: {condition: EQUAL, value: 5}}}]}] *)
Definition unknown_then_age : WhereType :=
  mkWhere (Some [Obj [("unknownCol", single EQUAL (JNum 1))];
                 Obj [("age", single EQUAL (JNum 5))]]) None.

(** [{AND: [{}, {age: {SINGLE: {condition: EQUAL, value: 5}}}]}] *)
Definition empty_then_age : WhereType :=
  mkWhere (Some [Obj []; Obj [("age", single EQUAL (JNum 5))]]) None.

(** [{AND: [{age: {SINGLE: {condition: EQUAL, value: 5}}}]}] *)
Definition age_is_5 : WhereType :=
  mkWhere (Some [Obj [("age", single EQUAL (JNum 5))]]) None.

End Props.

(** ** [src/utils/string.ts]: the case conversions *)
Module Strings.

Definition is_upper (c : ascii) : bool :=
  let n := nat_of_ascii c in (65 <=? n) && (n <=? 90).

Definition is_lower (c : ascii) : bool :=
  let n := nat_of_ascii c in (97 <=? n) && (n <=? 122).

(** The class [[a-zA-Z0-9]]. *)
Definition is_alnum (c : ascii) : bool :=
  is_lower c || is_upper c || Glob.is_digit c.

(** [toLowerCase] and [toUpperCase] of one character; the sources apply
    them to characters of [[a-zA-Z0-9]] only. *)
Definition lower_char (c : ascii) : ascii :=
  if is_upper c then ascii_of_nat (nat_of_ascii c + 32) else c.

Definition upper_char (c : ascii) : ascii :=
  if is_lower c then ascii_of_nat (nat_of_ascii c - 32) else c.

Fixpoint toLowerCase (s : string) : string :=
  match s with
  | EmptyString => EmptyString
  | String c s' => String (lower_char c) (toLowerCase s')
  end.

(** [s.split(' ')] *)
Fixpoint split_space (s : string) : list string :=
  match s with
  | EmptyString => [EmptyString]
  | String c s' =>
      if Ascii.eqb c " " then EmptyString :: split_space s'
      else match split_space s' with
           | w :: ws => String c w :: ws
           | [] => [String c EmptyString]
           end
  end.

(** [word.charAt(0).toUpperCase() + word.slice(1).toLowerCase()] *)
Definition capitalize (word : string) : string :=
  match word with
  | EmptyString => EmptyString
  | String c rest => String (upper_char c) (toLowerCase rest)
  end.

(** [toPascalCase]: every character outside [[a-zA-Z0-9]] becomes a
    space, the words between spaces are capitalised and joined. *)
Definition toPascalCase (s : string) : string :=
  join ""
    (map capitalize
       (split_space
          (Glob.replace_chars (fun c => if is_alnum c then None else Some " ") s))).

(** [s.replace(/^_/, '')] *)
Definition strip_underscore (s : string) : string :=
  match s with
  | String "_" s' => s'
  | _ => s
  end.

(** [pascalCaseToSnakeCase] *)
Definition pascalCaseToSnakeCase (s : string) : string :=
  strip_underscore
    (Glob.replace_chars
       (fun c => if is_upper c then Some (String "_" (String (lower_char c) EmptyString)) else None)
       s).

(** [s.replace(/[\W_]+/g, '')]: what is left are the characters of
    [[a-zA-Z0-9]]. *)
Fixpoint remove_nonword (s : string) : string :=
  match s with
  | EmptyString => EmptyString
  | String c s' => if is_alnum c then String c (remove_nonword s') else remove_nonword s'
  end.

(** The state machine that [toPascalCase] amounts to: [start] tells
    whether the next character begins a word. *)
Fixpoint pascal_from (start : bool) (s : string) : string :=
  match s with
  | EmptyString => EmptyString
  | String c s' =>
      if is_alnum c
      then String (if start then upper_char c else lower_char c) (pascal_from false s')
      else pascal_from true s'
  end.

Definition all_chars (p : ascii -> bool) (s : string) : bool :=
  forallb p (list_ascii_of_string s).

End Strings.

(** ** [generateSchema]: the names of the generated objects *)
Module Naming.

(** [Schema], with its tables. *)
Record DbSchema : Type := mkDbSchema {
  db_name : string;
  db_tables : list Table.t
}.

(** [PgToNexusObject] *)
Record PgToNexusObject : Type := mkObject {
  name : string;
  table : Table.t;
  schema : Schema.t
}.

(** [toPascalCase(s.name + '_' + rawName).replace(/[\W_]+/g, '')] *)
Definition base_name (s : DbSchema) (t : Table.t) : string :=
  Strings.remove_nonword (Strings.toPascalCase (db_name s +:+ "_" +:+ Table.name t)).

(** [objectsName.filter(o => o.name === name).length <= 0] *)
Definition is_free (objectsName : list PgToNexusObject) (n : string) : bool :=
  length (List.filter (fun o => (name o =? n)%string) objectsName) <=? 0.

(** The [while (!approvedName)] loop of [addObjectName], entered with the
    current [name] and counter [i]; [fuel] bounds the number of rounds. *)
Fixpoint approve (fuel : nat) (s : DbSchema) (t : Table.t) (current : string) (i : nat)
    (objectsName : list PgToNexusObject) : option (list PgToNexusObject) :=
  match fuel with
  | O => None
  | S fuel' =>
      let current := if i =? 0 then current else current +:+ string_of_nat i in
      if is_free objectsName current
      then Some (objectsName ++ [mkObject current t (Schema.mk (db_name s))])
      else approve fuel' s t current (S i) objectsName
  end.

Definition addObjectName (fuel : nat) (s : DbSchema) (t : Table.t)
    (objectsName : list PgToNexusObject) : option (list PgToNexusObject) :=
  if 0 <? length (Table.columns t)
  then approve fuel s t (base_name s t) 0 objectsName
  else Some objectsName.

(** [dbSchema.forEach(s => s.tables.forEach(t => addObjectName(s, t)))] *)
Fixpoint addTables (fuel : nat) (s : DbSchema) (ts : list Table.t)
    (objectsName : list PgToNexusObject) : option (list PgToNexusObject) :=
  match ts with
  | [] => Some objectsName
  | t :: ts' =>
      match addObjectName fuel s t objectsName with
      | Some objectsName' => addTables fuel s ts' objectsName'
      | None => None
      end
  end.

Fixpoint addSchemas (fuel : nat) (dbSchema : list DbSchema)
    (objectsName : list PgToNexusObject) : option (list PgToNexusObject) :=
  match dbSchema with
  | [] => Some objectsName
  | s :: rest =>
      match addTables fuel s (db_tables s) objectsName with
      | Some objectsName' => addSchemas fuel rest objectsName'
      | None => None
      end
  end.

(** The number of tables of a database schema list. *)
Definition table_count (dbSchema : list DbSchema) : nat :=
  list_sum (map (fun s => length (db_tables s)) dbSchema).

End Naming.

(** ** [src/utils/filters.ts]: duplicates and merging *)
Module Filters.

Section removeDuplicates.
Context {T K V : Type}.
(** [t[k]], the comparison [===] of two such values, [Object.keys(t)] and
    what the call [interfaceKeys<T>()] of the reflection helper gives
    ([None] when it throws, or in the version of the file without it). *)
Variable get : T -> K -> V.
Variable strict_eq : V -> V -> bool.
Variable own_keys : T -> list K.
Variable interfaceKeys : option (list K).

(** [keys.map(k => t[k] === value[k]).every(k => k === true)] *)
Definition same_on (keys : list K) (t value : T) : bool :=
  forallb (fun k => strict_eq (get t k) (get value k)) keys.

(** [self.findIndex(p)], [None] standing for -1. *)
Fixpoint findIndex (p : T -> bool) (self : list T) : option nat :=
  match self with
  | [] => None
  | t :: rest => if p t then Some 0 else option_map S (findIndex p rest)
  end.

(** The keys compared: those of the reflection helper, or those of the
    first value when the helper throws or gives none. *)
Definition compared_keys (first : T) : list K :=
  let keys :=
    match interfaceKeys with
    | Some ks => ks
    | None => own_keys first
    end in
  if length keys <=? 0 then own_keys first else keys.

Definition removeDuplicates (values : list T) : list T :=
  match values with
  | [] => values
  | first :: _ =>
      let keys := compared_keys first in
      map snd
        (List.filter
           (fun iv : nat * T =>
              match findIndex (fun t => same_on keys t iv.2) values with
              | Some index => index =? iv.1
              | None => false
              end)
           (imap pair values))
  end.

(** The values kept from [values], given the values [seen] before them:
    those that agree with themselves and with no earlier value. *)
Fixpoint kept_after (keys : list K) (seen values : list T) : list T :=
  match values with
  | [] => []
  | value :: rest =>
      if same_on keys value value && negb (existsb (fun t => same_on keys t value) seen)
      then value :: kept_after keys (seen ++ [value]) rest
      else kept_after keys (seen ++ [value]) rest
  end.

End removeDuplicates.

(** [===] on primitive values that may be [undefined]. *)
Definition strict_equal (a b : option jsval) : bool :=
  match a, b with
  | None, None => true
  | Some JNull, Some JNull => true
  | Some (JBool x), Some (JBool y) => Bool.eqb x y
  | Some (JNum x), Some (JNum y) => (x =? y)%Z
  | Some (JStr x), Some (JStr y) => (x =? y)%string
  | _, _ => false
  end.

(** [removeDuplicates] on objects whose properties hold primitives. *)
Definition removeDuplicates_objects (interfaceKeys : option (list string))
    (values : list (list (string * jsval))) : list (list (string * jsval)) :=
  removeDuplicates (fun o k => prop o k) strict_equal (map fst) interfaceKeys values.

(** [removeDuplicates] on strings, as [mergeObjects] calls it on [cols]
    lists, in the version of the file without reflection helper: the
    keys of a string are its indices (a [nat] here, for ["0"], ["1"],
    ...) and [s[i]] is its character at [i]. *)
Definition removeDuplicates_strings (values : list string) : list string :=
  removeDuplicates (fun s i => String.get i s)
    (fun a b => bool_decide (a = b))
    (fun s => seq 0 (String.length s)) None values.

(** The value of a property: an array of elements [E], or a primitive. *)
Inductive field (E : Type) : Type :=
| Other (v : jsval)
| Arr (items : list E).
Arguments Other {E} v.
Arguments Arr {E} items.

Definition object (E : Type) : Type := list (string * field E).

Definition all_digits (s : string) : bool :=
  forallb Glob.is_digit (list_ascii_of_string s).

Definition digits_value (s : string) : N :=
  fold_left (fun n c => (10 * n + N.of_nat (Glob.digit_val c))%N) (list_ascii_of_string s) 0%N.

(** A property key that is an array index: a canonical decimal numeral
    below 2^32 - 1.  Such keys come first, in ascending order, when the
    properties of an object are listed. *)
Definition array_index (k : string) : option N :=
  match k with
  | EmptyString => None
  | String c rest =>
      if all_digits k && ((k =? "0")%string || negb (Ascii.eqb c "0")) &&
         (digits_value k <=? 4294967294)%N
      then Some (digits_value k) else None
  end.

Section objects.
Context {A : Type}.

(** [o[k] = v] for a key that [o] has: the property keeps its place. *)
Fixpoint replace_prop (o : list (string * A)) (k : string) (v : A) : option (list (string * A)) :=
  match o with
  | [] => None
  | (k', v') :: rest =>
      if (k' =? k)%string then Some ((k, v) :: rest)
      else option_map (cons (k', v')) (replace_prop rest k v)
  end.

(** A new array-index key goes before the first key that is no array
    index or a greater one. *)
Fixpoint insert_index (o : list (string * A)) (n : N) (k : string) (v : A) : list (string * A) :=
  match o with
  | [] => [(k, v)]
  | (k', v') :: rest =>
      match array_index k' with
      | Some n' => if (n' <? n)%N then (k', v') :: insert_index rest n k v
                   else (k, v) :: (k', v') :: rest
      | None => (k, v) :: (k', v') :: rest
      end
  end.

(** [o[k] = v] *)
Definition set_prop (o : list (string * A)) (k : string) (v : A) : list (string * A) :=
  match replace_prop o k v with
  | Some o' => o'
  | None =>
      match array_index k with
      | Some n => insert_index o n k v
      | None => o ++ [(k, v)]
      end
  end.

End objects.

Section merge.
Context {E K V : Type}.
Variable get : E -> K -> V.
Variable strict_eq : V -> V -> bool.
Variable own_keys : E -> list K.
Variable interfaceKeys : option (list K).
(** [String(e)] of an array element, for an array used as a property key. *)
Variable element_string : E -> string.

(** What the loop of [mergeObjects] assigns to [mergedObj[key]], [v2]
    being [obj2[key]]: the joined arrays without duplicates when both
    [obj1[key]] and [obj2[key]] are arrays, else [obj2[key]]. *)
Definition merged_value (obj1 : object E) (key : string) (v2 : field E) : field E :=
  match prop obj1 key, v2 with
  | Some (Arr a1), Arr a2 =>
      Arr (removeDuplicates get strict_eq own_keys interfaceKeys (a1 ++ a2))
  | _, _ => v2
  end.

(** [mergeObjects(obj1, obj2)]: the loop [for (const key in obj2)] over a
    copy of [obj1]; [kv] is a key of [obj2] with the value [obj2[key]]. *)
Definition mergeObjects (obj1 obj2 : object E) : object E :=
  fold_left (fun mergedObj kv => set_prop mergedObj kv.1 (merged_value obj1 kv.1 kv.2))
    obj2 obj1.

(** [obj[delimiter] as string], made a property key. *)
Definition name_of (delimiter : string) (obj : object E) : string :=
  match prop obj delimiter with
  | Some (Other v) => String_ v
  | Some (Arr items) => join "," (map element_string items)
  | None => "undefined"
  end.

(** [Array.isArray(obj[delimiter])] *)
Definition isArray_at (delimiter : string) (obj : object E) : bool :=
  match prop obj delimiter with
  | Some (Arr _) => true
  | _ => false
  end.

(** The loop of [mergeObjectsWithSameName] on the object [mergedObjects].
    Under a name that only the prototype of [mergedObjects] has (such as
    [constructor]) the lookup finds a function, and the merge with it is
    a copy of [obj], which is what the model stores.  Assigning to the
    key [__proto__] does not add a property but replaces the prototype
    that later lookups fall back on; the model stops there with [None]. *)
Fixpoint merge_into (mergedObjects : list (string * object E)) (objects : list (object E))
    (delimiter : string) : option (list (string * object E)) :=
  match objects with
  | [] => Some mergedObjects
  | obj :: rest =>
      let name := name_of delimiter obj in
      if (name =? "__proto__")%string then None
      else
        merge_into
          (match prop mergedObjects name with
           | Some existingObj => set_prop mergedObjects name (mergeObjects existingObj obj)
           | None => set_prop mergedObjects name obj
           end)
          rest delimiter
  end.

(** [mergeObjectsWithSameName(objects, delimiter)]: [Object.values] of
    the object built by the loop. *)
Definition mergeObjectsWithSameName (objects : list (object E)) (delimiter : string)
    : option (list (object E)) :=
  option_map (map snd) (merge_into [] objects delimiter).

End merge.

(** The two functions on objects whose arrays hold strings, such as the
    [cols] of a table: the elements are compared as
    [removeDuplicates_strings] compares them. *)
Definition mergeObjects_strings : object string -> object string -> object string :=
  mergeObjects (fun s i => String.get i s) (fun a b => bool_decide (a = b))
    (fun s => seq 0 (String.length s)) None.

Definition mergeObjectsWithSameName_strings
    : list (object string) -> string -> option (list (object string)) :=
  mergeObjectsWithSameName (fun s i => String.get i s) (fun a b => bool_decide (a = b))
    (fun s => seq 0 (String.length s)) None id.

(** Three table descriptions, two of them of the same name. *)
Definition users_read : object string :=
  [("name", Other (JStr "users")); ("cols", Arr ["id"; "name"])].

Definition payments_read : object string :=
  [("name", Other (JStr "payments")); ("cols", Arr ["id"])].

Definition users_filtered : object string :=
  [("name", Other (JStr "users")); ("cols", Arr ["email"; "id"]);
   ("defaultWhere", Other (JStr "active"))].

End Filters.

(** * Properties *)

Import Filter Builders Props.

(** ** The type mapper *)

Lemma run_calls_unregistered (cs : list (Z * option TypeMapper.SemanticType * option bool))
    (types : TypeMapper.TypeObject) (oid : Z) :
  ~ In oid (map (fun c => c.1.1) cs) ->
  TypeMapper.run_calls cs types !! oid = types !! oid.
Proof.
  revert types.
  induction cs as [|c cs IH]; intros types Hnot; simpl in *.
  - reflexivity.
  - unfold TypeMapper.run_calls in *. simpl.
    rewrite IH by tauto.
    unfold TypeMapper.register.
    apply lookup_insert_ne. tauto.
Qed.

Lemma getType_registered_calls :
  Forall (fun c =>
            TypeMapper.getType c.1.1 =
            TypeMapper.mkEntry (default TypeMapper.TString c.1.2) (Some (default false c.2)))
    TypeMapper.calls.
Proof.
  unfold TypeMapper.calls.
  repeat (constructor; [vm_compute; reflexivity|]).
  constructor.
Qed.

(** C8, as the code has it: an oid that no [register] call names yields
    [{ type: 'string' }], an object without an [isArray] property; an oid
    named by a [register] call yields the registered kind and array flag,
    the flag being [false] when the call gives none. *)
Theorem getType_lookup (oid : Z) :
  (~ In oid TypeMapper.registered_oids ->
   TypeMapper.getType oid = TypeMapper.mkEntry TypeMapper.TString None) /\
  (forall ty arr, In (oid, ty, arr) TypeMapper.calls ->
   TypeMapper.getType oid =
   TypeMapper.mkEntry (default TypeMapper.TString ty) (Some (default false arr))).
Proof.
  split.
  - intros Hnot. unfold TypeMapper.getType.
    cbv zeta.
    rewrite run_calls_unregistered by exact Hnot.
    rewrite lookup_empty. reflexivity.
  - intros ty arr Hin.
    pose proof getType_registered_calls as Hall.
    rewrite List.Forall_forall in Hall.
    exact (Hall (oid, ty, arr) Hin).
Qed.

Lemma getType_lookup_witness :
  TypeMapper.getType 4242 = TypeMapper.mkEntry TypeMapper.TString None /\
  TypeMapper.getType 1000 = TypeMapper.mkEntry TypeMapper.TBoolean (Some true) /\
  TypeMapper.getType 23 = TypeMapper.mkEntry TypeMapper.TInt (Some false) /\
  TypeMapper.getType 1186 = TypeMapper.mkEntry TypeMapper.TInterval (Some false).
Proof.
  split; [|split; [|split]].
  - apply (proj1 (getType_lookup 4242)).
    vm_compute. intros H. repeat (destruct H as [H|H]; [discriminate H|]). exact H.
  - apply (proj2 (getType_lookup 1000) (Some TypeMapper.TBoolean) (Some true)).
    vm_compute. tauto.
  - apply (proj2 (getType_lookup 23) (Some TypeMapper.TInt) None).
    vm_compute. tauto.
  - apply (proj2 (getType_lookup 1186) (Some TypeMapper.TInterval) None).
    vm_compute. tauto.
Defined.

(** C8 as stated fails: 4242 is not registered, and [getType(4242)] is not
    an object whose [isArray] is [false]. *)
Lemma getType_unknown_has_no_isArray :
  ~ In 4242%Z TypeMapper.registered_oids /\
  TypeMapper.getType 4242 <> TypeMapper.mkEntry TypeMapper.TString (Some false).
Proof.
  split.
  - vm_compute. intros H. repeat (destruct H as [H|H]; [discriminate H|]). exact H.
  - vm_compute. discriminate.
Qed.

(** ** The name matcher *)

(** C7 at the pattern of the claim: the text handed to [RegExp] for [a?b]
    is [^a\.{1}b$]; it matches [axb] exactly when [x] is a dot, so [?] does
    not stand for an arbitrary character. *)
Theorem matchGitignorePattern_question_mark :
  Glob.toRegexSource "a?b" = "^a\.{1}b$" /\
  Glob.matchGitignorePattern "a?b" "axb" = false /\
  (forall x : ascii,
     Glob.matchGitignorePattern "a?b" (String "a" (String x "b")) = Ascii.eqb x ".").
Proof.
  split; [vm_compute; reflexivity|].
  split; [vm_compute; reflexivity|].
  intros x.
  destruct x as [[] [] [] [] [] [] [] []]; vm_compute; reflexivity.
Qed.

(** The [*] wildcard does work. *)
Example matchGitignorePattern_star :
  Glob.matchGitignorePattern "pay*" "payments_per_user" = true /\
  Glob.matchGitignorePattern "pay*" "user" = false.
Proof. split; vm_compute; reflexivity. Qed.

(** ** Paging in the read resolver *)

Lemma numberOfResults_clamps (maxRows : Z) :
  (1 <= ReadResolver.numberOfResults maxRows <= 100)%Z /\
  ((maxRows < 1 \/ 100 < maxRows)%Z -> ReadResolver.numberOfResults maxRows = 100%Z) /\
  ((1 <= maxRows <= 100)%Z -> ReadResolver.numberOfResults maxRows = maxRows).
Proof.
  unfold ReadResolver.numberOfResults.
  destruct (Z.leb_spec maxRows 100), (Z.gtb_spec maxRows 0); simpl; lia.
Qed.

Lemma negative_page_is_page_one (page maxRows : Z) (p t : option Z) :
  (page < 0)%Z ->
  ReadResolver.offset page maxRows = 0%Z /\
  ReadResolver.currentPage (ReadResolver.pageInfo page maxRows p t) = 1%Z.
Proof.
  intros Hneg.
  unfold ReadResolver.offset, ReadResolver.pageInfo, ReadResolver.pageNumber. simpl.
  destruct (Z.geb_spec page 0); [lia|]. simpl. split; reflexivity.
Qed.

Lemma hasNextPage_spec (page maxRows : Z) (p t : option Z) :
  ReadResolver.hasNextPage (ReadResolver.pageInfo page maxRows p t) = true <->
  (default 0 p - ReadResolver.pageNumber page > 0)%Z.
Proof.
  unfold ReadResolver.pageInfo. simpl.
  destruct (Z.gtb_spec (default 0 p - ReadResolver.pageNumber page) 0)%Z; split;
    intros; try lia; try discriminate; reflexivity.
Qed.

(** C6 on the inputs of the claim: [maxRows = 500] is clamped to 100, but
    [page = 0] gives page number -1 and the offset -100 (not 0), which
    [makeQuery] hands to the database as the [OFFSET] parameter; and for
    page 2 of a count query answering 1, the reply has [pages = 2],
    [currentPage = 1] and [hasNextPage = false] although 2 - 1 > 0. *)
Theorem page_zero_is_not_clamped :
  ReadResolver.numberOfResults 500 = 100%Z /\
  ReadResolver.pageNumber 0 = (-1)%Z /\
  ReadResolver.offset 0 500 = (-100)%Z /\
  (exists q tb,
     ReadResolver.readQuery public users 0 500 None None = Ok (q, tb) /\
     values q = [JStr "100"; JStr "-100"] /\
     query q = "SELECT * FROM public.users WHERE TRUE = TRUE  LIMIT $1::integer OFFSET $2::integer") /\
  ReadResolver.currentPage (ReadResolver.pageInfo 0 500 None None) = 1%Z /\
  (let r := ReadResolver.pageInfo 2 20 (Some 1%Z) (Some 25%Z) in
   ReadResolver.pages r = 2%Z /\ ReadResolver.currentPage r = 1%Z /\
   ReadResolver.hasNextPage r = false).
Proof.
  repeat split; try (vm_compute; reflexivity).
  eexists. eexists. repeat split; vm_compute; reflexivity.
Qed.

(** ** Update and delete without a filter tree *)

Lemma mutation_filter_no_branch (table : Table.t) (where_ : WhereType) (values : list jsval) :
  where_AND where_ = None ->
  where_OR where_ = None ->
  mutation_filter table where_ values = Ok ("WHERE TRUE IS FALSE", values, table).
Proof.
  intros Hand Hor. unfold mutation_filter. rewrite Hand, Hor. reflexivity.
Qed.

(** C4: when the condition tree of an update or a delete has neither an
    [AND] nor an [OR] branch, the predicate is [WHERE TRUE IS FALSE]; the
    delete has no parameters at all, the update only those of its [SET]
    list, numbered from 1; the table is left as it was. *)
Theorem no_filter_is_impossible_predicate
    (schema : Schema.t) (table : Table.t) (value : ValueObject) (where_ : WhereType) :
  where_AND where_ = None ->
  where_OR where_ = None ->
  makeMutationDelete schema table where_ =
    Ok (mkMutationReturn
          ("DELETE FROM " +:+ Schema.name schema +:+ "." +:+ Table.name table +:+
           " WHERE TRUE IS FALSE RETURNING *")
          "WHERE TRUE IS FALSE" [],
        table) /\
  exists r,
    makeMutationUpdate schema table value where_ = Ok (r, table) /\
    m_whereQuery r = "WHERE TRUE IS FALSE" /\
    m_values r = map (fun k => default JNull (prop value k)) (update_keys table value) /\
    m_query r =
      "UPDATE " +:+ Schema.name schema +:+ "." +:+ Table.name table +:+
      " SET (" +:+ join ", " (update_keys table value) +:+ ") = (" +:+
      join ", " (imap (fun i _ => "$" +:+ string_of_nat (i + 1)) (m_values r)) +:+
      ") WHERE TRUE IS FALSE RETURNING *".
Proof.
  intros Hand Hor. split.
  - unfold makeMutationDelete.
    rewrite (mutation_filter_no_branch table where_ [] Hand Hor). reflexivity.
  - unfold makeMutationUpdate.
    rewrite (mutation_filter_no_branch table where_ [] Hand Hor).
    eexists. split; [reflexivity|]. simpl.
    split; [reflexivity|]. split; [reflexivity|].
    set (updateValues := map (fun k => default JNull (prop value k)) (update_keys table value)).
    rewrite (imap_ext
               (fun i _ => "$" +:+ string_of_nat (length updateValues - length updateValues + i + 1))
               (fun i _ => "$" +:+ string_of_nat (i + 1)) updateValues).
    + reflexivity.
    + intros i x _. simpl. rewrite Nat.sub_diag. reflexivity.
Qed.

Lemma no_filter_is_impossible_predicate_witness :
  exists r,
    makeMutationUpdate public users [("name", JStr "Bia"); ("age", JNum 30)]
      (mkWhere None None) = Ok (r, users) /\
    m_whereQuery r = "WHERE TRUE IS FALSE" /\
    m_values r = [JStr "Bia"; JNum 30].
Proof.
  destruct (no_filter_is_impossible_predicate public users
              [("name", JStr "Bia"); ("age", JNum 30)] (mkWhere None None)
              eq_refl eq_refl) as [_ [r [Hrun [Hwhere [Hvalues _]]]]].
  exists r. split; [exact Hrun|]. split; [exact Hwhere|]. exact Hvalues.
Defined.

(** ** Placeholders and parameters *)

(** C1 on a predicate with a scalar and an array condition: the statement
    built by [makeQuery] has five parameters, while its placeholders are
    [$1], [$1], [$2], [$4], [$5]: index 1 is repeated and index 3 is
    missing.  The same predicate in a delete has three parameters and the
    placeholders [$1], [$1], [$2]. *)
Theorem array_condition_restarts_at_one :
  (exists q tb,
     makeQuery public users 20 0 (Some name_and_ages) None None None = Ok (q, tb) /\
     query q =
       "SELECT * FROM public.users WHERE name = $1::text AND age IN ($1::int4, $2::int4)  LIMIT $4::integer OFFSET $5::integer" /\
     values q = [JStr "Ana"; JStr "1"; JStr "2"; JStr "20"; JStr "0"] /\
     Placeholders.placeholders (query q) = [1; 1; 2; 4; 5] /\
     Placeholders.contiguous 1 (length (values q)) (query q) = false) /\
  (exists r tb,
     makeMutationDelete public users name_and_ages = Ok (r, tb) /\
     m_values r = [JStr "Ana"; JStr "1"; JStr "2"] /\
     Placeholders.placeholders (m_query r) = [1; 1; 2] /\
     Placeholders.contiguous 1 (length (m_values r)) (m_query r) = false).
Proof.
  split; eexists; eexists; repeat split; vm_compute; reflexivity.
Qed.

(** Without array conditions and without [defaultWhere] the numbering is
    right, as in the scenario of the specification. *)
Example scalar_condition_is_numbered :
  exists q tb,
    makeQuery public users 20 0
      (Some (mkWhere (Some [Obj [("name", single EQUAL (JStr "Ana"))]]) None))
      None None None = Ok (q, tb) /\
    query q =
      "SELECT * FROM public.users WHERE name = $1::text  LIMIT $2::integer OFFSET $3::integer" /\
    values q = [JStr "Ana"; JStr "20"; JStr "0"] /\
    Placeholders.contiguous 1 (length (values q)) (query q) = true.
Proof.
  eexists; eexists; repeat split; vm_compute; reflexivity.
Qed.

(** ** Required variables *)

(** C2 on a table whose [defaultWhere] needs the non-nullable variable
    [uid]: [makeQuery] with an empty variable map, or with none, throws
    nothing and builds a statement in which [$uid] is still a name;
    [makeMutationCreate] without variables does the same.  In the other
    direction, with [uid] supplied, [makeQuery] throws as soon as the
    optional [lang] comes with it, and [makeMutationCreate] throws when
    the supplied [uid] is 0. *)
Theorem missing_required_variable_is_accepted :
  In "uid" (requiredVariables docs) /\
  (exists q tb,
     makeQuery public docs 20 0 None (Some []) None None = Ok (q, tb) /\
     makeQuery public docs 20 0 None None None None = Ok (q, tb) /\
     query q =
       "SELECT * FROM public.docs WHERE (owner = $uid AND lang IS NOT DISTINCT FROM $lang) = TRUE  LIMIT $3::integer OFFSET $4::integer") /\
  (exists c tb,
     makeMutationCreate public docs [[("id", JNum 1); ("title", JStr "a")]] None = Ok (c, tb) /\
     makeMutationCreate public docs [[("id", JNum 1); ("title", JStr "a")]] (Some []) = Ok (c, tb)) /\
  makeQuery public docs 20 0 None (Some [("uid", JNum 7); ("lang", JStr "pt")]) None None =
    Throw "One required variable is missing. Required variables: uid" /\
  makeMutationCreate public docs [[("id", JNum 1)]] (Some [[("uid", JNum 0)]]) =
    Throw "Variable uid is required".
Proof.
  split; [vm_compute; tauto|].
  split; [eexists; eexists; repeat split; vm_compute; reflexivity|].
  split; [eexists; eexists; repeat split; vm_compute; reflexivity|].
  split; vm_compute; reflexivity.
Qed.

(** ** The default filter *)

(** C3 on a table with two variables, through [makeQuery] with the
    required variable supplied and through [whereSQL] called the same way
    (the variable values already in [values], no start index): the
    fragment is parenthesised, compared with [TRUE] and put before the
    caller's clause, but its variables become [$0] and [$1], while the
    values of the variables are parameters 1 and 2 and the caller's value
    is parameter 3. *)
Theorem defaultWhere_variables_start_at_zero :
  (exists q tb,
     makeQuery public docs 20 0 (Some title_is_Ana) (Some [("uid", JNum 7)]) None None =
       Ok (q, tb) /\
     query q =
       "SELECT * FROM public.docs WHERE (owner = $0 AND lang IS NOT DISTINCT FROM $1) = TRUE AND title = $3::text  LIMIT $4::integer OFFSET $5::integer" /\
     values q = [JStr "7"; JNull; JStr "Ana"; JStr "20"; JStr "0"] /\
     Placeholders.placeholders (query q) = [0; 1; 3; 4; 5]) /\
  whereSQL docs None title_is_Ana [JStr "7"; JStr "pt"] =
    Ok ("WHERE (owner = $0 AND lang IS NOT DISTINCT FROM $1) = TRUE AND title = $3::text",
        [JStr "7"; JStr "pt"; JStr "Ana"],
        Table.set_defaultWhere docs (Some "owner = $0 AND lang IS NOT DISTINCT FROM $1")).
Proof.
  split; [|vm_compute; reflexivity].
  eexists; eexists; repeat split; vm_compute; reflexivity.
Qed.

(** ** The table after a compilation *)

(** C9 on the same table: compiling a predicate stores the rewritten
    fragment in the table, so the table of a later call is not the table
    of the first; a select without filter tree shows [$uid] before the
    first filtered call and [$0] after it.  [makeMutationCreate] with a
    variables object overwrites the fragment in the same way. *)
Theorem compilation_rewrites_the_table :
  (exists sql vals tb,
     whereSQL docs None title_is_Ana [] = Ok (sql, vals, tb) /\
     Table.defaultWhere docs = Some "owner = $uid AND lang IS NOT DISTINCT FROM $lang" /\
     Table.defaultWhere tb = Some "owner = $0 AND lang IS NOT DISTINCT FROM $1" /\
     tb <> docs /\
     (exists q1 q2 tb1 tb2,
        makeQuery public docs 20 0 None None None None = Ok (q1, tb1) /\
        makeQuery public tb 20 0 None None None None = Ok (q2, tb2) /\
        whereQuery q1 = Some "WHERE (owner = $uid AND lang IS NOT DISTINCT FROM $lang) = TRUE" /\
        whereQuery q2 = Some "WHERE (owner = $0 AND lang IS NOT DISTINCT FROM $1) = TRUE")) /\
  (exists r tb,
     makeMutationDelete public docs title_is_Ana = Ok (r, tb) /\ tb <> docs) /\
  (exists c tb,
     makeMutationCreate public docs [[("id", JNum 1)]]
       (Some [[("uid", JNum 7); ("name", JStr "uid")]]) = Ok (c, tb) /\
     Table.defaultWhere tb = Some "owner = 2 AND lang IS NOT DISTINCT FROM $lang").
Proof.
  split; [|split].
  - eexists; eexists; eexists.
    split; [vm_compute; reflexivity|].
    split; [reflexivity|]. split; [reflexivity|].
    split; [intros H; apply (f_equal Table.defaultWhere) in H; vm_compute in H; discriminate H|].
    eexists; eexists; eexists; eexists. repeat split; vm_compute; reflexivity.
  - eexists; eexists. split; [vm_compute; reflexivity|].
    intros H; apply (f_equal Table.defaultWhere) in H; vm_compute in H; discriminate H.
  - eexists; eexists. split; vm_compute; reflexivity.
Qed.


(** ** The monad of the filter compiler *)

Lemma mbind_ext {A B : Type} (m1 m2 : M A) (k1 k2 : A -> M B) (values : list jsval) :
  m1 values = m2 values ->
  (forall a values', k1 a values' = k2 a values') ->
  mbind m1 k1 values = mbind m2 k2 values.
Proof.
  intros Hm Hk. unfold mbind. rewrite Hm.
  destruct (m2 values) as [[a values']|e]; [apply Hk|reflexivity].
Qed.

Lemma forEachM_app {A S : Type} (f : A -> S -> M S) (xs ys : list A) (s : S)
    (values : list jsval) :
  forEachM f (xs ++ ys) s values = mbind (forEachM f xs s) (forEachM f ys) values.
Proof.
  revert s values.
  induction xs as [|x xs IH]; intros s values; simpl.
  - reflexivity.
  - unfold mbind.
    destruct (f x s values) as [[s' values']|e]; [|reflexivity].
    rewrite IH. reflexivity.
Qed.

Lemma mapM_replace {A B : Type} (f : A -> M B) (before after : list A) (x x' : A) :
  (forall values, f x values = f x' values) ->
  forall values, mapM f (before ++ x :: after) values = mapM f (before ++ x' :: after) values.
Proof.
  intros Hx.
  induction before as [|b before IH]; intros values; simpl.
  - apply mbind_ext; [apply Hx|reflexivity].
  - apply mbind_ext; [reflexivity|].
    intros y values'. apply mbind_ext; [apply IH|reflexivity].
Qed.

Lemma throws_only_ret {A : Type} (E : string -> bool) (a : A) : throws_only E (ret a).
Proof. intros values e H. discriminate H. Qed.

Lemma throws_only_bind {A B : Type} (E : string -> bool) (m : M A) (k : A -> M B) :
  throws_only E m -> (forall a, throws_only E (k a)) -> throws_only E (mbind m k).
Proof.
  intros Hm Hk values e H. unfold mbind in H.
  destruct (m values) as [[a values']|e0] eqn:Em.
  - exact (Hk a values' e H).
  - injection H as <-. exact (Hm values e0 Em).
Qed.

Lemma throws_only_mapM {A B : Type} (E : string -> bool) (f : A -> M B) (xs : list A) :
  Forall (fun x => throws_only E (f x)) xs -> throws_only E (mapM f xs).
Proof.
  induction 1 as [|x xs Hx _ IH]; simpl.
  - apply throws_only_ret.
  - apply throws_only_bind; [exact Hx|].
    intros y. apply throws_only_bind; [exact IH|].
    intros ys. apply throws_only_ret.
Qed.

Lemma throws_only_forEachM {A S : Type} (E : string -> bool) (f : A -> S -> M S)
    (xs : list A) :
  Forall (fun x => forall s, throws_only E (f x s)) xs ->
  forall s, throws_only E (forEachM f xs s).
Proof.
  induction 1 as [|x xs Hx _ IH]; intros s; simpl.
  - apply throws_only_ret.
  - apply throws_only_bind; [apply Hx|exact IH].
Qed.

Lemma returns_ret {A : Type} (a : A) : returns (ret a).
Proof. intros values. exists a, values. reflexivity. Qed.

Lemma returns_bind {A B : Type} (m : M A) (k : A -> M B) :
  returns m -> (forall a, returns (k a)) -> returns (mbind m k).
Proof.
  intros Hm Hk values. unfold mbind.
  destruct (Hm values) as [a [values' ->]]. apply Hk.
Qed.

Lemma returns_mapM {A B : Type} (f : A -> M B) (xs : list A) :
  Forall (fun x => returns (f x)) xs -> returns (mapM f xs).
Proof.
  induction 1 as [|x xs Hx _ IH]; simpl.
  - apply returns_ret.
  - apply returns_bind; [exact Hx|].
    intros y. apply returns_bind; [exact IH|].
    intros ys. apply returns_ret.
Qed.

Lemma returns_forEachM {A S : Type} (f : A -> S -> M S) (xs : list A) :
  Forall (fun x => forall s, returns (f x s)) xs ->
  forall s, returns (forEachM f xs s).
Proof.
  induction 1 as [|x xs Hx _ IH]; intros s; simpl.
  - apply returns_ret.
  - apply returns_bind; [apply Hx|exact IH].
Qed.

(** ** Induction on condition objects *)

Section ANDOrORType_induction.
Variable P : ANDOrORType -> Prop.
Hypothesis P_Obj :
  forall props,
    Forall (fun kv : string * PropValue =>
              match kv.2 with
              | Nested va => Forall P va
              | Cond _ | Null => True
              end) props ->
    P (Obj props).

Fixpoint ANDOrORType_nested_ind (v : ANDOrORType) : P v :=
  match v with
  | Obj props =>
      P_Obj props
        ((fix on_props (ps : list (string * PropValue)) :
            Forall (fun kv : string * PropValue =>
                      match kv.2 with
                      | Nested va => Forall P va
                      | Cond _ | Null => True
                      end) ps :=
            match ps with
            | [] => @List.Forall_nil _ _
            | kv :: ps' =>
                @List.Forall_cons _ _ kv ps'
                  (match kv.2 as pv
                         return match pv with
                                | Nested va => Forall P va
                                | Cond _ | Null => True
                                end
                   with
                   | Nested va =>
                       (fix on_children (vs : list ANDOrORType) : Forall P vs :=
                          match vs with
                          | [] => @List.Forall_nil _ _
                          | v' :: vs' =>
                              @List.Forall_cons _ _ v' vs' (ANDOrORType_nested_ind v') (on_children vs')
                          end) va
                   | Cond _ | Null => I
                   end)
                  (on_props ps')
            end) props)
  end.
End ANDOrORType_induction.

(** ** The filter compiler: errors and unknown columns *)

Lemma returns_throws_only {A : Type} (E : string -> bool) (m : M A) :
  returns m -> throws_only E m.
Proof.
  intros Hm values e H.
  destruct (Hm values) as [a [values' Hok]]. congruence.
Qed.

Section compilation.
Variable table : Table.t.
Variable start : option nat.

Lemma mapCondition_returns (c : SingleCondition + ArrayCondition) (type : string) :
  returns (mapCondition start c type).
Proof.
  intros values. destruct c as [s|a]; eexists; eexists; reflexivity.
Qed.

Lemma condition_sql_returns (cl : Column.t * Leaf) : returns (condition_sql start cl).
Proof.
  unfold condition_sql.
  destruct (single_or_array cl.2) as [c|].
  - apply returns_bind; [apply mapCondition_returns|].
    intros s. apply returns_ret.
  - apply returns_ret.
Qed.

Lemma assemble_returns (type : Connective) (sc : Scan) : returns (assemble start type sc).
Proof.
  unfold assemble. apply returns_bind.
  - apply returns_mapM. apply List.Forall_forall.
    intros cl _. apply condition_sql_returns.
  - intros conds. apply returns_ret.
Qed.

Lemma scan_step_throws_only (type : Connective) (kv : string * PropValue) (sc : Scan) :
  match kv.2 with
  | Nested va =>
      Forall (fun v => forall type', throws_only type_error (mapWhere table start v type')) va
  | Cond _ | Null => True
  end ->
  throws_only type_error (scan_step table (mapWhere table start) type kv sc).
Proof.
  intros Hkv. unfold scan_step.
  destruct (includes ["AND"; "OR"] kv.1).
  - destruct kv.2 as [va|data|].
    + apply throws_only_bind.
      * apply throws_only_mapM.
        eapply List.Forall_impl; [|exact Hkv].
        intros v Hv. apply Hv.
      * intros parts. apply throws_only_ret.
    + intros values e H. unfold throw in H. injection H as <-. reflexivity.
    + intros values e H. unfold throw in H. injection H as <-. reflexivity.
  - destruct (Table.find_column table kv.1) as [col|];
      [|destruct kv.2; apply throws_only_ret].
    destruct kv.2 as [va|data|]; [apply throws_only_ret| |].
    + destruct (usable (single_or_array data)); apply throws_only_ret.
    + intros values e H. unfold throw in H. injection H as <-. reflexivity.
Qed.

Lemma mapWhere_throws_only (v : ANDOrORType) :
  forall type, throws_only type_error (mapWhere table start v type).
Proof.
  induction v as [props IH] using ANDOrORType_nested_ind.
  intros type. simpl.
  apply throws_only_bind.
  - apply throws_only_forEachM.
    eapply List.Forall_impl; [|exact IH].
    intros kv Hkv sc. apply scan_step_throws_only. exact Hkv.
  - intros sc. apply returns_throws_only, assemble_returns.
Qed.

Lemma scan_step_returns (type : Connective) (kv : string * PropValue) (sc : Scan) :
  match kv.2 with
  | Nested va => Forall (fun v => forall type', returns (mapWhere table start v type')) va
  | Cond _ => includes ["AND"; "OR"] kv.1 = false
  | Null => False
  end ->
  returns (scan_step table (mapWhere table start) type kv sc).
Proof.
  intros Hkv. unfold scan_step.
  destruct (includes ["AND"; "OR"] kv.1).
  - destruct kv.2 as [va|data|]; [|discriminate Hkv|destruct Hkv].
    apply returns_bind.
    + apply returns_mapM.
      eapply List.Forall_impl; [|exact Hkv].
      intros v Hv. apply Hv.
    + intros parts. apply returns_ret.
  - destruct (Table.find_column table kv.1) as [col|];
      [|destruct kv.2; apply returns_ret].
    destruct kv.2 as [va|data|]; [apply returns_ret| |destruct Hkv].
    destruct (usable (single_or_array data)); apply returns_ret.
Qed.

Lemma mapWhere_returns (v : ANDOrORType) :
  well_shaped v = true -> forall type, returns (mapWhere table start v type).
Proof.
  induction v as [props IH] using ANDOrORType_nested_ind.
  intros Hshape type. simpl in *.
  apply returns_bind; [|intros sc; apply assemble_returns].
  apply returns_forEachM.
  rewrite List.forallb_forall in Hshape.
  rewrite List.Forall_forall in IH.
  apply List.Forall_forall. intros kv Hin sc.
  apply scan_step_returns.
  specialize (Hshape kv Hin). specialize (IH kv Hin).
  destruct kv.2 as [va|data|].
  - rewrite List.forallb_forall in Hshape.
    rewrite List.Forall_forall in IH.
    apply List.Forall_forall. intros v Hv type'.
    apply (IH v Hv). apply Hshape, Hv.
  - apply negb_true_iff. exact Hshape.
  - discriminate Hshape.
Qed.

Lemma scan_step_unknown_column (mapWhere_ : ANDOrORType -> Connective -> M string)
    (type : Connective) (k : string) (data : Leaf) (sc : Scan) :
  includes ["AND"; "OR"] k = false ->
  Table.find_column table k = None ->
  scan_step table mapWhere_ type (k, Cond data) sc = ret sc.
Proof.
  intros Hkey Hcol. unfold scan_step. cbn [fst snd].
  rewrite Hkey, Hcol. reflexivity.
Qed.

Lemma scan_step_replace (type : Connective) (k : string)
    (before after : list ANDOrORType) (v v' : ANDOrORType) (sc : Scan) (values : list jsval) :
  (forall type' values', mapWhere table start v type' values' = mapWhere table start v' type' values') ->
  scan_step table (mapWhere table start) type (k, Nested (before ++ v :: after)) sc values =
  scan_step table (mapWhere table start) type (k, Nested (before ++ v' :: after)) sc values.
Proof.
  intros Hv. unfold scan_step. cbn [fst snd].
  destruct (includes ["AND"; "OR"] k).
  - apply mbind_ext; [|reflexivity].
    apply mapM_replace. intros values'. apply Hv.
  - reflexivity.
Qed.

Lemma mapWhere_drops_leaf (v v' : ANDOrORType) :
  drops_leaf table v v' ->
  forall type values, mapWhere table start v type values = mapWhere table start v' type values.
Proof.
  induction 1 as [pre k data post Hkey Hcol|pre k before v v' after post Hdrop IH];
    intros type values; simpl.
  - apply mbind_ext; [|reflexivity].
    rewrite !forEachM_app.
    apply mbind_ext; [reflexivity|].
    intros sc values'. cbn [forEachM].
    rewrite (scan_step_unknown_column _ type k data sc Hkey Hcol). reflexivity.
  - apply mbind_ext; [|reflexivity].
    rewrite !forEachM_app.
    apply mbind_ext; [reflexivity|].
    intros sc values'. cbn [forEachM].
    apply mbind_ext; [|reflexivity].
    apply scan_step_replace. exact IH.
Qed.

Lemma compile_branch_replace (before after : list ANDOrORType) (v v' : ANDOrORType)
    (type : Connective) (values : list jsval) :
  drops_leaf table v v' ->
  compile_branch table start (Some (before ++ v :: after)) type values =
  compile_branch table start (Some (before ++ v' :: after)) type values.
Proof.
  intros Hdrop. unfold compile_branch.
  apply mbind_ext; [|reflexivity].
  apply mapM_replace. intros values'. apply mapWhere_drops_leaf. exact Hdrop.
Qed.

Lemma compile_branch_throws_only (b : option (list ANDOrORType)) (type : Connective) :
  throws_only type_error (compile_branch table start b type).
Proof.
  destruct b as [l|]; simpl; [|apply throws_only_ret].
  apply throws_only_bind.
  - apply throws_only_mapM. apply List.Forall_forall.
    intros v _. apply mapWhere_throws_only.
  - intros r. apply throws_only_ret.
Qed.

Lemma compile_branch_returns (b : option (list ANDOrORType)) (type : Connective) :
  forallb well_shaped (default [] b) = true ->
  returns (compile_branch table start b type).
Proof.
  intros Hshape.
  destruct b as [l|]; simpl in *; [|apply returns_ret].
  apply returns_bind.
  - apply returns_mapM. apply List.Forall_forall.
    intros v Hv. apply mapWhere_returns.
    rewrite List.forallb_forall in Hshape. apply Hshape, Hv.
  - intros r. apply returns_ret.
Qed.

Lemma whereSQL_throws_only (where_ : WhereType) (values : list jsval) (e : string) :
  whereSQL table start where_ values = Throw e -> type_error e = true.
Proof.
  unfold whereSQL. intros H.
  destruct (compile_branches table start where_ values) as [[[a o] values']|e0] eqn:E;
    simpl in H; [discriminate H|].
  injection H as <-.
  revert E. unfold compile_branches.
  apply throws_only_bind; [apply compile_branch_throws_only|].
  intros a. apply throws_only_bind; [apply compile_branch_throws_only|].
  intros o. apply throws_only_ret.
Qed.

Lemma whereSQL_returns (where_ : WhereType) (values : list jsval) :
  well_shaped_where where_ = true ->
  exists r, whereSQL table start where_ values = Ok r.
Proof.
  unfold well_shaped_where. intros Hshape.
  apply andb_true_iff in Hshape as [Hand Hor].
  assert (Hret : returns (compile_branches table start where_)).
  { unfold compile_branches.
    apply returns_bind; [apply compile_branch_returns, Hand|].
    intros a. apply returns_bind; [apply compile_branch_returns, Hor|].
    intros o. apply returns_ret. }
  unfold whereSQL.
  destruct (Hret values) as [[a o] [values' ->]]. simpl.
  eexists. reflexivity.
Qed.

(** A condition tree [where'] that is [where_] without one leaf of an
    unknown column compiles to the same result, text, parameters and
    table alike, whatever [values] holds at the call: the leaf is not
    read.  The object that held it stays where it was. *)
Lemma unknown_column_leaf_is_not_read (where_ where' : WhereType) (values : list jsval) :
  drops_leaf_where table where_ where' ->
  whereSQL table start where_ values = whereSQL table start where' values.
Proof.
  intros Hdrop. unfold whereSQL, compile_branches.
  destruct Hdrop as [before v v' after o Hv|a before v v' after Hv]; simpl.
  - f_equal. apply mbind_ext; [|reflexivity].
    apply compile_branch_replace, Hv.
  - f_equal. apply mbind_ext; [reflexivity|].
    intros a' values'. apply mbind_ext; [|reflexivity].
    apply compile_branch_replace, Hv.
Qed.

End compilation.

(** C5: the example of the specification, on a table [users] that has a
    column [age] and no column [unknownCol].  The leaf of the unknown
    column raises no error and adds no parameter, but the object that
    held it compiles to the empty text, and the join of the [AND] list
    keeps that text: the predicate is [WHERE  AND age = $1::int4], as
    for the request [{AND: [{}, {age: ...}]}], and not the clause of
    [age] alone, which is what the request without that object gives.
    The select and the delete carry the predicate as it is. *)
Theorem unknown_column_leaf_leaves_an_empty_conjunct :
  whereSQL users None unknown_then_age [] =
    Ok ("WHERE  AND age = $1::int4", [JStr "5"], users) /\
  whereSQL users None empty_then_age [] =
    Ok ("WHERE  AND age = $1::int4", [JStr "5"], users) /\
  whereSQL users None age_is_5 [] = Ok ("WHERE age = $1::int4", [JStr "5"], users) /\
  makeQuery public users 20 0 (Some unknown_then_age) None None None =
    Ok (mkQueryReturn
          "SELECT * FROM public.users WHERE  AND age = $1::int4  LIMIT $2::integer OFFSET $3::integer"
          [JStr "5"; JStr "20"; JStr "0"] None (Some "WHERE  AND age = $1::int4"),
        users) /\
  makeMutationDelete public users unknown_then_age =
    Ok (mkMutationReturn
          "DELETE FROM public.users WHERE  AND age = $1::int4 RETURNING *"
          "WHERE  AND age = $1::int4" [JStr "5"],
        users).
Proof.
  split; [vm_compute; reflexivity|].
  split; [vm_compute; reflexivity|].
  split; [vm_compute; reflexivity|].
  split; vm_compute; reflexivity.
Qed.

(** ** The variable check of [makeQuery] *)

Lemma includes_In (xs : list string) (x : string) : includes xs x = true <-> In x xs.
Proof.
  unfold includes. rewrite List.existsb_exists. split.
  - intros [y [Hin Heq]]. apply String.eqb_eq in Heq. subst y. exact Hin.
  - intros Hin. exists x. split; [exact Hin|apply String.eqb_refl].
Qed.

Lemma forallb_false_exists {A : Type} (f : A -> bool) (xs : list A) :
  forallb f xs = false -> exists x, In x xs /\ f x = false.
Proof.
  induction xs as [|x xs IH]; simpl; intros H.
  - discriminate H.
  - destruct (f x) eqn:E.
    + destruct (IH H) as [y [Hin Hy]]. exists y. split; [right; exact Hin|exact Hy].
    + exists x. split; [left; reflexivity|exact E].
Qed.

Lemma makeQuery_rejected (schema : Schema.t) (table : Table.t) (limit offset : Z)
    (where_ : option WhereType) (variables : option ValueObject)
    (orderBy : option OrderByType) (cols : option (list string)) :
  forallb (includes (requiredVariables table)) (map fst (default [] variables)) = false ->
  makeQuery schema table limit offset where_ variables orderBy cols =
  Throw (missing_variable table).
Proof.
  intros H. unfold makeQuery. rewrite H. reflexivity.
Qed.

Lemma makeQuery_accepted (schema : Schema.t) (table : Table.t) (limit offset : Z)
    (where_ : option WhereType) (variables : option ValueObject)
    (orderBy : option OrderByType) (cols : option (list string)) :
  forallb (includes (requiredVariables table)) (map fst (default [] variables)) = true ->
  makeQuery schema table limit offset where_ variables orderBy cols <>
  Throw (missing_variable table).
Proof.
  intros H. unfold makeQuery. rewrite H. cbn [negb].
  match goal with
  | |- bind ?m ?k <> _ => destruct m as [[[whereQuery values] table']|e] eqn:E
  end.
  - discriminate.
  - destruct (has_branch where_); [|discriminate E].
    apply whereSQL_throws_only in E.
    cbn [bind]. intros He. injection He as ->. discriminate E.
Qed.

Lemma nullable_variable_not_required (table : Table.t) (v : TableVariable.t) :
  List.NoDup (map TableVariable.name (default [] (Table.variables table))) ->
  In v (default [] (Table.variables table)) ->
  TableVariable.nullable v = true ->
  ~ In (TableVariable.name v) (requiredVariables table).
Proof.
  unfold requiredVariables.
  destruct (Table.variables table) as [vars|]; simpl; [|tauto].
  intros Hnodup Hin Hnullable Hreq.
  apply List.in_map_iff in Hreq as [v' [Hname Hv']].
  apply List.filter_In in Hv' as [Hin' Hkeep].
  assert (v' = v) as ->.
  { clear Hkeep Hnullable.
    induction vars as [|u vars IH]; simpl in *; [contradiction|].
    inversion Hnodup as [|? ? Hfresh Hrest]; subst.
    destruct Hin as [->|Hin], Hin' as [->|Hin']; try reflexivity.
    - exfalso. apply Hfresh. rewrite <- Hname. apply List.in_map. exact Hin'.
    - exfalso. apply Hfresh. rewrite Hname. apply List.in_map. exact Hin.
    - apply IH; assumption. }
  rewrite Hnullable in Hkeep. discriminate Hkeep.
Qed.

(** C10: [makeQuery] throws its missing-variable error exactly when the
    supplied map has a key that is not the name of a non-nullable
    variable of a table with a [defaultWhere]; so, the declared variables
    having distinct names, it throws for every declared nullable variable
    that is supplied, whatever else is supplied, and never for an empty
    map or none. *)
Theorem makeQuery_throws_on_other_keys (schema : Schema.t) (table : Table.t)
    (limit offset : Z) (where_ : option WhereType) (variables : option ValueObject)
    (orderBy : option OrderByType) (cols : option (list string)) :
  (makeQuery schema table limit offset where_ variables orderBy cols =
     Throw (missing_variable table) <->
   exists k, In k (map fst (default [] variables)) /\ ~ In k (requiredVariables table)) /\
  (forall v x,
     List.NoDup (map TableVariable.name (default [] (Table.variables table))) ->
     In v (default [] (Table.variables table)) ->
     TableVariable.nullable v = true ->
     In (TableVariable.name v, x) (default [] variables) ->
     makeQuery schema table limit offset where_ variables orderBy cols =
       Throw (missing_variable table)) /\
  (default [] variables = [] ->
   makeQuery schema table limit offset where_ variables orderBy cols <>
     Throw (missing_variable table)).
Proof.
  assert (Hiff :
    makeQuery schema table limit offset where_ variables orderBy cols =
      Throw (missing_variable table) <->
    exists k, In k (map fst (default [] variables)) /\ ~ In k (requiredVariables table)).
  { destruct (forallb (includes (requiredVariables table))
                (map fst (default [] variables))) eqn:E.
    - split.
      + intros H. exfalso. revert H. apply makeQuery_accepted. exact E.
      + intros [k [Hin Hnot]]. exfalso. apply Hnot.
        rewrite List.forallb_forall in E. apply includes_In, E, Hin.
    - split.
      + intros _. destruct (forallb_false_exists _ _ E) as [k [Hin Hk]].
        exists k. split; [exact Hin|].
        intros Hreq. apply includes_In in Hreq. congruence.
      + intros _. apply makeQuery_rejected. exact E. }
  split; [exact Hiff|]. split.
  - intros v x Hnodup Hv Hnullable Hin. apply Hiff.
    exists (TableVariable.name v).
    split; [|exact (nullable_variable_not_required table v Hnodup Hv Hnullable)].
    apply (List.in_map fst) in Hin. exact Hin.
  - intros Hempty. apply makeQuery_accepted. rewrite Hempty. reflexivity.
Qed.

Lemma makeQuery_throws_on_other_keys_witness :
  makeQuery public docs 20 0 None (Some [("uid", JNum 7); ("lang", JStr "pt")]) None None =
    Throw (missing_variable docs) /\
  makeQuery public docs 20 0 None (Some []) None None <> Throw (missing_variable docs).
Proof.
  destruct (makeQuery_throws_on_other_keys public docs 20 0 None
              (Some [("uid", JNum 7); ("lang", JStr "pt")]) None None)
    as [_ [Hnullable _]].
  destruct (makeQuery_throws_on_other_keys public docs 20 0 None (Some []) None None)
    as [_ [_ Hempty]].
  split.
  - apply (Hnullable (TableVariable.mk "lang" TableVariable.string_ true) (JStr "pt")).
    + simpl. repeat constructor; simpl; intuition discriminate.
    + right. left. reflexivity.
    + reflexivity.
    + right. left. reflexivity.
  - apply Hempty. reflexivity.
Defined.

(** ** What does hold of the default filter and of the table *)

Lemma append_assoc (a b c : string) : (a +:+ b) +:+ c = a +:+ (b +:+ c).
Proof.
  induction a as [|x a IH]; [reflexivity|].
  change (String x ((a +:+ b) +:+ c) = String x (a +:+ (b +:+ c))).
  rewrite IH. reflexivity.
Qed.

(** With a [defaultWhere] the predicate starts with the parenthesised
    fragment compared with [TRUE], followed by [AND]. *)
Lemma whereSQL_defaultWhere_prefix (table : Table.t) (start : option nat)
    (where_ : WhereType) (values values' : list jsval) (sql : string) (table' : Table.t) :
  whereSQL table start where_ values = Ok (sql, values', table') ->
  truthy_str (Table.defaultWhere table') = true ->
  table' = rewrite_defaultWhere table start /\
  exists clauses,
    sql = "WHERE (" +:+ default "" (Table.defaultWhere table') +:+ ") = TRUE AND " +:+ clauses.
Proof.
  unfold whereSQL. intros H Htruthy.
  destruct (compile_branches table start where_ values) as [[[a o] vals]|e];
    simpl in H; [|discriminate H].
  injection H as <- <- <-.
  split; [reflexivity|].
  rewrite Htruthy. eexists.
  rewrite !append_assoc. reflexivity.
Qed.

(** A table without variables, or without a [defaultWhere], is returned
    as it was given. *)
Lemma whereSQL_keeps_plain_table (table : Table.t) (start : option nat)
    (where_ : WhereType) (values values' : list jsval) (sql : string) (table' : Table.t) :
  Table.variables table = None \/ truthy_str (Table.defaultWhere table) = false ->
  whereSQL table start where_ values = Ok (sql, values', table') ->
  table' = table.
Proof.
  unfold whereSQL. intros Hplain H.
  destruct (compile_branches table start where_ values) as [[[a o] vals]|e];
    simpl in H; [|discriminate H].
  injection H as <- <- <-.
  unfold rewrite_defaultWhere.
  destruct Hplain as [->| ->]; [reflexivity|].
  destruct (Table.variables table); reflexivity.
Qed.

(** ** The numbering of array conditions *)

Lemma imap_index_only_map {A B C : Type} (f : nat -> C) (g : A -> B) (xs : list A) :
  imap (fun i _ => f i) (map g xs) = imap (fun i _ => f i) xs.
Proof.
  revert f.
  induction xs as [|x xs IH]; intros f; [reflexivity|].
  cbn [map imap]. f_equal.
  exact (IH (fun i => f (S i))).
Qed.

(** X28.  The text of an array condition does not depend on what
    [values] already holds: its placeholders are always [$1] to [$n],
    and its values are appended to [values] as strings. *)
Lemma array_condition_text_ignores_values (c : ArrayCondition) (type : string)
    (values : list jsval) :
  mapCondition_array c type values =
  Ok (operators_array (a_condition c) +:+ " (" +:+
      join ("::" +:+ type +:+ ", ")
        (imap (fun i _ => "$" +:+ string_of_nat (i + 1)) (a_value c)) +:+
      "::" +:+ type +:+ ")",
      values ++ map (fun vv => JStr (String_ vv)) (a_value c)).
Proof.
  unfold mapCondition_array. cbv zeta.
  replace (length values + length (a_value c) - length values)
    with (length (a_value c)) by lia.
  rewrite List.skipn_app, List.skipn_all, Nat.sub_diag, List.skipn_O, List.app_nil_l.
  rewrite <- (List.length_map (fun vv => JStr (String_ vv)) (a_value c)) at 1.
  rewrite List.firstn_all.
  rewrite (imap_index_only_map (fun i => "$" +:+ string_of_nat (i + 1))).
  reflexivity.
Qed.

(** * Further properties of the builders *)

(** ** The statement of a select *)

Lemma nonempty_WHERE (rest : string) :
  nonempty ("WHERE " +:+ rest) = Some ("WHERE " +:+ rest).
Proof. reflexivity. Qed.

Lemma whereSQL_starts_with_WHERE (table : Table.t) (start : option nat)
    (where_ : WhereType) (values values' : list jsval) (sql : string) (table' : Table.t) :
  whereSQL table start where_ values = Ok (sql, values', table') ->
  exists rest, sql = "WHERE " +:+ rest.
Proof.
  unfold whereSQL. intros H.
  destruct (compile_branches table start where_ values) as [[[a o] vals]|e];
    simpl in H; [|discriminate H].
  injection H as <- _ _. eexists. reflexivity.
Qed.





(** ** The count statement of the read resolver *)

(** X2.  For every statement that the read resolver gets from
    [makeQuery], the count statement ends with the [whereQuery] of the
    select, [WHERE] and its predicate, and takes the parameters of the
    select but the last two, followed by the page size; the divisor
    placeholder [$k] is the last of these parameters, so it is bound to
    the page size. *)
Theorem pagesQuery_divides_by_page_size (schema : Schema.t) (table : Table.t)
    (page maxRows : Z) (where_ : option WhereType) (orderBy : option OrderByType)
    (q : QueryReturn) (table' : Table.t) :
  ReadResolver.readQuery schema table page maxRows where_ orderBy = Ok (q, table') ->
  exists before predicate,
    whereQuery q = Some ("WHERE " +:+ predicate) /\
    values q =
      before ++ [JStr (string_of_Z (ReadResolver.numberOfResults maxRows));
                 JStr (string_of_Z (ReadResolver.offset page maxRows))] /\
    ReadResolver.pagesQuery schema table maxRows q =
      ("SELECT (count(*) / $" +:+ string_of_nat (length before + 1) +:+
       ") as pages, count(*) as total_rows FROM " +:+ Schema.name schema +:+ "." +:+
       Table.name table +:+ " WHERE " +:+ predicate,
       before ++ [JNum (ReadResolver.numberOfResults maxRows)]) /\
    length (ReadResolver.pagesQuery schema table maxRows q).2 = length before + 1.
Proof.
  unfold ReadResolver.readQuery, makeQuery. intros H.
  destruct (negb (forallb _ _)); [discriminate H|].
  match type of H with
  | bind ?m _ = _ => destruct m as [[[wq vals] tb]|e] eqn:E
  end; [|discriminate H].
  cbn [bind] in H. injection H as <- <-.
  assert (Hwq : exists predicate, wq = "WHERE " +:+ predicate).
  { destruct (has_branch where_).
    - eapply whereSQL_starts_with_WHERE. exact E.
    - injection E as <- _ _. eexists. reflexivity. }
  destruct Hwq as [predicate ->].
  exists vals, predicate.
  unfold ReadResolver.pagesQuery. cbn [values query whereQuery].
  rewrite nonempty_WHERE. cbn [option_map].
  rewrite List.length_app. cbn [length].
  replace (length vals + 2 - 2) with (length vals + 0) by lia.
  replace (length vals + 2 - 1) with (length vals + 1) by lia.
  rewrite List.firstn_app_2. cbn [firstn]. rewrite List.app_nil_r.
  split; [reflexivity|]. split; [reflexivity|]. split; [reflexivity|].
  cbn [snd]. rewrite List.length_app. reflexivity.
Qed.

Lemma pagesQuery_divides_by_page_size_witness :
  ReadResolver.pagesQuery public users 500
    (mkQueryReturn
       "SELECT * FROM public.users WHERE name = $1::text  LIMIT $2::integer OFFSET $3::integer"
       [JStr "Ana"; JStr "100"; JStr "200"] None (Some "WHERE name = $1::text")) =
    ("SELECT (count(*) / $2) as pages, count(*) as total_rows FROM public.users WHERE name = $1::text",
     [JStr "Ana"; JNum 100]).
Proof.
  destruct (pagesQuery_divides_by_page_size public users 3 500 (Some title_is_name) None
              (mkQueryReturn
                 "SELECT * FROM public.users WHERE name = $1::text  LIMIT $2::integer OFFSET $3::integer"
                 [JStr "Ana"; JStr "100"; JStr "200"] None (Some "WHERE name = $1::text"))
              users)
    as [before [predicate [Hwhere [Hvalues [Hpages _]]]]].
  - vm_compute. reflexivity.
  - cbn [whereQuery] in Hwhere. injection Hwhere as Hwhere.
    change ("name = $1::text" = predicate) in Hwhere.
    subst predicate. cbn [values] in Hvalues.
    assert (Hbefore : before = [JStr "Ana"]).
    { apply (f_equal (@rev jsval)) in Hvalues. rewrite List.rev_app_distr in Hvalues.
      cbn [rev app] in Hvalues. injection Hvalues as Hrev.
      apply (f_equal (@rev jsval)) in Hrev. rewrite List.rev_involutive in Hrev.
      symmetry. exact Hrev. }
    rewrite Hpages, Hbefore. reflexivity.
Defined.

(** ** Paging *)

(** X3.  The page size handed to [makeQuery] is always between 1 and 100:
    a requested size in that range is kept, every other one becomes 100;
    and for every page from 1 on the offset is [(page - 1)] page sizes,
    never negative, while every negative page gets offset 0. *)
Theorem page_size_and_offset_bounds (page maxRows : Z) :
  (1 <= ReadResolver.numberOfResults maxRows <= 100)%Z /\
  ((1 <= maxRows <= 100)%Z -> ReadResolver.numberOfResults maxRows = maxRows) /\
  ((maxRows < 1 \/ 100 < maxRows)%Z -> ReadResolver.numberOfResults maxRows = 100%Z) /\
  ((1 <= page)%Z ->
   ReadResolver.offset page maxRows =
     ((page - 1) * ReadResolver.numberOfResults maxRows)%Z /\
   (0 <= ReadResolver.offset page maxRows)%Z) /\
  ((page < 0)%Z -> ReadResolver.offset page maxRows = 0%Z).
Proof.
  assert (Hsize : (1 <= ReadResolver.numberOfResults maxRows <= 100)%Z).
  { unfold ReadResolver.numberOfResults.
    destruct (Z.leb_spec maxRows 100), (Z.gtb_spec maxRows 0); simpl; lia. }
  split; [exact Hsize|].
  split; [|split; [|split]].
  - intros Hin. unfold ReadResolver.numberOfResults.
    destruct (Z.leb_spec maxRows 100), (Z.gtb_spec maxRows 0); simpl; lia.
  - intros Hout. unfold ReadResolver.numberOfResults.
    destruct (Z.leb_spec maxRows 100), (Z.gtb_spec maxRows 0); simpl; lia.
  - intros Hpage. unfold ReadResolver.offset, ReadResolver.pageNumber.
    destruct (Z.geb_spec page 0); [|lia].
    split; [reflexivity|]. apply Z.mul_nonneg_nonneg; lia.
  - intros Hpage. unfold ReadResolver.offset, ReadResolver.pageNumber.
    destruct (Z.geb_spec page 0); [lia|]. reflexivity.
Qed.

Lemma page_size_and_offset_bounds_witness :
  ReadResolver.numberOfResults 20 = 20%Z /\
  ReadResolver.numberOfResults 0 = 100%Z /\
  ReadResolver.offset 3 20 = ((3 - 1) * ReadResolver.numberOfResults 20)%Z /\
  ReadResolver.offset (-4) 20 = 0%Z.
Proof.
  split; [|split; [|split]].
  - apply (page_size_and_offset_bounds 3 20). lia.
  - apply (page_size_and_offset_bounds 3 0). lia.
  - apply (page_size_and_offset_bounds 3 20). lia.
  - apply (page_size_and_offset_bounds (-4) 20). lia.
Defined.

(** ** Ordering and projection of a select *)

Lemma length_leb_0 {A : Type} (xs : list A) : (length xs <=? 0) = true <-> xs = [].
Proof.
  destruct xs; simpl; split; intros H; try reflexivity; discriminate H.
Qed.

Lemma forallb_false_iff {A : Type} (f : A -> bool) (xs : list A) :
  forallb f xs = false <-> exists x, In x xs /\ f x = false.
Proof.
  split; [apply forallb_false_exists|].
  intros [x [Hin Hx]].
  destruct (forallb f xs) eqn:E; [|reflexivity].
  rewrite List.forallb_forall in E. rewrite (E x Hin) in Hx. discriminate Hx.
Qed.

Lemma direction_ok (d : option string) :
  match d with
  | Some d => (d =? "ASC")%string || (d =? "DESC")%string
  | None => false
  end = true <-> d = Some "ASC" \/ d = Some "DESC".
Proof.
  destruct d as [d|]; [|split; [discriminate|intros [H|H]; discriminate H]].
  rewrite orb_true_iff, !String.eqb_eq.
  split; intros [H|H]; [left|right|left|right]; congruence.
Qed.

(** X4.  The ordering clause is dropped as a whole, [orderBySQL] being the
    empty string, exactly when the ordering map is empty or one of its
    keys holds something else than [ASC] or [DESC]; otherwise it is
    [ORDER BY] followed by the pairs of key and direction in the order of
    the map, joined by commas. *)
Theorem orderBySQL_all_or_nothing (orderBy : OrderByType) :
  (orderBySQL orderBy = "" <->
   orderBy = [] \/
   exists k, In k (map fst orderBy) /\
             ~ (prop orderBy k = Some "ASC" \/ prop orderBy k = Some "DESC")) /\
  (orderBySQL orderBy <> "" ->
   orderBySQL orderBy =
     "ORDER BY " +:+
     join ", " (map (fun k => k +:+ " " +:+ default "undefined" (prop orderBy k))
                  (map fst orderBy)) /\
   forall k, In k (map fst orderBy) ->
             prop orderBy k = Some "ASC" \/ prop orderBy k = Some "DESC").
Proof.
  unfold orderBySQL. cbv zeta.
  set (ok := fun k => match prop orderBy k with
                      | Some d => (d =? "ASC")%string || (d =? "DESC")%string
                      | None => false
                      end).
  destruct (length (map fst orderBy) <=? 0) eqn:Elen.
  - apply length_leb_0 in Elen. apply List.map_eq_nil in Elen.
    cbn [orb]. split; [|intros H; contradiction H; reflexivity].
    split; [intros _; left; exact Elen|reflexivity].
  - cbn [orb].
    assert (Hne : orderBy <> []).
    { intros ->. discriminate Elen. }
    destruct (forallb ok (map fst orderBy)) eqn:Eall; cbn [negb].
    + rewrite List.forallb_forall in Eall.
      split.
      * split; [intros H; discriminate H|].
        intros [Hnil|[k [Hin Hbad]]]; [contradiction|].
        exfalso. apply Hbad. apply direction_ok. exact (Eall k Hin).
      * intros _. split; [reflexivity|].
        intros k Hin. apply direction_ok. exact (Eall k Hin).
    + split; [|intros H; contradiction H; reflexivity].
      split; [|reflexivity].
      intros _. right.
      apply forallb_false_iff in Eall as [k [Hin Hk]].
      exists k. split; [exact Hin|].
      intros Hok. apply direction_ok in Hok. unfold ok in Hk. congruence.
Qed.

Lemma orderBySQL_all_or_nothing_witness :
  orderBySQL [("name", "ASC"); ("age", "DESC")] =
    "ORDER BY " +:+
    join ", " (map (fun k => k +:+ " " +:+
                             default "undefined" (prop [("name", "ASC"); ("age", "DESC")] k))
                 (map fst [("name", "ASC"); ("age", "DESC")])) /\
  orderBySQL [("name", "ASC"); ("age", "down")] = "".
Proof.
  split.
  - apply (orderBySQL_all_or_nothing [("name", "ASC"); ("age", "DESC")]).
    vm_compute. discriminate.
  - apply (orderBySQL_all_or_nothing [("name", "ASC"); ("age", "down")]).
    right. exists "age". split; [right; left; reflexivity|].
    vm_compute. intros [H|H]; discriminate H.
Defined.

(** X5.  The projection of a select is the requested column list only
    when that list is given, not empty and made of columns of the table;
    a single unknown name makes the statement select [*]. *)
Theorem makeQuery_projection (schema : Schema.t) (table : Table.t)
    (limit offset : Z) (where_ : option WhereType) (variables : option ValueObject)
    (orderBy : option OrderByType) (cols : option (list string))
    (q : QueryReturn) (table' : Table.t) :
  makeQuery schema table limit offset where_ variables orderBy cols = Ok (q, table') ->
  exists rest,
    (default [] cols = [] \/
     (exists c, In c (default [] cols) /\ Table.find_column table c = None) ->
     query q = "SELECT * FROM " +:+ rest) /\
    (default [] cols <> [] ->
     (forall c, In c (default [] cols) -> Table.find_column table c <> None) ->
     query q = "SELECT " +:+ join ", " (default [] cols) +:+ " FROM " +:+ rest).
Proof.
  unfold makeQuery. intros H.
  destruct (negb (forallb _ _)); [discriminate H|].
  match type of H with
  | bind ?m _ = _ => destruct m as [[[wq vals] tb]|e] eqn:E
  end; [|discriminate H].
  cbn [bind] in H. injection H as <- <-. cbn [query].
  eexists. split.
  - intros Hstar.
    destruct cols as [cs|]; [|reflexivity]. cbn [from_option id] in Hstar.
    destruct Hstar as [->|[c [Hin Hc]]]; [reflexivity|].
    cbn beta iota.
    destruct (0 <? length cs); [|reflexivity]. cbn [andb].
    assert (Hall : forallb (fun c => defined (Table.find_column table c)) cs = false).
    { apply forallb_false_iff. exists c. split; [exact Hin|]. rewrite Hc. reflexivity. }
    rewrite Hall. reflexivity.
  - intros Hne Hknown.
    destruct cols as [cs|]; [|contradiction Hne; reflexivity]. cbn [from_option id] in *.
    destruct cs as [|c cs]; [contradiction Hne; reflexivity|].
    assert (Hall : forallb (fun c => defined (Table.find_column table c)) (c :: cs) = true).
    { apply List.forallb_forall. intros x Hx. specialize (Hknown x Hx).
      destruct (Table.find_column table x); [reflexivity|contradiction Hknown; reflexivity]. }
    cbn beta iota. rewrite Hall. reflexivity.
Qed.

Lemma makeQuery_projection_witness :
  exists rest,
    "SELECT * FROM public.users WHERE TRUE = TRUE  LIMIT $1::integer OFFSET $2::integer" =
      "SELECT * FROM " +:+ rest.
Proof.
  destruct (makeQuery_projection public users 20 0 None None None (Some ["name"; "nope"])
              (mkQueryReturn
                 "SELECT * FROM public.users WHERE TRUE = TRUE  LIMIT $1::integer OFFSET $2::integer"
                 [JStr "20"; JStr "0"] None (Some "WHERE TRUE = TRUE"))
              users) as [rest [Hstar _]].
  - vm_compute. reflexivity.
  - exists rest. apply Hstar. right. exists "nope".
    split; [right; left; reflexivity|reflexivity].
Defined.

(** ** A select without filter tree *)

(** X6.  When the request has no [AND] and no [OR] branch and every
    supplied variable is a required one, [makeQuery] throws nothing and
    leaves the table as it is; the predicate is [WHERE TRUE = TRUE], or
    the [defaultWhere] fragment as the table has it, its variable names
    not replaced, in parentheses and compared with [TRUE]; the parameters
    are the supplied variable values that are truthy, as strings, then
    [null] up to the number of declared variables, then limit and offset. *)
Theorem makeQuery_without_filter (schema : Schema.t) (table : Table.t)
    (limit offset : Z) (where_ : option WhereType) (variables : option ValueObject)
    (orderBy : option OrderByType) (cols : option (list string)) :
  has_branch where_ = false ->
  (forall k, In k (map fst (default [] variables)) -> In k (requiredVariables table)) ->
  exists q,
    makeQuery schema table limit offset where_ variables orderBy cols = Ok (q, table) /\
    whereQuery q =
      Some (if truthy_str (Table.defaultWhere table)
            then "WHERE (" +:+ default "" (Table.defaultWhere table) +:+ ") = TRUE"
            else "WHERE TRUE = TRUE") /\
    let supplied :=
      map (fun v => JStr (String_ v))
        (List.filter Boolean_ (map snd (default [] variables))) in
    values q =
      supplied ++
      repeat JNull (length (default [] (Table.variables table)) - length supplied) ++
      [JStr (string_of_Z limit); JStr (string_of_Z offset)].
Proof.
  intros Hbranch Hkeys. unfold makeQuery.
  assert (Hall : forallb (includes (requiredVariables table))
                   (map fst (default [] variables)) = true).
  { apply List.forallb_forall. intros k Hk. apply includes_In, Hkeys, Hk. }
  rewrite Hall, Hbranch. cbn [negb bind].
  eexists. split; [reflexivity|]. cbn [whereQuery values].
  split.
  - rewrite nonempty_WHERE.
    destruct (truthy_str (Table.defaultWhere table)); reflexivity.
  - cbv zeta.
    set (supplied := map (fun v => JStr (String_ v))
                       (List.filter Boolean_ (map snd (default [] variables)))).
    set (declared := length (default [] (Table.variables table))).
    destruct (Nat.ltb_spec (length supplied) declared) as [Hlt|Hge].
    + rewrite <- List.app_assoc. reflexivity.
    + replace (declared - length supplied) with 0 by lia. reflexivity.
Qed.

Lemma makeQuery_without_filter_witness :
  exists q,
    makeQuery public docs 20 0 None (Some [("uid", JNum 0)]) None None = Ok (q, docs) /\
    values q = [JNull; JNull; JStr "20"; JStr "0"].
Proof.
  destruct (makeQuery_without_filter public docs 20 0 None (Some [("uid", JNum 0)]) None None)
    as [q [Hrun [_ Hvalues]]].
  - reflexivity.
  - intros k [<-|[]]. left. reflexivity.
  - exists q. split; [exact Hrun|exact Hvalues].
Defined.

(** ** The columns of an update and of an insert *)

Lemma substitute_variables_fields (start : option nat) (vars : list TableVariable.t)
    (i : nat) (table : Table.t) :
  substitute_variables start vars i table =
  Table.set_defaultWhere table (Table.defaultWhere (substitute_variables start vars i table)).
Proof.
  revert i table.
  induction vars as [|v vars IH]; intros i table; cbn [substitute_variables].
  - destruct table. reflexivity.
  - rewrite IH at 1. reflexivity.
Qed.

Lemma rewrite_defaultWhere_fields (table : Table.t) (start : option nat) :
  rewrite_defaultWhere table start =
  Table.set_defaultWhere table (Table.defaultWhere (rewrite_defaultWhere table start)).
Proof.
  unfold rewrite_defaultWhere.
  destruct (Table.variables table) as [vars|]; [|destruct table; reflexivity].
  destruct (truthy_str (Table.defaultWhere table)); [|destruct table; reflexivity].
  apply substitute_variables_fields.
Qed.

Lemma whereSQL_fields (table : Table.t) (start : option nat) (where_ : WhereType)
    (values values' : list jsval) (sql : string) (table' : Table.t) :
  whereSQL table start where_ values = Ok (sql, values', table') ->
  table' = Table.set_defaultWhere table (Table.defaultWhere table').
Proof.
  unfold whereSQL. intros H.
  destruct (compile_branches table start where_ values) as [[[a o] vals]|e];
    simpl in H; [|discriminate H].
  injection H as _ _ <-. apply rewrite_defaultWhere_fields.
Qed.

Lemma In_omap_filter (allowed : list string) (keys : list string) (k : string) :
  In k (List.filter (fun k => negb (k =? "")%string)
          (omap (fun v => if includes allowed v then Some v else None) keys)) <->
  In k keys /\ k <> "" /\ In k allowed.
Proof.
  rewrite List.filter_In, negb_true_iff, String.eqb_neq.
  rewrite <- list_elem_of_In, list_elem_of_omap.
  split.
  - intros [[x [Hx Hsome]] Hne].
    destruct (includes allowed x) eqn:E; [|discriminate Hsome].
    injection Hsome as ->.
    split; [apply list_elem_of_In, Hx|]. split; [exact Hne|apply includes_In, E].
  - intros [Hin [Hne Hall]]. split; [|exact Hne].
    exists k. split; [apply list_elem_of_In, Hin|].
    apply includes_In in Hall. rewrite Hall. reflexivity.
Qed.

Lemma mutation_filter_name (table : Table.t) (where_ : WhereType)
    (values values' : list jsval) (sql : string) (table' : Table.t) :
  mutation_filter table where_ values = Ok (sql, values', table') ->
  Table.name table' = Table.name table.
Proof.
  unfold mutation_filter.
  destruct (defined (where_AND where_) || defined (where_OR where_)).
  - intros H. apply whereSQL_fields in H. rewrite H. reflexivity.
  - intros H. injection H as _ _ <-. reflexivity.
Qed.

Lemma update_keys_filter (table : Table.t) (value : ValueObject) :
  update_keys table value =
  List.filter
    (fun k => negb (k =? "")%string &&
              includes (default (map Column.name (Table.columns table)) (Table.cols table)) k)
    (map fst value).
Proof.
  unfold update_keys.
  induction (map fst value) as [|k ks IH]; [reflexivity|].
  cbn [omap list_omap List.filter].
  destruct (includes _ k); cbn [List.filter].
  - rewrite andb_true_r. destruct (negb (k =? "")%string); rewrite <- IH; reflexivity.
  - rewrite andb_false_r. exact IH.
Qed.

(** X7.  The statement of an update is [UPDATE s.t SET (keys) = ($m+1,
    ..., $m+n) <whereQuery> RETURNING *], where [keys] are the keys of
    the value object, in its order, that are not empty and are in the
    [cols] list of the table when it has one (even an empty one, which
    allows nothing), else among its column names, and [m] is the number
    of parameters of the filter; the parameters are those of the filter
    followed by one per key, the value under the key or [null]. *)
Theorem makeMutationUpdate_sets_allowed_columns (schema : Schema.t) (table : Table.t)
    (value : ValueObject) (where_ : WhereType) (r : MutationReturn) (table' : Table.t) :
  makeMutationUpdate schema table value where_ = Ok (r, table') ->
  let allowed := default (map Column.name (Table.columns table)) (Table.cols table) in
  let keys :=
    List.filter (fun k => negb (k =? "")%string && includes allowed k) (map fst value) in
  (forall k, In k keys <-> In k (map fst value) /\ k <> "" /\ In k allowed) /\
  (Table.cols table = Some [] -> keys = []) /\
  exists filter_values,
    mutation_filter table where_ [] = Ok (m_whereQuery r, filter_values, table') /\
    m_query r =
      "UPDATE " +:+ Schema.name schema +:+ "." +:+ Table.name table +:+
      " SET (" +:+ join ", " keys +:+ ") = (" +:+
      join ", "
        (imap (fun i _ => "$" +:+ string_of_nat (length filter_values + i + 1)) keys) +:+
      ") " +:+ m_whereQuery r +:+ " RETURNING *" /\
    m_values r = filter_values ++ map (fun k => default JNull (prop value k)) keys.
Proof.
  intros H allowed keys.
  assert (Hkeys : update_keys table value = keys) by apply update_keys_filter.
  split.
  { intros k. rewrite <- Hkeys. apply In_omap_filter. }
  split.
  { intros Hcols. unfold keys, allowed. rewrite Hcols. cbn [from_option id].
    generalize (map fst value). intros ks.
    induction ks as [|k ks IH]; [reflexivity|].
    cbn [List.filter includes existsb]. rewrite andb_false_r. exact IH. }
  unfold makeMutationUpdate in H. rewrite Hkeys in H.
  destruct (mutation_filter table where_ []) as [[[wq wvals] tb]|e] eqn:E; [|discriminate H].
  cbn [bind] in H. injection H as <- <-.
  exists wvals. split; [reflexivity|]. split; [|reflexivity].
  cbn [m_query m_whereQuery].
  rewrite (mutation_filter_name _ _ _ _ _ _ E).
  rewrite imap_index_only_map.
  rewrite (imap_ext _ (fun i _ => "$" +:+ string_of_nat (length wvals + i + 1)) keys);
    [reflexivity|].
  intros i k _. cbn beta. rewrite List.length_app, List.length_map.
  do 2 f_equal. lia.
Qed.

Lemma makeMutationUpdate_sets_allowed_columns_witness :
  exists filter_values,
    mutation_filter users title_is_name [] =
      Ok ("WHERE name = $1::text", filter_values, users) /\
    "UPDATE public.users SET (name, age) = ($2, $3) WHERE name = $1::text RETURNING *" =
      "UPDATE public.users SET (name, age) = (" +:+
      join ", " (imap (fun i _ => "$" +:+ string_of_nat (length filter_values + i + 1))
                   ["name"; "age"]) +:+
      ") WHERE name = $1::text RETURNING *" /\
    [JStr "Ana"; JStr "Bia"; JNum 30] = filter_values ++ [JStr "Bia"; JNum 30].
Proof.
  destruct (makeMutationUpdate_sets_allowed_columns public users
              [("name", JStr "Bia"); ("salary", JNum 9); ("age", JNum 30)]
              title_is_name
              (mkMutationReturn
                 "UPDATE public.users SET (name, age) = ($2, $3) WHERE name = $1::text RETURNING *"
                 "WHERE name = $1::text" [JStr "Ana"; JStr "Bia"; JNum 30])
              users) as [_ [_ [filter_values [Hfilter [Hquery Hvalues]]]]].
  - vm_compute. reflexivity.
  - exists filter_values. split; [exact Hfilter|]. split; [exact Hquery|exact Hvalues].
Defined.

(** X8.  An insert names a column exactly when the table has no [cols]
    list or an empty one, or the column is not nullable, or its name is
    in [cols]: the columns that need a value are always there, whatever
    the allow-list says. *)
Theorem create_keys_keep_required_columns (table : Table.t) (k : string) :
  In k (create_keys table) <->
  exists c, In c (Table.columns table) /\ Column.name c = k /\
            (default [] (Table.cols table) = [] \/
             Column.nullable c = false \/
             In k (default [] (Table.cols table))).
Proof.
  unfold create_keys. rewrite List.in_map_iff.
  split.
  - intros [c [Hname Hc]]. apply List.filter_In in Hc as [Hin Hkeep].
    exists c. split; [exact Hin|]. split; [exact Hname|].
    destruct (Table.cols table) as [[|x cs]|]; [left; reflexivity| |left; reflexivity].
    right. cbn [from_option id length Nat.ltb Nat.leb] in *.
    apply orb_true_iff in Hkeep as [Hreq|Hcols].
    + left. apply negb_true_iff. exact Hreq.
    + right. rewrite <- Hname. apply includes_In. exact Hcols.
  - intros [c [Hin [Hname Hwhy]]].
    exists c. split; [exact Hname|]. apply List.filter_In. split; [exact Hin|].
    destruct (Table.cols table) as [[|x cs]|]; [reflexivity| |reflexivity].
    cbn [from_option id length Nat.ltb Nat.leb] in *.
    destruct Hwhy as [Hnil|[Hreq|Hcols]]; [discriminate Hnil| |].
    + rewrite Hreq. reflexivity.
    + apply orb_true_iff. right. rewrite Hname. apply includes_In. exact Hcols.
Qed.

(** ** The variable check and the statement of an insert *)

Lemma inner_check_Ok (name : string) (vas : list ValueObject) :
  fold_right
    (fun va rest' =>
       if negb (match prop va name with
                | Some x => Boolean_ x
                | None => false
                end)
       then Throw ("Variable " +:+ name +:+ " is required")
       else rest')
    (Ok tt) vas = Ok tt <->
  forall va, In va vas -> exists x, prop va name = Some x /\ Boolean_ x = true.
Proof.
  induction vas as [|va vas IH]; cbn [fold_right].
  - split; [intros _ va []|reflexivity].
  - destruct (prop va name) as [x|] eqn:Ex.
    + destruct (Boolean_ x) eqn:Eb; cbn [negb].
      * rewrite IH. split.
        -- intros Hall va' [<-|Hin]; [exists x; split; [exact Ex|exact Eb]|apply Hall, Hin].
        -- intros Hall va' Hin. apply Hall. right. exact Hin.
      * split; [discriminate|].
        intros Hall. destruct (Hall va (or_introl eq_refl)) as [y [Hy Hb]]. congruence.
    + cbn [negb]. split; [discriminate|].
      intros Hall. destruct (Hall va (or_introl eq_refl)) as [y [Hy _]]. congruence.
Qed.

Lemma inner_check_result (name : string) (vas : list ValueObject) :
  fold_right
    (fun va rest' =>
       if negb (match prop va name with
                | Some x => Boolean_ x
                | None => false
                end)
       then Throw ("Variable " +:+ name +:+ " is required")
       else rest')
    (Ok tt) vas = Ok tt \/
  fold_right
    (fun va rest' =>
       if negb (match prop va name with
                | Some x => Boolean_ x
                | None => false
                end)
       then Throw ("Variable " +:+ name +:+ " is required")
       else rest')
    (Ok tt) vas = Throw ("Variable " +:+ name +:+ " is required").
Proof.
  induction vas as [|va vas IH]; cbn [fold_right]; [left; reflexivity|].
  destruct (negb _); [right; reflexivity|exact IH].
Qed.

(** X9.  The variable check of an insert passes exactly when every
    supplied variables object holds a truthy value under the name of
    every non-nullable variable of a table with a [defaultWhere]: it
    passes when no object is supplied, whatever the table requires, and
    it fails with [Variable <name> is required], [<name>] being a required
    variable, when an object lacks the name or holds 0, [false], the empty
    string or [null] under it. *)
Theorem check_required_passes_iff (table : Table.t) (variables : option (list ValueObject)) :
  (check_required table variables = Ok tt <->
   forall v va,
     In v (default [] (Table.variables table)) ->
     TableVariable.nullable v = false ->
     truthy_str (Table.defaultWhere table) = true ->
     In va (default [] variables) ->
     exists x, prop va (TableVariable.name v) = Some x /\ Boolean_ x = true) /\
  (default [] variables = [] -> check_required table variables = Ok tt) /\
  (check_required table variables <> Ok tt ->
   exists v,
     In v (default [] (Table.variables table)) /\ TableVariable.nullable v = false /\
     check_required table variables =
       Throw ("Variable " +:+ TableVariable.name v +:+ " is required")).
Proof.
  unfold check_required. cbv zeta.
  set (keep := fun v => negb (TableVariable.nullable v) && truthy_str (Table.defaultWhere table)).
  assert (Hkeep : forall v, keep v = true <->
            TableVariable.nullable v = false /\ truthy_str (Table.defaultWhere table) = true).
  { intros v. unfold keep. rewrite andb_true_iff, negb_true_iff. reflexivity. }
  generalize (default [] (Table.variables table)) as vars.
  intros vars.
  assert (Hiff :
    fold_right
      (fun v rest =>
         bind
           (fold_right
              (fun va rest' =>
                 if negb (match prop va (TableVariable.name v) with
                          | Some x => Boolean_ x
                          | None => false
                          end)
                 then Throw ("Variable " +:+ TableVariable.name v +:+ " is required")
                 else rest')
              (Ok tt) (default [] variables))
           (fun _ => rest))
      (Ok tt) (List.filter keep vars) = Ok tt <->
    forall v va, In v vars ->
      TableVariable.nullable v = false ->
      truthy_str (Table.defaultWhere table) = true ->
      In va (default [] variables) ->
      exists x, prop va (TableVariable.name v) = Some x /\ Boolean_ x = true).
  { induction vars as [|v vars IH]; cbn [List.filter fold_right].
    - split; [intros _ v va []|reflexivity].
    - destruct (keep v) eqn:Ek; cbn [fold_right].
      + apply Hkeep in Ek as [Hnull Hdw].
        destruct (inner_check_result (TableVariable.name v) (default [] variables))
          as [Hok|Hthrow].
        * rewrite Hok. cbn [bind]. rewrite IH.
          pose proof (proj1 (inner_check_Ok _ _) Hok) as Hok'.
          split.
          -- intros Hall v' va [<-|Hin] Hn Hd Hva; [apply Hok', Hva|].
             exact (Hall v' va Hin Hn Hd Hva).
          -- intros Hall v' va Hin. apply Hall. right. exact Hin.
        * rewrite Hthrow. cbn [bind]. split; [discriminate|].
          intros Hall.
          assert (Hok : forall va, In va (default [] variables) ->
                    exists x, prop va (TableVariable.name v) = Some x /\ Boolean_ x = true).
          { intros va Hva. exact (Hall v va (or_introl eq_refl) Hnull Hdw Hva). }
          pose proof (proj2 (inner_check_Ok _ _) Hok) as Hok'. congruence.
      + rewrite IH. split.
        * intros Hall v' va [<-|Hin] Hn Hd Hva.
          -- assert (keep v = true) by (apply Hkeep; split; assumption). congruence.
          -- exact (Hall v' va Hin Hn Hd Hva).
        * intros Hall v' va Hin. apply Hall. right. exact Hin. }
  split; [exact Hiff|]. split.
  - intros Hnone. apply Hiff. intros v va _ _ _ Hva. rewrite Hnone in Hva. destruct Hva.
  - clear Hiff. induction vars as [|v vars IH]; cbn [List.filter fold_right].
    + intros H. contradiction H. reflexivity.
    + destruct (keep v) eqn:Ek; cbn [fold_right].
      * destruct (inner_check_result (TableVariable.name v) (default [] variables))
          as [Hok|Hthrow].
        -- rewrite Hok. cbn [bind]. intros H.
           destruct (IH H) as [v' [Hin [Hn Hthrow]]].
           exists v'. split; [right; exact Hin|]. split; [exact Hn|exact Hthrow].
        -- rewrite Hthrow. cbn [bind]. intros _.
           exists v. split; [left; reflexivity|].
           split; [apply Hkeep, Ek|reflexivity].
      * intros H. destruct (IH H) as [v' [Hin [Hn Hthrow]]].
        exists v'. split; [right; exact Hin|]. split; [exact Hn|exact Hthrow].
Qed.

Lemma check_required_passes_iff_witness :
  check_required docs None = Ok tt /\
  exists v,
    In v (default [] (Table.variables docs)) /\ TableVariable.nullable v = false /\
    check_required docs (Some [[("uid", JStr "")]]) =
      Throw ("Variable " +:+ TableVariable.name v +:+ " is required").
Proof.
  split.
  - apply (proj1 (proj2 (check_required_passes_iff docs None))). reflexivity.
  - apply (proj2 (proj2 (check_required_passes_iff docs (Some [[("uid", JStr "")]])))).
    vm_compute. discriminate.
Defined.

Lemma rows_placeholders_of_rows (nkeys : nat) (wrap : string -> string)
    (rows : list (list jsval)) (multiplier : nat) :
  rows_placeholders nkeys multiplier wrap (map Row rows) =
  Ok (imap (fun i cells =>
              wrap (join ", "
                      (imap (fun j _ => "$" +:+ string_of_nat (nkeys * (multiplier + i) + (j + 1)))
                         cells)))
        rows).
Proof.
  revert multiplier.
  induction rows as [|cells rows IH]; intros multiplier; [reflexivity|].
  cbn [map rows_placeholders row_placeholders bind imap].
  rewrite IH. cbn [bind].
  rewrite Nat.add_0_r. do 2 f_equal.
  apply imap_ext. intros i x _. cbn [compose].
  replace (S multiplier + i) with (multiplier + S i) by lia. reflexivity.
Qed.

Lemma check_required_no_variables (table : Table.t) (variables : option (list ValueObject)) :
  default [] variables = [] -> check_required table variables = Ok tt.
Proof.
  intros Hnone. unfold check_required. rewrite Hnone. cbv zeta.
  induction (List.filter _ _) as [|v vars IH]; [reflexivity|].
  cbn [fold_right bind]. exact IH.
Qed.

Lemma push_no_variables (finalValues : list FinalValue) (table : Table.t) (i : nat) :
  push_variables [] i finalValues table = (finalValues, table).
Proof. reflexivity. Qed.

Lemma flat_rows (rows : list (list jsval)) :
  flat (map Row rows) = concat (map (map Scalar) rows).
Proof.
  unfold flat. rewrite List.map_map. reflexivity.
Qed.

(** X10.  An insert into a table without [defaultWhere], called without
    variables objects (as the resolver calls it), throws nothing and
    leaves the table as it is; its statement is [INSERT INTO s.t(keys)
    VALUES (...), (...) RETURNING *] with one parenthesised group per
    value object, the placeholder of column [j] of object [i] (both from
    0) being [$(i * keys + j + 1)]; its parameters are, object after
    object, the value under each key or [null], so there are as many as
    objects times keys. *)
Theorem makeMutationCreate_values_form (schema : Schema.t) (table : Table.t)
    (values : list ValueObject) (variables : option (list ValueObject)) :
  truthy_str (Table.defaultWhere table) = false ->
  default [] variables = [] ->
  let keys := create_keys table in
  exists c,
    makeMutationCreate schema table values variables = Ok (c, table) /\
    c_query c =
      "INSERT INTO " +:+ Schema.name schema +:+ "." +:+ Table.name table +:+
      "(" +:+ join ", " keys +:+ ") VALUES " +:+
      join ", "
        (imap (fun i _ =>
                 "(" +:+
                 join ", "
                   (imap (fun j _ => "$" +:+ string_of_nat (length keys * i + (j + 1))) keys) +:+
                 ")")
           values) +:+
      " RETURNING *" /\
    c_values c =
      concat (map (fun v => map (fun k => Scalar (default JNull (prop v k))) keys) values) /\
    length (c_values c) = length values * length keys.
Proof.
  intros Hdw Hnone keys. unfold makeMutationCreate.
  rewrite (check_required_no_variables table variables Hnone).
  cbn [bind]. rewrite Hnone, push_no_variables, Hdw.
  fold keys.
  rewrite <- (List.map_map (fun v => map (fun k => default JNull (prop v k)) keys) Row).
  rewrite rows_placeholders_of_rows. cbn [bind].
  rewrite imap_fmap.
  rewrite (imap_ext _
             (fun i (_ : ValueObject) =>
                "(" +:+
                join ", "
                  (imap (fun j _ => "$" +:+ string_of_nat (length keys * i + (j + 1))) keys) +:+
                ")") values).
  2:{ intros i v _. cbn [compose Nat.add].
      rewrite (imap_index_only_map
                 (fun j => "$" +:+ string_of_nat (length keys * i + (j + 1)))).
      reflexivity. }
  eexists. split; [reflexivity|]. cbn [c_query c_values].
  split; [|split].
  - rewrite !append_assoc. reflexivity.
  - rewrite flat_rows, List.map_map.
    f_equal. apply List.map_ext. intros v. apply List.map_map.
  - rewrite flat_rows, List.map_map.
    induction values as [|v values IH]; [reflexivity|].
    cbn [map concat]. rewrite List.length_app, IH, !List.length_map. reflexivity.
Qed.

Lemma makeMutationCreate_values_form_witness :
  exists c,
    makeMutationCreate public users
      [[("id", JNum 1); ("name", JStr "Ana")]; [("id", JNum 2)]] None = Ok (c, users) /\
    c_query c =
      "INSERT INTO public.users(id, name, email, age) VALUES ($1, $2, $3, $4), ($5, $6, $7, $8) RETURNING *" /\
    length (c_values c) = 8.
Proof.
  destruct (makeMutationCreate_values_form public users
              [[("id", JNum 1); ("name", JStr "Ana")]; [("id", JNum 2)]] None
              eq_refl eq_refl) as [c [Hrun [Hquery [_ Hlength]]]].
  exists c. split; [exact Hrun|]. split; [|exact Hlength].
  rewrite Hquery. vm_compute. reflexivity.
Defined.

(** ** What a compilation changes in the table *)

Lemma push_variables_fields (variables : list ValueObject) (i : nat)
    (finalValues : list FinalValue) (table : Table.t) :
  (push_variables variables i finalValues table).2 =
  Table.set_defaultWhere table
    (Table.defaultWhere (push_variables variables i finalValues table).2).
Proof.
  revert i finalValues table.
  induction variables as [|v variables IH]; intros i finalValues table;
    cbn [push_variables].
  - destruct table. reflexivity.
  - rewrite IH at 1. reflexivity.
Qed.

(** X11.  The table that a builder leaves behind differs from the table
    it was given in [defaultWhere] at most: name, columns, operations,
    kind, variables and [cols] are never changed by a select, an update, a
    delete or an insert; and a select, update or delete leaves the whole
    table unchanged when the table declares no variables or has no
    [defaultWhere]. *)
Theorem builders_change_defaultWhere_only (schema : Schema.t) (table table' : Table.t) :
  (forall limit offset where_ variables orderBy cols q,
     makeQuery schema table limit offset where_ variables orderBy cols = Ok (q, table') ->
     table' = Table.set_defaultWhere table (Table.defaultWhere table') /\
     (Table.variables table = None \/ truthy_str (Table.defaultWhere table) = false ->
      table' = table)) /\
  (forall value where_ r,
     makeMutationUpdate schema table value where_ = Ok (r, table') ->
     table' = Table.set_defaultWhere table (Table.defaultWhere table') /\
     (Table.variables table = None \/ truthy_str (Table.defaultWhere table) = false ->
      table' = table)) /\
  (forall where_ r,
     makeMutationDelete schema table where_ = Ok (r, table') ->
     table' = Table.set_defaultWhere table (Table.defaultWhere table') /\
     (Table.variables table = None \/ truthy_str (Table.defaultWhere table) = false ->
      table' = table)) /\
  (forall values variables c,
     makeMutationCreate schema table values variables = Ok (c, table') ->
     table' = Table.set_defaultWhere table (Table.defaultWhere table')).
Proof.
  assert (Hsame : forall t : Table.t, t = Table.set_defaultWhere t (Table.defaultWhere t)).
  { intros t. destruct t. reflexivity. }
  assert (Hfilter : forall where_ values sql values',
            mutation_filter table where_ values = Ok (sql, values', table') ->
            table' = Table.set_defaultWhere table (Table.defaultWhere table') /\
            (Table.variables table = None \/ truthy_str (Table.defaultWhere table) = false ->
             table' = table)).
  { intros where_ values sql values'. unfold mutation_filter.
    destruct (defined (where_AND where_) || defined (where_OR where_)).
    - intros H. split; [eapply whereSQL_fields, H|].
      intros Hplain. eapply whereSQL_keeps_plain_table; [exact Hplain|exact H].
    - intros H. injection H as _ _ <-. split; [apply Hsame|reflexivity]. }
  split; [|split; [|split]].
  - intros limit offset where_ variables orderBy cols q. unfold makeQuery.
    destruct (negb (forallb _ _)); [discriminate|].
    match goal with
    | |- bind ?m _ = _ -> _ => destruct m as [[[wq vals] tb]|e] eqn:E
    end; [|discriminate].
    cbn [bind]. intros H. injection H as _ <-.
    destruct (has_branch where_).
    + split; [eapply whereSQL_fields, E|].
      intros Hplain. eapply whereSQL_keeps_plain_table; [exact Hplain|exact E].
    + injection E as _ _ <-. split; [apply Hsame|reflexivity].
  - intros value where_ r. unfold makeMutationUpdate.
    destruct (mutation_filter table where_ []) as [[[wq vals] tb]|e] eqn:E; [|discriminate].
    cbn [bind]. intros H. injection H as _ <-. eapply Hfilter, E.
  - intros where_ r. unfold makeMutationDelete.
    destruct (mutation_filter table where_ []) as [[[wq vals] tb]|e] eqn:E; [|discriminate].
    cbn [bind]. intros H. injection H as _ <-. eapply Hfilter, E.
  - intros values variables c. unfold makeMutationCreate.
    destruct (check_required table variables); [|discriminate].
    cbn [bind].
    pose proof (push_variables_fields (default [] variables) 0
                  (map (fun v => Row (map (fun k => default JNull (prop v k)) (create_keys table)))
                     values) table) as Hpush.
    destruct (push_variables _ _ _ _) as [finalValues tb]. cbn [snd] in Hpush.
    match goal with
    | |- bind ?m _ = _ -> _ => destruct m as [stringValues|e]
    end; [|discriminate].
    cbn [bind]. intros H. injection H as _ <-. exact Hpush.
Qed.

Lemma builders_change_defaultWhere_only_witness :
  exists r,
    makeMutationDelete public users unknown_then_age = Ok (r, users) /\
    users = Table.set_defaultWhere users (Table.defaultWhere users).
Proof.
  exists (mkMutationReturn "DELETE FROM public.users WHERE  AND age = $1::int4 RETURNING *"
            "WHERE  AND age = $1::int4" [JStr "5"]).
  assert (Hrun : makeMutationDelete public users unknown_then_age =
                 Ok (mkMutationReturn
                       "DELETE FROM public.users WHERE  AND age = $1::int4 RETURNING *"
                       "WHERE  AND age = $1::int4" [JStr "5"], users)).
  { vm_compute. reflexivity. }
  split; [exact Hrun|].
  destruct (builders_change_defaultWhere_only public users users) as [_ [_ [Hdelete _]]].
  exact (proj1 (Hdelete _ _ Hrun)).
Defined.

(** ** Requests with and without [null] *)

Lemma mapWhere_null_property (table : Table.t) (start : option nat) (k : string)
    (type : Connective) (values : list jsval) :
  mapWhere table start (Obj [(k, Null)]) type values =
  if includes ["AND"; "OR"] k
  then Throw "TypeError: Cannot read properties of null (reading 'map')"
  else if defined (Table.find_column table k)
       then Throw "TypeError: Cannot read properties of null (reading 'SINGLE')"
       else Ok ("", values).
Proof.
  cbn [mapWhere forEachM]. unfold mbind, scan_step. cbn [fst snd].
  destruct (includes ["AND"; "OR"] k); [reflexivity|].
  destruct (Table.find_column table k); reflexivity.
Qed.

(** X12.  On a condition tree without [null], in which every [AND] and
    [OR] property holds a list, an update and a delete always return a
    statement, and a select returns one unless it throws its
    missing-variable error.  The input types allow more: a request that
    gives [null] under the name of a column, or under [AND] or [OR]
    inside a condition object, makes the builders throw a [TypeError],
    while a [null] under any other key is not read. *)
Theorem builders_return_on_shaped_requests (schema : Schema.t) (table : Table.t)
    (where_ : WhereType) :
  (well_shaped_where where_ = true ->
   (forall value,
      exists r table', makeMutationUpdate schema table value where_ = Ok (r, table')) /\
   (exists r table', makeMutationDelete schema table where_ = Ok (r, table')) /\
   (forall limit offset variables orderBy cols,
      (exists q table',
         makeQuery schema table limit offset (Some where_) variables orderBy cols =
           Ok (q, table')) \/
      makeQuery schema table limit offset (Some where_) variables orderBy cols =
        Throw (missing_variable table))) /\
  (forall k rest,
     where_AND where_ = Some (Obj [(k, Null)] :: rest) ->
     makeMutationDelete schema table where_ =
       if includes ["AND"; "OR"] k
       then Throw "TypeError: Cannot read properties of null (reading 'map')"
       else if defined (Table.find_column table k)
            then Throw "TypeError: Cannot read properties of null (reading 'SINGLE')"
            else makeMutationDelete schema table (mkWhere (Some (Obj [] :: rest)) (where_OR where_))).
Proof.
  split.
  - intros Hshape.
    assert (Hfilter : forall values, exists sql values' table',
              mutation_filter table where_ values = Ok (sql, values', table')).
    { intros values. unfold mutation_filter.
      destruct (defined (where_AND where_) || defined (where_OR where_)).
      - destruct (whereSQL_returns table None where_ values Hshape) as [[[sql values'] tb] H].
        exists sql, values', tb. exact H.
      - eexists. eexists. eexists. reflexivity. }
    split; [|split].
    + intros value. unfold makeMutationUpdate.
      destruct (Hfilter []) as [sql [values' [tb ->]]]. cbn [bind].
      eexists. eexists. reflexivity.
    + unfold makeMutationDelete.
      destruct (Hfilter []) as [sql [values' [tb ->]]]. cbn [bind].
      eexists. eexists. reflexivity.
    + intros limit offset variables orderBy cols. unfold makeQuery.
      destruct (negb (forallb _ _)); [right; reflexivity|left].
      destruct (has_branch (Some where_)).
      * cbn [from_option id].
        match goal with
        | |- context [whereSQL table None where_ ?vals] =>
            destruct (whereSQL_returns table None where_ vals Hshape) as [[[sql values'] tb] ->]
        end.
        cbn [bind]. eexists. eexists. reflexivity.
      * cbn [bind]. eexists. eexists. reflexivity.
  - intros k rest Hand. destruct where_ as [a o]. cbn [where_AND where_OR] in *. subst a.
    unfold makeMutationDelete, mutation_filter, whereSQL, compile_branches.
    cbn [where_AND where_OR defined orb compile_branch mapM]. unfold mbind at 1 2 3.
    rewrite mapWhere_null_property.
    destruct (includes ["AND"; "OR"] k); [reflexivity|].
    destruct (defined (Table.find_column table k)); reflexivity.
Qed.

Lemma builders_return_on_shaped_requests_witness :
  (exists r table', makeMutationDelete public docs name_and_ages = Ok (r, table')) /\
  makeMutationDelete public users (mkWhere (Some [Obj [("name", Null)]]) None) =
    Throw "TypeError: Cannot read properties of null (reading 'SINGLE')".
Proof.
  split.
  - destruct (builders_return_on_shaped_requests public docs name_and_ages)
      as [Hreturns _].
    destruct (Hreturns eq_refl) as [_ [Hdelete _]]. exact Hdelete.
  - destruct (builders_return_on_shaped_requests public users
                (mkWhere (Some [Obj [("name", Null)]]) None)) as [_ Hnull].
    exact (Hnull "name" [] eq_refl).
Defined.

(** ** Scalar conditions *)

Lemma append_nonempty (a b : string) (c : ascii) : (a +:+ String c b =? "")%string = false.
Proof. destruct a; reflexivity. Qed.

Lemma filter_truthy_conditions (conds : list string) :
  Forall (fun s => (s =? "")%string = false) conds ->
  filter_truthy (map Some conds ++ [parenthesised None; parenthesised None]) = conds.
Proof.
  unfold filter_truthy.
  induction 1 as [|s conds Hs _ IH]; [reflexivity|].
  cbn [map app omap list_omap]. cbn beta iota. rewrite Hs.
  f_equal. exact IH.
Qed.

Lemma Forall_imap_all {A B : Type} (P : B -> Prop) (f : nat -> A -> B) (xs : list A) :
  (forall i x, P (f i x)) -> Forall P (imap f xs).
Proof.
  revert f.
  induction xs as [|x xs IH]; intros f Hf; cbn [imap]; constructor.
  - apply Hf.
  - apply IH. intros i y. apply Hf.
Qed.

(** A condition object made of scalar conditions with a value, one per
    leaf [(column, operator, value)]. *)
Lemma scalar_leaves_scanned (table : Table.t) (start : option nat)
    (type : Connective) (leaves : list (Column.t * SingleConditions * jsval))
    (sc : Scan) (values : list jsval) :
  Forall (fun l => includes ["AND"; "OR"] (Column.name l.1.1) = false /\
                   Table.find_column table (Column.name l.1.1) = Some l.1.1) leaves ->
  forEachM (scan_step table (mapWhere table start) type)
    (map (fun l => (Column.name l.1.1, Cond (mkLeaf (Some (mkSingle l.1.2 (Some l.2))) None)))
       leaves) sc values =
  Ok (mkScan
        (conditions sc ++
         map (fun l => (l.1.1, mkLeaf (Some (mkSingle l.1.2 (Some l.2))) None)) leaves)
        (subAND sc) (subOR sc),
      values).
Proof.
  intros Hleaves. revert sc.
  induction Hleaves as [|l leaves [Hkey Hcol] _ IH]; intros sc.
  - cbn [map forEachM]. rewrite List.app_nil_r. destruct sc. reflexivity.
  - cbn [map forEachM]. unfold mbind at 1.
    unfold scan_step at 1. cbn [fst snd]. rewrite Hkey, Hcol.
    cbn [single_or_array SINGLE usable s_value ret].
    rewrite IH. cbn [conditions subAND subOR].
    rewrite <- List.app_assoc. reflexivity.
Qed.

Lemma scalar_conditions_compiled (start : option nat)
    (leaves : list (Column.t * SingleConditions * jsval)) (values : list jsval) :
  mapM (condition_sql start)
    (map (fun l => (l.1.1, mkLeaf (Some (mkSingle l.1.2 (Some l.2))) None)) leaves) values =
  Ok (imap (fun i l =>
              Column.name l.1.1 +:+ " " +:+ operators_single l.1.2 +:+ " $" +:+
              string_of_nat (length values + i + 1 + default 0 start) +:+ "::" +:+
              Column.type l.1.1)
        leaves,
      values ++ map (fun l => JStr (String_ l.2)) leaves).
Proof.
  revert values.
  induction leaves as [|l leaves IH]; intros values.
  - cbn [map mapM imap]. rewrite List.app_nil_r. reflexivity.
  - cbn [map mapM imap]. unfold mbind at 1.
    unfold condition_sql at 1. cbn [fst snd single_or_array SINGLE].
    unfold mbind at 1.
    cbn [mapCondition mapCondition_single s_value s_condition ret].
    unfold mbind at 1. rewrite IH. unfold ret.
    rewrite List.length_app. cbn [length].
    rewrite <- List.app_assoc. cbn [app].
    rewrite Nat.add_0_r.
    rewrite (imap_ext
               (fun i l =>
                  Column.name l.1.1 +:+ " " +:+ operators_single l.1.2 +:+ " $" +:+
                  string_of_nat (length values + 1 + i + 1 + default 0 start) +:+ "::" +:+
                  Column.type l.1.1)
               ((fun i l =>
                   Column.name l.1.1 +:+ " " +:+ operators_single l.1.2 +:+ " $" +:+
                   string_of_nat (length values + i + 1 + default 0 start) +:+ "::" +:+
                   Column.type l.1.1) ∘ S) leaves).
    + reflexivity.
    + intros i x _. cbn [compose].
      replace (length values + 1 + i + 1) with (length values + S i + 1) by lia.
      reflexivity.
Qed.

Lemma mapWhere_scalar_object (table : Table.t) (start : option nat)
    (type : Connective) (leaves : list (Column.t * SingleConditions * jsval))
    (values : list jsval) :
  Forall (fun l => includes ["AND"; "OR"] (Column.name l.1.1) = false /\
                   Table.find_column table (Column.name l.1.1) = Some l.1.1) leaves ->
  mapWhere table start
    (Obj (map (fun l =>
                 (Column.name l.1.1,
                  Cond (mkLeaf (Some (mkSingle l.1.2 (Some l.2))) None)))
            leaves))
    type values =
  Ok (join (" " +:+ keyword type +:+ " ")
        (imap (fun i l =>
                 Column.name l.1.1 +:+ " " +:+ operators_single l.1.2 +:+ " $" +:+
                 string_of_nat (length values + i + 1 + default 0 start) +:+ "::" +:+
                 Column.type l.1.1)
           leaves),
      values ++ map (fun l => JStr (String_ l.2)) leaves).
Proof.
  intros Hleaves. cbn [mapWhere]. unfold mbind.
  rewrite (scalar_leaves_scanned table start type leaves (mkScan [] None None) values Hleaves).
  cbn [conditions subAND subOR app].
  unfold assemble, mbind. cbn [conditions subAND subOR].
  rewrite scalar_conditions_compiled. unfold ret.
  rewrite filter_truthy_conditions; [reflexivity|].
  apply Forall_imap_all. intros i l. apply append_nonempty.
Qed.

(** X13.  For a filter whose [AND] list is one object of scalar
    conditions on columns of the table, each with a value, the predicate
    lists the conditions in the order of the object, joined by [AND]; the
    values are appended to the parameters in that order, as strings, and
    the placeholder of the condition at position [i] (from 0) is the
    1-based position of its value among the parameters, [values.length +
    i + 1], plus the start index when one is given. *)
Theorem scalar_conditions_are_numbered_by_position (table : Table.t)
    (start : option nat) (leaves : list (Column.t * SingleConditions * jsval))
    (values : list jsval) :
  Forall (fun l => includes ["AND"; "OR"] (Column.name l.1.1) = false /\
                   Table.find_column table (Column.name l.1.1) = Some l.1.1) leaves ->
  whereSQL table start
    (mkWhere
       (Some [Obj (map (fun l =>
                          (Column.name l.1.1,
                           Cond (mkLeaf (Some (mkSingle l.1.2 (Some l.2))) None)))
                     leaves)])
       None)
    values =
  Ok ("WHERE " +:+
      (if truthy_str (Table.defaultWhere (rewrite_defaultWhere table start))
       then "(" +:+ default "" (Table.defaultWhere (rewrite_defaultWhere table start)) +:+
            ") = TRUE AND "
       else "") +:+
      join " AND "
        (imap (fun i l =>
                 Column.name l.1.1 +:+ " " +:+ operators_single l.1.2 +:+ " $" +:+
                 string_of_nat (length values + i + 1 + default 0 start) +:+ "::" +:+
                 Column.type l.1.1)
           leaves),
      values ++ map (fun l => JStr (String_ l.2)) leaves,
      rewrite_defaultWhere table start).
Proof.
  intros Hleaves.
  unfold whereSQL, compile_branches, compile_branch. cbn [where_AND where_OR mapM].
  unfold mbind.
  rewrite (mapWhere_scalar_object table start AND leaves values Hleaves).
  unfold ret. cbn [bind option_map omap list_omap id join String.concat].
  reflexivity.
Qed.

Lemma scalar_conditions_are_numbered_by_position_witness :
  whereSQL users None
    (mkWhere
       (Some [Obj [("name", single LIKE (JStr "A%")); ("age", single GREATER_THAN (JNum 18))]])
       None)
    [JStr "x"] =
  Ok ("WHERE name LIKE $2::text AND age > $3::int4", [JStr "x"; JStr "A%"; JStr "18"], users).
Proof.
  refine (eq_trans
            (scalar_conditions_are_numbered_by_position users None
               [(Column.mk "name" "text" 25 true false, LIKE, JStr "A%");
                (Column.mk "age" "int4" 23 true false, GREATER_THAN, JNum 18)]
               [JStr "x"] _) _).
  - repeat constructor.
  - vm_compute. reflexivity.
Defined.

(** ** Filters that are present but empty *)

Lemma empty_objects_compiled (table : Table.t) (start : option nat) (type : Connective)
    (n : nat) (values : list jsval) :
  mapM (fun a => mapWhere table start a type) (repeat (Obj []) n) values =
  Ok (repeat "" n, values).
Proof.
  induction n as [|n IH]; [reflexivity|].
  cbn [repeat mapM mapWhere forEachM].
  unfold mbind, ret, assemble. cbn [conditions mapM].
  unfold mbind, ret. rewrite IH. reflexivity.
Qed.

(** X14.  An update or delete whose filter has an [AND] list, though of
    empty condition objects only (or of none), and no [OR] list, is not
    given the impossible predicate: on a table without [defaultWhere] the
    predicate is [WHERE] followed by nothing but the [AND] separators
    between the empty texts of the objects, and there are no filter
    parameters. *)
Theorem empty_filter_is_not_refused (schema : Schema.t) (table : Table.t) (n : nat) :
  truthy_str (Table.defaultWhere table) = false ->
  makeMutationDelete schema table (mkWhere (Some (repeat (Obj []) n)) None) =
    Ok (mkMutationReturn
          ("DELETE FROM " +:+ Schema.name schema +:+ "." +:+ Table.name table +:+
           " WHERE " +:+ join " AND " (repeat "" n) +:+ " RETURNING *")
          ("WHERE " +:+ join " AND " (repeat "" n)) [],
        table) /\
  "WHERE " +:+ join " AND " (repeat "" n) <> "WHERE TRUE IS FALSE".
Proof.
  intros Hdw. split.
  - unfold makeMutationDelete, mutation_filter. cbn [where_AND where_OR defined orb].
    unfold whereSQL, compile_branches, compile_branch. cbn [where_AND where_OR].
    unfold mbind. rewrite empty_objects_compiled. unfold ret. cbn [bind].
    assert (Htable : rewrite_defaultWhere table None = table).
    { unfold rewrite_defaultWhere. rewrite Hdw. destruct (Table.variables table); reflexivity. }
    rewrite Htable, Hdw.
    cbn [option_map omap list_omap id join String.concat].
    rewrite !append_assoc. reflexivity.
  - destruct n as [|[|n]]; [discriminate|discriminate|].
    cbn [repeat join String.concat]. discriminate.
Qed.

Lemma empty_filter_is_not_refused_witness :
  makeMutationDelete public users (mkWhere (Some []) None) =
    Ok (mkMutationReturn "DELETE FROM public.users WHERE  RETURNING *" "WHERE " [], users).
Proof.
  apply (proj1 (empty_filter_is_not_refused public users 0 eq_refl)).
Defined.

(** ** The substitution of a variable *)

Lemma replace_first_token (token rep before after : string) :
  ~ In "$"%char (list_ascii_of_string before) ->
  replace (String "$" token) rep (before +:+ String "$" token +:+ after) =
  before +:+ rep +:+ after.
Proof.
  intros Hbefore.
  induction before as [|c before IH].
  - change ("" +:+ String "$" token +:+ after) with (String "$" (token +:+ after)).
    unfold replace; fold replace.
    assert (Hprefix : String.prefix (String "$" token) (String "$" (token +:+ after)) = true).
    { cbn [String.prefix]. destruct (ascii_dec "$" "$") as [_|Hne]; [|contradiction Hne; reflexivity].
      clear. induction token as [|c token IH]; [destruct after; reflexivity|].
      change (String c token +:+ after) with (String c (token +:+ after)).
      cbn [String.prefix]. destruct (ascii_dec c c) as [_|Hne]; [exact IH|contradiction Hne; reflexivity]. }
    rewrite Hprefix.
    change ("" +:+ rep +:+ after) with (rep +:+ after). f_equal.
    cbn [String.length drop_chars].
    clear. induction token as [|c token IH]; [reflexivity|exact IH].
  - change (String c before +:+ String "$" token +:+ after)
      with (String c (before +:+ String "$" token +:+ after)).
    unfold replace; fold replace.
    assert (Hc : c <> "$"%char).
    { intros ->. apply Hbefore. left. reflexivity. }
    assert (Hprefix : String.prefix (String "$" token)
                        (String c (before +:+ String "$" token +:+ after)) = false).
    { cbn [String.prefix]. destruct (ascii_dec "$" c) as [Heq|_]; [|reflexivity].
      contradiction Hc. symmetry. exact Heq. }
    rewrite Hprefix.
    change (String c before +:+ rep +:+ after) with (String c (before +:+ rep +:+ after)).
    f_equal. apply IH. intros Hin. apply Hbefore. right. exact Hin.
Qed.

(** X15.  For a table with one variable, the fragment is rewritten at the
    first [$] followed by the name of the variable and nowhere else: when
    no [$] comes before it, the text after the name is kept as it is,
    whether it goes on as a longer identifier or mentions the variable
    again; the token put in is [$] and the start index (0 when there is
    none). *)
Theorem variable_is_substituted_once (table : Table.t) (start : option nat)
    (v : TableVariable.t) (before after : string) :
  Table.variables table = Some [v] ->
  Table.defaultWhere table =
    Some (before +:+ String "$" (TableVariable.name v) +:+ after) ->
  ~ In "$"%char (list_ascii_of_string before) ->
  Table.defaultWhere (rewrite_defaultWhere table start) =
    Some (before +:+ ("$" +:+ string_of_nat (default 0 start)) +:+ after).
Proof.
  intros Hvars Hdw Hbefore.
  unfold rewrite_defaultWhere. rewrite Hvars, Hdw.
  assert (Htruthy : truthy_str
                      (Some (before +:+ String "$" (TableVariable.name v) +:+ after)) = true).
  { cbn [truthy_str].
    change (String "$" (TableVariable.name v) +:+ after)
      with (String "$" (TableVariable.name v +:+ after)).
    rewrite append_nonempty. reflexivity. }
  rewrite Htruthy. cbn [substitute_variables Table.set_defaultWhere Table.defaultWhere].
  rewrite Hdw. cbn [option_map Nat.add]. f_equal.
  apply (replace_first_token (TableVariable.name v)). exact Hbefore.
Qed.

Lemma variable_is_substituted_once_witness :
  Table.defaultWhere
    (rewrite_defaultWhere
       (Table.mk "docs" [] [] Table.table
          (Some [TableVariable.mk "id" TableVariable.int false])
          (Some "owner = $identifier OR owner = $id") None)
       None) =
  Some "owner = $0entifier OR owner = $id".
Proof.
  apply (variable_is_substituted_once
           (Table.mk "docs" [] [] Table.table
              (Some [TableVariable.mk "id" TableVariable.int false])
              (Some "owner = $identifier OR owner = $id") None)
           None (TableVariable.mk "id" TableVariable.int false)
           "owner = " "entifier OR owner = $id").
  - reflexivity.
  - reflexivity.
  - vm_compute. intuition discriminate.
Defined.

(** * The case conversions *)

Ltac ascii_cases c :=
  destruct c as [[] [] [] [] [] [] [] []]; vm_compute; try reflexivity; try discriminate;
  try (intros; discriminate); try (intros; reflexivity); auto.

Lemma upper_char_alnum (c : ascii) :
  Strings.is_alnum c = true -> Strings.is_alnum (Strings.upper_char c) = true.
Proof. ascii_cases c. Qed.

Lemma lower_char_alnum (c : ascii) :
  Strings.is_alnum c = true -> Strings.is_alnum (Strings.lower_char c) = true.
Proof. ascii_cases c. Qed.

Lemma upper_char_not_lower (c : ascii) :
  Strings.is_alnum c = true -> Strings.is_lower (Strings.upper_char c) = false.
Proof. ascii_cases c. Qed.

Lemma lower_char_not_upper (c : ascii) : Strings.is_upper (Strings.lower_char c) = false.
Proof. ascii_cases c. Qed.

Lemma upper_lower_char (c : ascii) :
  Strings.is_upper c = true -> Strings.upper_char (Strings.lower_char c) = c.
Proof. ascii_cases c. Qed.

Lemma lower_char_of_upper_alnum (c : ascii) :
  Strings.is_upper c = true -> Strings.is_alnum (Strings.lower_char c) = true.
Proof. ascii_cases c. Qed.

Lemma upper_char_fixes (c : ascii) :
  Strings.is_lower c = false -> Strings.upper_char c = c.
Proof. ascii_cases c. Qed.

Lemma lower_char_fixes (c : ascii) :
  Strings.is_upper c = false -> Strings.lower_char c = c.
Proof. ascii_cases c. Qed.

Lemma underscore_facts :
  Strings.is_alnum "_" = false /\ Strings.is_upper "_" = false.
Proof. split; reflexivity. Qed.

Lemma space_not_alnum (c : ascii) : Strings.is_alnum c = true -> Ascii.eqb c " " = false.
Proof. ascii_cases c. Qed.

Lemma append_empty_r (x : string) : x +:+ "" = x.
Proof.
  induction x as [|c x IH]; [reflexivity|].
  change (String c x +:+ "") with (String c (x +:+ "")). rewrite IH. reflexivity.
Qed.

Lemma join_empty_cons (x : string) (xs : list string) :
  join "" (x :: xs) = x +:+ join "" xs.
Proof.
  destruct xs as [|y ys]; [|reflexivity].
  symmetry. apply append_empty_r.
Qed.

Lemma split_space_words (s : string) : exists w ws, Strings.split_space s = w :: ws.
Proof.
  induction s as [|c s [w [ws IH]]]; cbn [Strings.split_space].
  - eexists. eexists. reflexivity.
  - destruct (Ascii.eqb c " "); [eexists; eexists; reflexivity|].
    rewrite IH. eexists. eexists. reflexivity.
Qed.

Lemma toPascalCase_words (s : string) (w : string) (ws : list string) :
  Strings.split_space
    (Glob.replace_chars (fun c => if Strings.is_alnum c then None else Some " ") s) = w :: ws ->
  Strings.pascal_from true s = Strings.capitalize w +:+ join "" (map Strings.capitalize ws) /\
  Strings.pascal_from false s = Strings.toLowerCase w +:+ join "" (map Strings.capitalize ws).
Proof.
  revert w ws.
  induction s as [|c s IH]; intros w ws Hsplit;
    cbn [Glob.replace_chars Strings.split_space Strings.pascal_from] in *.
  - injection Hsplit as <- <-. split; reflexivity.
  - destruct (Strings.is_alnum c) eqn:Ec.
    + cbn [Strings.split_space] in Hsplit.
      rewrite (space_not_alnum c Ec) in Hsplit.
      destruct (split_space_words
                  (Glob.replace_chars
                     (fun c => if Strings.is_alnum c then None else Some " ") s))
        as [w' [ws' Hs]].
      rewrite Hs in Hsplit. injection Hsplit as <- <-.
      destruct (IH w' ws' Hs) as [_ IHfalse].
      rewrite IHfalse. split; reflexivity.
    + change (" " +:+ ?x) with (String " " x) in Hsplit.
      cbn [Strings.split_space Ascii.eqb Bool.eqb] in Hsplit.
      destruct (split_space_words
                  (Glob.replace_chars
                     (fun c => if Strings.is_alnum c then None else Some " ") s))
        as [w' [ws' Hs]].
      rewrite Hs in Hsplit. injection Hsplit as <- <-.
      destruct (IH w' ws' Hs) as [IHtrue _].
      rewrite IHtrue. cbn [map]. rewrite join_empty_cons. split; reflexivity.
Qed.

Lemma toPascalCase_pascal_from (s : string) :
  Strings.toPascalCase s = Strings.pascal_from true s.
Proof.
  unfold Strings.toPascalCase.
  destruct (split_space_words
              (Glob.replace_chars (fun c => if Strings.is_alnum c then None else Some " ") s))
    as [w [ws Hs]].
  rewrite Hs. destruct (toPascalCase_words s w ws Hs) as [-> _].
  cbn [map]. apply join_empty_cons.
Qed.

Lemma pascal_from_alnum (start : bool) (s : string) :
  Strings.all_chars Strings.is_alnum (Strings.pascal_from start s) = true.
Proof.
  revert start.
  induction s as [|c s IH]; intros start; cbn [Strings.pascal_from]; [reflexivity|].
  destruct (Strings.is_alnum c) eqn:Ec; [|apply IH].
  unfold Strings.all_chars in *. cbn [list_ascii_of_string forallb].
  rewrite IH, andb_true_r.
  destruct start; [apply upper_char_alnum|apply lower_char_alnum]; exact Ec.
Qed.

Lemma pascal_from_separator (start : bool) (a b : string) (c : ascii) :
  Strings.is_alnum c = false ->
  Strings.pascal_from start (a +:+ String c b) =
  Strings.pascal_from start a +:+ Strings.pascal_from true b.
Proof.
  intros Hc. revert start.
  induction a as [|x a IH]; intros start.
  - change ("" +:+ String c b) with (String c b).
    cbn [Strings.pascal_from]. rewrite Hc. reflexivity.
  - change (String x a +:+ String c b) with (String x (a +:+ String c b)).
    cbn [Strings.pascal_from].
    destruct (Strings.is_alnum x); [|apply IH].
    rewrite IH. reflexivity.
Qed.

Lemma remove_nonword_alnum (s : string) :
  Strings.all_chars Strings.is_alnum s = true -> Strings.remove_nonword s = s.
Proof.
  unfold Strings.all_chars.
  induction s as [|c s IH]; cbn [list_ascii_of_string forallb Strings.remove_nonword];
    [reflexivity|].
  intros H. apply andb_true_iff in H as [Hc Hs].
  rewrite Hc, (IH Hs). reflexivity.
Qed.

(** X16.  The result of [toPascalCase] is made of letters and digits
    only, whatever the input; it is the concatenation of the results for
    the parts on either side of any character that is not a letter or a
    digit; and the [replace] that [addObjectName] applies to it removes
    nothing. *)
Theorem toPascalCase_is_alphanumeric (s a b : string) (c : ascii) :
  Strings.all_chars Strings.is_alnum (Strings.toPascalCase s) = true /\
  Strings.remove_nonword (Strings.toPascalCase s) = Strings.toPascalCase s /\
  (Strings.is_alnum c = false ->
   Strings.toPascalCase (a +:+ String c b) =
   Strings.toPascalCase a +:+ Strings.toPascalCase b).
Proof.
  rewrite !toPascalCase_pascal_from.
  split; [apply pascal_from_alnum|].
  split; [apply remove_nonword_alnum, pascal_from_alnum|].
  intros Hc. apply pascal_from_separator. exact Hc.
Qed.

Lemma toPascalCase_is_alphanumeric_witness :
  Strings.toPascalCase ("public" +:+ String "_" "user_accounts") =
  Strings.toPascalCase "public" +:+ Strings.toPascalCase "user_accounts".
Proof.
  apply (toPascalCase_is_alphanumeric "" "public" "user_accounts" "_"). reflexivity.
Defined.

Example toPascalCase_example :
  Strings.toPascalCase "public_user_accounts" = "PublicUserAccounts" /\
  Strings.pascalCaseToSnakeCase "PublicUserAccounts" = "public_user_accounts".
Proof. split; vm_compute; reflexivity. Qed.

Lemma snake_chars_not_upper (s : string) :
  Strings.all_chars (fun c => negb (Strings.is_upper c))
    (Glob.replace_chars
       (fun c => if Strings.is_upper c
                 then Some (String "_" (String (Strings.lower_char c) EmptyString))
                 else None) s) = true.
Proof.
  unfold Strings.all_chars.
  induction s as [|c s IH]; cbn [Glob.replace_chars]; [reflexivity|].
  destruct (Strings.is_upper c) eqn:Ec.
  - change (String "_" (String (Strings.lower_char c) "") +:+ ?x)
      with (String "_" (String (Strings.lower_char c) x)).
    cbn [list_ascii_of_string forallb].
    rewrite lower_char_not_upper, IH. reflexivity.
  - cbn [list_ascii_of_string forallb]. rewrite Ec, IH. reflexivity.
Qed.

Lemma strip_underscore_chars (p : ascii -> bool) (s : string) :
  Strings.all_chars p s = true -> Strings.all_chars p (Strings.strip_underscore s) = true.
Proof.
  unfold Strings.all_chars, Strings.strip_underscore.
  destruct s as [|c s]; [intros _; reflexivity|].
  destruct (ascii_dec c "_") as [->|Hne].
  - cbn [list_ascii_of_string forallb]. intros H. apply andb_true_iff in H. apply H.
  - intros H.
    destruct c as [[] [] [] [] [] [] [] []]; try exact H.
    contradiction Hne. reflexivity.
Qed.

Lemma snake_without_upper (s : string) :
  Strings.all_chars (fun c => negb (Strings.is_upper c)) s = true ->
  Glob.replace_chars
    (fun c => if Strings.is_upper c
              then Some (String "_" (String (Strings.lower_char c) EmptyString))
              else None) s = s.
Proof.
  unfold Strings.all_chars.
  induction s as [|c s IH]; cbn [Glob.replace_chars list_ascii_of_string forallb];
    [reflexivity|].
  intros H. apply andb_true_iff in H as [Hc Hs].
  apply negb_true_iff in Hc. rewrite Hc, (IH Hs). reflexivity.
Qed.

(** X17.  The result of [pascalCaseToSnakeCase] has no letter from [A] to
    [Z], whatever the input; and a text that has none and does not begin
    with an underscore is returned as it is. *)
Theorem pascalCaseToSnakeCase_has_no_capital (s : string) :
  Strings.all_chars (fun c => negb (Strings.is_upper c)) (Strings.pascalCaseToSnakeCase s) = true /\
  (Strings.all_chars (fun c => negb (Strings.is_upper c)) s = true ->
   Strings.strip_underscore s = s ->
   Strings.pascalCaseToSnakeCase s = s).
Proof.
  split.
  - unfold Strings.pascalCaseToSnakeCase.
    apply strip_underscore_chars, snake_chars_not_upper.
  - intros Hs Hstrip. unfold Strings.pascalCaseToSnakeCase.
    rewrite (snake_without_upper s Hs). exact Hstrip.
Qed.

Lemma pascalCaseToSnakeCase_has_no_capital_witness :
  Strings.pascalCaseToSnakeCase "order_by_users" = "order_by_users".
Proof.
  apply (pascalCaseToSnakeCase_has_no_capital "order_by_users"); reflexivity.
Defined.

Lemma pascal_from_snake (start : bool) (s : string) :
  Strings.all_chars Strings.is_alnum s = true ->
  (start = true ->
   match s with
   | String c _ => Strings.is_lower c = false
   | EmptyString => True
   end) ->
  Strings.pascal_from start
    (Glob.replace_chars
       (fun c => if Strings.is_upper c
                 then Some (String "_" (String (Strings.lower_char c) EmptyString))
                 else None) s) = s.
Proof.
  unfold Strings.all_chars. revert start.
  induction s as [|c s IH]; intros start Halnum Hstart;
    cbn [Glob.replace_chars list_ascii_of_string forallb] in *; [reflexivity|].
  apply andb_true_iff in Halnum as [Hc Hs].
  assert (Hrest : Strings.pascal_from false
            (Glob.replace_chars
               (fun c => if Strings.is_upper c
                         then Some (String "_" (String (Strings.lower_char c) EmptyString))
                         else None) s) = s).
  { apply IH; [exact Hs|discriminate]. }
  destruct (Strings.is_upper c) eqn:Eu.
  - change (String "_" (String (Strings.lower_char c) "") +:+ ?x)
      with (String "_" (String (Strings.lower_char c) x)).
    cbn [Strings.pascal_from].
    rewrite (proj1 underscore_facts), (lower_char_of_upper_alnum c Eu).
    rewrite Hrest, (upper_lower_char c Eu). reflexivity.
  - cbn [Strings.pascal_from]. rewrite Hc, Hrest.
    destruct start.
    + rewrite (upper_char_fixes c (Hstart eq_refl)). reflexivity.
    + rewrite (lower_char_fixes c Eu). reflexivity.
Qed.

Lemma pascal_from_strip (s : string) :
  Strings.pascal_from true (Strings.strip_underscore s) = Strings.pascal_from true s.
Proof.
  destruct s as [|c s]; [reflexivity|].
  destruct c as [[] [] [] [] [] [] [] []]; reflexivity.
Qed.

Lemma pascal_from_head_not_lower (s : string) :
  match Strings.pascal_from true s with
  | String c _ => Strings.is_lower c = false
  | EmptyString => True
  end.
Proof.
  induction s as [|c s IH]; cbn [Strings.pascal_from]; [exact I|].
  destruct (Strings.is_alnum c) eqn:Ec; [|exact IH].
  apply upper_char_not_lower. exact Ec.
Qed.

(** X18.  [toPascalCase] undoes [pascalCaseToSnakeCase] on every text made
    of letters and digits that does not begin with a lower-case letter;
    the results of [toPascalCase] are such texts, so converting one of
    them to snake case and back gives it again. *)
Theorem pascal_snake_round_trip (s : string) :
  (Strings.all_chars Strings.is_alnum s = true ->
   match s with
   | String c _ => Strings.is_lower c = false
   | EmptyString => True
   end ->
   Strings.toPascalCase (Strings.pascalCaseToSnakeCase s) = s) /\
  Strings.toPascalCase (Strings.pascalCaseToSnakeCase (Strings.toPascalCase s)) =
    Strings.toPascalCase s.
Proof.
  assert (Hround : forall x,
            Strings.all_chars Strings.is_alnum x = true ->
            match x with
            | String c _ => Strings.is_lower c = false
            | EmptyString => True
            end ->
            Strings.toPascalCase (Strings.pascalCaseToSnakeCase x) = x).
  { intros x Halnum Hhead.
    rewrite toPascalCase_pascal_from. unfold Strings.pascalCaseToSnakeCase.
    rewrite pascal_from_strip. apply pascal_from_snake; [exact Halnum|].
    intros _. exact Hhead. }
  split; [apply Hround|].
  apply Hround.
  - rewrite toPascalCase_pascal_from. apply pascal_from_alnum.
  - rewrite toPascalCase_pascal_from. apply pascal_from_head_not_lower.
Qed.

Lemma pascal_snake_round_trip_witness :
  Strings.toPascalCase (Strings.pascalCaseToSnakeCase "PublicUsers1MutationCreate") =
  "PublicUsers1MutationCreate".
Proof.
  apply (pascal_snake_round_trip "PublicUsers1MutationCreate"); [reflexivity|reflexivity].
Defined.

(** * The names of the generated objects *)

Lemma string_of_nat_nonempty (i : nat) : 1 <= String.length (string_of_nat (S i)).
Proof.
  unfold string_of_nat.
  destruct (Nat.to_uint (S i)) as [|d|d|d|d|d|d|d|d|d|d] eqn:E;
    cbn [NilEmpty.string_of_uint String.length]; try lia.
  pose proof (DecimalNat.Unsigned.of_to (S i)) as Hback.
  rewrite E in Hback. discriminate Hback.
Qed.

Lemma length_append (a b : string) :
  String.length (a +:+ b) = String.length a + String.length b.
Proof.
  induction a as [|c a IH]; [reflexivity|].
  change (String c a +:+ b) with (String c (a +:+ b)).
  cbn [String.length]. rewrite IH. reflexivity.
Qed.

Lemma is_free_iff (objectsName : list Naming.PgToNexusObject) (n : string) :
  Naming.is_free objectsName n = true <-> ~ In n (map Naming.name objectsName).
Proof.
  unfold Naming.is_free.
  induction objectsName as [|o objs IH]; cbn [List.filter map length In].
  - split; [intros _ []|reflexivity].
  - destruct (String.eqb_spec (Naming.name o) n) as [Heq|Hne].
    + cbn [length Nat.leb]. split; [discriminate|]. intros H. contradiction H. left. exact Heq.
    + rewrite IH. split; [intros H [Heq|Hin]; [contradiction|exact (H Hin)]|].
      intros H Hin. apply H. right. exact Hin.
Qed.

(** The objects whose name has at least [n] characters. *)
Lemma longer_names_decrease (objectsName : list Naming.PgToNexusObject) (n : string) (m : nat) :
  In n (map Naming.name objectsName) ->
  String.length n < m ->
  length (List.filter (fun o => m <=? String.length (Naming.name o)) objectsName) <
  length (List.filter (fun o => String.length n <=? String.length (Naming.name o)) objectsName).
Proof.
  intros Hin Hlt.
  induction objectsName as [|o objs IH]; cbn [map In List.filter] in *; [contradiction|].
  assert (Hmono : length (List.filter (fun o => m <=? String.length (Naming.name o)) objs) <=
                  length (List.filter (fun o => String.length n <=? String.length (Naming.name o))
                            objs)).
  { clear IH Hin. induction objs as [|x objs IH]; cbn [List.filter]; [lia|].
    destruct (Nat.leb_spec m (String.length (Naming.name x))),
             (Nat.leb_spec (String.length n) (String.length (Naming.name x)));
      cbn [length]; lia. }
  destruct Hin as [Heq|Hin].
  - rewrite Heq.
    destruct (Nat.leb_spec m (String.length n)); [lia|].
    rewrite Nat.leb_refl. cbn [length]. lia.
  - specialize (IH Hin).
    destruct (Nat.leb_spec m (String.length (Naming.name o))),
             (Nat.leb_spec (String.length n) (String.length (Naming.name o)));
      cbn [length]; lia.
Qed.

Lemma approve_result (fuel : nat) (s : Naming.DbSchema) (t : Table.t) (current : string)
    (i : nat) (objectsName : list Naming.PgToNexusObject) :
  length (List.filter
            (fun o => String.length (if i =? 0 then current else current +:+ string_of_nat i) <=?
                      String.length (Naming.name o))
            objectsName) < fuel ->
  exists n suffix,
    Naming.approve fuel s t current i objectsName =
      Some (objectsName ++ [Naming.mkObject n t (Schema.mk (Naming.db_name s))]) /\
    n = current +:+ suffix /\
    ~ In n (map Naming.name objectsName).
Proof.
  revert current i.
  induction fuel as [|fuel IH]; intros current i Hfuel; [lia|].
  cbn [Naming.approve]. cbv zeta.
  set (candidate := if i =? 0 then current else current +:+ string_of_nat i) in *.
  assert (Hcandidate : exists suffix, candidate = current +:+ suffix).
  { unfold candidate. destruct (i =? 0).
    - exists "". symmetry. apply append_empty_r.
    - eexists. reflexivity. }
  destruct Hcandidate as [suffix Hsuffix].
  destruct (Naming.is_free objectsName candidate) eqn:Efree.
  - exists candidate, suffix. split; [reflexivity|]. split; [exact Hsuffix|].
    apply is_free_iff. exact Efree.
  - assert (Hin : In candidate (map Naming.name objectsName)).
    { destruct (in_dec string_dec candidate (map Naming.name objectsName)) as [Hin|Hnot];
        [exact Hin|].
      apply is_free_iff in Hnot. congruence. }
    destruct (IH candidate (S i)) as [n [suffix' [Hrun [Hn Hfree]]]].
    + cbn [Nat.eqb].
      pose proof (longer_names_decrease objectsName candidate
                    (String.length (candidate +:+ string_of_nat (S i))) Hin) as Hdec.
      rewrite length_append in Hdec.
      pose proof (string_of_nat_nonempty i).
      rewrite length_append. lia.
    + exists n, (suffix +:+ suffix'). split; [exact Hrun|]. split; [|exact Hfree].
      rewrite Hn, Hsuffix. apply append_assoc.
Qed.

Lemma NoDup_names_snoc (objectsName : list Naming.PgToNexusObject)
    (o : Naming.PgToNexusObject) :
  List.NoDup (map Naming.name objectsName) ->
  ~ In (Naming.name o) (map Naming.name objectsName) ->
  List.NoDup (map Naming.name (objectsName ++ [o])).
Proof.
  intros Hnodup Hfresh. rewrite List.map_app. cbn [map].
  apply List.NoDup_app; [exact Hnodup|repeat constructor; intros []|].
  intros n Hin [<-|[]]. exact (Hfresh Hin).
Qed.

(** X19.  [addObjectName] ends: with the objects registered so far, one
    more round than there are objects is enough.  A table without columns
    adds nothing; for any other table exactly one object is appended,
    holding the table and the schema name, under a name that begins with
    the Pascal-case name of schema and table and that no earlier object
    has; so names that were pairwise distinct stay so. *)
Theorem addObjectName_adds_a_fresh_name (fuel : nat) (s : Naming.DbSchema) (t : Table.t)
    (objectsName : list Naming.PgToNexusObject) :
  length objectsName < fuel ->
  exists objectsName',
    Naming.addObjectName fuel s t objectsName = Some objectsName' /\
    (Table.columns t = [] -> objectsName' = objectsName) /\
    (Table.columns t <> [] ->
     exists n suffix,
       objectsName' =
         objectsName ++ [Naming.mkObject n t (Schema.mk (Naming.db_name s))] /\
       n = Naming.base_name s t +:+ suffix /\
       ~ In n (map Naming.name objectsName)) /\
    (List.NoDup (map Naming.name objectsName) -> List.NoDup (map Naming.name objectsName')).
Proof.
  intros Hfuel. unfold Naming.addObjectName.
  destruct (Table.columns t) as [|c cs] eqn:Ecols; cbn [length Nat.ltb Nat.leb].
  - exists objectsName. split; [reflexivity|]. split; [reflexivity|].
    split; [intros H; contradiction H; reflexivity|exact id].
  - destruct (approve_result fuel s t (Naming.base_name s t) 0 objectsName)
      as [n [suffix [Hrun [Hn Hfree]]]].
    + eapply Nat.le_lt_trans; [apply List.filter_length_le|exact Hfuel].
    + eexists. split; [exact Hrun|]. split; [discriminate|]. split.
      * intros _. exists n, suffix. split; [reflexivity|]. split; [exact Hn|exact Hfree].
      * intros Hnodup. apply NoDup_names_snoc; [exact Hnodup|exact Hfree].
Qed.

Lemma addObjectName_adds_a_fresh_name_witness :
  exists objectsName',
    Naming.addObjectName 2 (Naming.mkDbSchema "public" [users]) users
      [Naming.mkObject "PublicUsers" users public] = Some objectsName' /\
    map Naming.name objectsName' = ["PublicUsers"; "PublicUsers1"].
Proof.
  destruct (addObjectName_adds_a_fresh_name 2 (Naming.mkDbSchema "public" [users]) users
              [Naming.mkObject "PublicUsers" users public])
    as [objectsName' [Hrun _]].
  - cbn [length]. lia.
  - exists objectsName'. split; [exact Hrun|].
    vm_compute in Hrun. injection Hrun as <-. reflexivity.
Defined.

Lemma addObjectName_step (fuel : nat) (s : Naming.DbSchema) (t : Table.t)
    (objectsName : list Naming.PgToNexusObject) :
  length objectsName < fuel ->
  exists added,
    Naming.addObjectName fuel s t objectsName = Some (objectsName ++ added) /\
    map Naming.table added = List.filter (fun t => 0 <? length (Table.columns t)) [t] /\
    Forall (fun o => Naming.schema o = Schema.mk (Naming.db_name s)) added /\
    (List.NoDup (map Naming.name objectsName) ->
     List.NoDup (map Naming.name (objectsName ++ added))).
Proof.
  intros Hfuel. unfold Naming.addObjectName. cbn [List.filter].
  destruct (0 <? length (Table.columns t)).
  - destruct (approve_result fuel s t (Naming.base_name s t) 0 objectsName)
      as [n [suffix [Hrun [_ Hfree]]]].
    + eapply Nat.le_lt_trans; [apply List.filter_length_le|exact Hfuel].
    + eexists. split; [exact Hrun|]. split; [reflexivity|].
      split; [repeat constructor|].
      intros Hnodup. apply NoDup_names_snoc; [exact Hnodup|exact Hfree].
  - exists []. rewrite List.app_nil_r. split; [reflexivity|]. split; [reflexivity|].
    split; [constructor|exact id].
Qed.

Lemma addTables_result (fuel : nat) (s : Naming.DbSchema) (ts : list Table.t)
    (objectsName : list Naming.PgToNexusObject) :
  length objectsName + length ts < fuel ->
  exists added,
    Naming.addTables fuel s ts objectsName = Some (objectsName ++ added) /\
    map Naming.table added = List.filter (fun t => 0 <? length (Table.columns t)) ts /\
    Forall (fun o => Naming.schema o = Schema.mk (Naming.db_name s)) added /\
    (List.NoDup (map Naming.name objectsName) ->
     List.NoDup (map Naming.name (objectsName ++ added))).
Proof.
  revert objectsName.
  induction ts as [|t ts IH]; intros objectsName Hfuel; cbn [Naming.addTables length] in *.
  - exists []. rewrite List.app_nil_r. split; [reflexivity|]. split; [reflexivity|].
    split; [constructor|exact id].
  - destruct (addObjectName_step fuel s t objectsName) as [one [Hrun [Htable [Hschema Hnodup]]]];
      [lia|].
    rewrite Hrun.
    assert (Hone : length one <= 1).
    { rewrite <- (List.length_map Naming.table), Htable. cbn [List.filter].
      destruct (0 <? length (Table.columns t)); cbn [length]; lia. }
    destruct (IH (objectsName ++ one)) as [more [Hmore [Htables [Hschemas Hnodups]]]].
    { rewrite List.length_app. lia. }
    exists (one ++ more). rewrite List.app_assoc. split; [exact Hmore|].
    split; [|split].
    + rewrite List.map_app, Htable, Htables. cbn [List.filter].
      destruct (0 <? length (Table.columns t)); reflexivity.
    + apply List.Forall_app. split; assumption.
    + intros H. apply Hnodups, Hnodup, H.
Qed.

Lemma addSchemas_result (fuel : nat) (dbSchema : list Naming.DbSchema)
    (objectsName : list Naming.PgToNexusObject) :
  length objectsName + Naming.table_count dbSchema < fuel ->
  exists added,
    Naming.addSchemas fuel dbSchema objectsName = Some (objectsName ++ added) /\
    map Naming.table added =
      List.filter (fun t => 0 <? length (Table.columns t))
        (concat (map Naming.db_tables dbSchema)) /\
    (List.NoDup (map Naming.name objectsName) ->
     List.NoDup (map Naming.name (objectsName ++ added))).
Proof.
  revert objectsName.
  induction dbSchema as [|s rest IH]; intros objectsName Hfuel;
    cbn [Naming.addSchemas map concat].
  - exists []. rewrite List.app_nil_r. split; [reflexivity|]. split; [reflexivity|exact id].
  - change (Naming.table_count (s :: rest))
      with (length (Naming.db_tables s) + Naming.table_count rest) in Hfuel.
    destruct (addTables_result fuel s (Naming.db_tables s) objectsName)
      as [some [Hrun [Htables [_ Hnodup]]]]; [lia|].
    rewrite Hrun.
    assert (Hsome : length some <= length (Naming.db_tables s)).
    { rewrite <- (List.length_map Naming.table), Htables. apply List.filter_length_le. }
    destruct (IH (objectsName ++ some)) as [more [Hmore [Hrest Hnodups]]].
    { rewrite List.length_app. lia. }
    exists (some ++ more). rewrite List.app_assoc. split; [exact Hmore|]. split.
    + rewrite List.map_app, Htables, Hrest, List.filter_app. reflexivity.
    + intros H. apply Hnodups, Hnodup, H.
Qed.

(** X20.  Naming the objects of a whole database schema list, from no
    object at all, ends within one more round per call than there are
    tables; the tables that have columns get one object each, in the
    order of the schemas and of their tables, the tables without columns
    get none, and no two objects have the same name. *)
Theorem generated_object_names_are_distinct (dbSchema : list Naming.DbSchema) :
  exists objectsName,
    Naming.addSchemas (S (Naming.table_count dbSchema)) dbSchema [] = Some objectsName /\
    map Naming.table objectsName =
      List.filter (fun t => 0 <? length (Table.columns t))
        (concat (map Naming.db_tables dbSchema)) /\
    List.NoDup (map Naming.name objectsName).
Proof.
  destruct (addSchemas_result (S (Naming.table_count dbSchema)) dbSchema [])
    as [added [Hrun [Htables Hnodup]]].
  - cbn [length]. lia.
  - exists added. cbn [app] in *. split; [exact Hrun|]. split; [exact Htables|].
    apply Hnodup. constructor.
Qed.

Example generated_object_names_example :
  option_map (map Naming.name)
    (Naming.addSchemas 4
       [Naming.mkDbSchema "public" [users; docs];
        Naming.mkDbSchema "Public" [users]] []) =
  Some ["PublicUsers"; "PublicDocs"; "PublicUsers1"].
Proof. vm_compute. reflexivity. Qed.

(** * Duplicates and merging *)

Section removeDuplicates_facts.
Context {T K V : Type}.
Variable get : T -> K -> V.
Variable strict_eq : V -> V -> bool.
Variable own_keys : T -> list K.
Variable interfaceKeys : option (list K).

Abbreviation same := (Filters.same_on get strict_eq).
Abbreviation kept := (Filters.kept_after get strict_eq).
Abbreviation dedup := (Filters.removeDuplicates get strict_eq own_keys interfaceKeys).
Abbreviation keys_of := (Filters.compared_keys own_keys interfaceKeys).

Lemma findIndex_None (p : T -> bool) (l : list T) :
  Filters.findIndex p l = None <-> existsb p l = false.
Proof.
  induction l as [|x l IH]; cbn [Filters.findIndex existsb]; [tauto|].
  destruct (p x); cbn [orb]; [split; discriminate|].
  rewrite <- IH. destruct (Filters.findIndex p l); cbn [option_map]; split; congruence.
Qed.

Lemma findIndex_lt (p : T -> bool) (l : list T) (j : nat) :
  Filters.findIndex p l = Some j -> j < length l.
Proof.
  revert j.
  induction l as [|x l IH]; intros j; cbn [Filters.findIndex length]; [discriminate|].
  destruct (p x); [intros H; injection H as <-; lia|].
  destruct (Filters.findIndex p l) as [i|]; cbn [option_map]; [|discriminate].
  intros H. injection H as <-. specialize (IH i eq_refl). lia.
Qed.

Lemma findIndex_app (p : T -> bool) (a b : list T) :
  Filters.findIndex p (a ++ b) =
  match Filters.findIndex p a with
  | Some j => Some j
  | None => option_map (fun j => length a + j) (Filters.findIndex p b)
  end.
Proof.
  induction a as [|x a IH]; cbn [app Filters.findIndex length].
  - destruct (Filters.findIndex p b); reflexivity.
  - destruct (p x); [reflexivity|].
    rewrite IH. destruct (Filters.findIndex p a); [reflexivity|].
    destruct (Filters.findIndex p b); reflexivity.
Qed.

Lemma filter_is_kept_after (keys : list K) (seen l : list T) :
  map snd
    (List.filter
       (fun iv : nat * T =>
          match Filters.findIndex (fun t => same keys t iv.2) (seen ++ l) with
          | Some index => index =? iv.1
          | None => false
          end)
       (imap (fun i x => (length seen + i, x)) l)) =
  kept keys seen l.
Proof.
  revert seen.
  induction l as [|x l IH]; intros seen; [reflexivity|].
  cbn [imap List.filter Filters.kept_after fst snd].
  assert (Hrest :
    map snd
      (List.filter
         (fun iv : nat * T =>
            match Filters.findIndex (fun t => same keys t iv.2) (seen ++ x :: l) with
            | Some index => index =? iv.1
            | None => false
            end)
         (imap ((fun i x => (length seen + i, x)) ∘ S) l)) =
    kept keys (seen ++ [x]) l).
  { rewrite <- IH. rewrite <- List.app_assoc. cbn [app].
    do 2 f_equal. apply imap_ext. intros i y _. cbn [compose].
    rewrite List.length_app. cbn [length]. f_equal. lia. }
  assert (Hhead :
    match Filters.findIndex (fun t => same keys t x) (seen ++ x :: l) with
    | Some index => index =? length seen + 0
    | None => false
    end = same keys x x && negb (existsb (fun t => same keys t x) seen)).
  { rewrite findIndex_app.
    destruct (Filters.findIndex (fun t => same keys t x) seen) as [j|] eqn:Eseen.
    - pose proof (findIndex_lt _ _ _ Eseen) as Hlt.
      assert (Hex : existsb (fun t => same keys t x) seen = true).
      { destruct (existsb (fun t => same keys t x) seen) eqn:E; [reflexivity|].
        apply findIndex_None in E. congruence. }
      rewrite Hex, andb_false_r. apply Nat.eqb_neq. lia.
    - apply findIndex_None in Eseen. rewrite Eseen. cbn [negb Filters.findIndex].
      rewrite andb_true_r.
      destruct (same keys x x); cbn [option_map]; [apply Nat.eqb_refl|].
      destruct (Filters.findIndex (fun t => same keys t x) l); cbn [option_map];
        [|reflexivity].
      apply Nat.eqb_neq. lia. }
  rewrite Hhead.
  destruct (same keys x x && negb (existsb (fun t => same keys t x) seen));
    cbn [map snd]; rewrite Hrest; reflexivity.
Qed.

Lemma removeDuplicates_kept_after (first : T) (rest : list T) :
  dedup (first :: rest) = kept (keys_of first) [] (first :: rest).
Proof.
  unfold Filters.removeDuplicates. cbv zeta.
  rewrite <- (filter_is_kept_after (keys_of first) [] (first :: rest)).
  reflexivity.
Qed.

Lemma kept_after_sublist (keys : list K) (seen l : list T) : sublist (kept keys seen l) l.
Proof.
  revert seen.
  induction l as [|x l IH]; intros seen; cbn [Filters.kept_after]; [constructor|].
  destruct (same keys x x && negb (existsb (fun t => same keys t x) seen));
    [apply sublist_skip|apply sublist_cons]; apply IH.
Qed.

Lemma kept_after_fresh (keys : list K) (seen l : list T) :
  Forall (fun y => same keys y y = true /\ existsb (fun t => same keys t y) seen = false)
    (kept keys seen l).
Proof.
  revert seen.
  induction l as [|x l IH]; intros seen; cbn [Filters.kept_after]; [constructor|].
  assert (Htail : Forall
            (fun y => same keys y y = true /\ existsb (fun t => same keys t y) seen = false)
            (kept keys (seen ++ [x]) l)).
  { eapply List.Forall_impl; [|apply IH].
    intros y [Hself Hseen]. split; [exact Hself|].
    rewrite List.existsb_app in Hseen. apply orb_false_iff in Hseen. apply Hseen. }
  destruct (same keys x x && negb (existsb (fun t => same keys t x) seen)) eqn:E;
    [|exact Htail].
  apply andb_true_iff in E as [Hself Hseen]. apply negb_true_iff in Hseen.
  constructor; [split; assumption|exact Htail].
Qed.

Lemma kept_after_pairwise (keys : list K) (seen l : list T) :
  ForallOrdPairs (fun x y => same keys x y = false) (kept keys seen l).
Proof.
  revert seen.
  induction l as [|x l IH]; intros seen; cbn [Filters.kept_after]; [constructor|].
  destruct (same keys x x && negb (existsb (fun t => same keys t x) seen)); [|apply IH].
  constructor; [|apply IH].
  eapply List.Forall_impl; [|apply (kept_after_fresh keys (seen ++ [x]) l)].
  intros y [_ Hseen].
  rewrite List.existsb_app in Hseen. apply orb_false_iff in Hseen as [_ Hx].
  cbn [existsb] in Hx. rewrite orb_false_r in Hx. exact Hx.
Qed.

Lemma kept_after_fixpoint (keys : list K) (seen r : list T) :
  Forall (fun y => same keys y y = true /\ existsb (fun t => same keys t y) seen = false) r ->
  ForallOrdPairs (fun x y => same keys x y = false) r ->
  kept keys seen r = r.
Proof.
  revert seen.
  induction r as [|x r IH]; intros seen Hfresh Hpairs; [reflexivity|].
  inversion Hfresh as [|? ? [Hself Hseen] Hfresh']; subst.
  inversion Hpairs as [|? ? Hx Hpairs']; subst.
  cbn [Filters.kept_after]. rewrite Hself, Hseen. cbn [negb andb].
  f_equal. apply IH; [|exact Hpairs'].
  rewrite List.Forall_forall in *. intros y Hy.
  destruct (Hfresh' y Hy) as [Hyself Hyseen]. split; [exact Hyself|].
  rewrite List.existsb_app, Hyseen. cbn [existsb orb]. rewrite (Hx y Hy). reflexivity.
Qed.

(** X21.  [removeDuplicates] returns a subsequence of its input, in
    the order of the input; every value it keeps agrees with itself on
    all the compared keys (the reflection keys, or the keys of the first
    value), and no kept value agrees on all of them with a later kept
    value. *)
Theorem removeDuplicates_keeps_first_occurrences (first : T) (rest : list T) :
  let keys := Filters.compared_keys own_keys interfaceKeys first in
  let kept_values := Filters.removeDuplicates get strict_eq own_keys interfaceKeys (first :: rest) in
  sublist kept_values (first :: rest) /\
  Forall (fun y => Filters.same_on get strict_eq keys y y = true) kept_values /\
  ForallOrdPairs (fun x y => Filters.same_on get strict_eq keys x y = false) kept_values.
Proof.
  cbv zeta. rewrite removeDuplicates_kept_after.
  split; [apply kept_after_sublist|].
  split; [|apply kept_after_pairwise].
  eapply List.Forall_impl; [|apply kept_after_fresh]. intros y [Hy _]. exact Hy.
Qed.

(** X22.  When the first value agrees with itself on the compared keys
    (none of them holds [NaN]), [removeDuplicates] keeps it at the head
    of the result, and applying [removeDuplicates] to the result gives
    the result again. *)
Theorem removeDuplicates_is_idempotent (first : T) (rest : list T) :
  Filters.same_on get strict_eq (Filters.compared_keys own_keys interfaceKeys first) first first = true ->
  (exists kept_rest,
     Filters.removeDuplicates get strict_eq own_keys interfaceKeys (first :: rest) = first :: kept_rest) /\
  Filters.removeDuplicates get strict_eq own_keys interfaceKeys
    (Filters.removeDuplicates get strict_eq own_keys interfaceKeys (first :: rest)) =
  Filters.removeDuplicates get strict_eq own_keys interfaceKeys (first :: rest).
Proof.
  intros Hself. rewrite removeDuplicates_kept_after.
  assert (Hhead : kept (keys_of first) [] (first :: rest) =
                  first :: kept (keys_of first) ([] ++ [first]) rest).
  { cbn [Filters.kept_after existsb negb]. rewrite Hself. reflexivity. }
  split; [eexists; exact Hhead|].
  rewrite Hhead at 1. rewrite removeDuplicates_kept_after, <- Hhead.
  apply kept_after_fixpoint; [apply kept_after_fresh|apply kept_after_pairwise].
Qed.

Section equivalence.
Hypothesis strict_eq_refl : forall v, strict_eq v v = true.
Hypothesis strict_eq_trans :
  forall a b c, strict_eq a b = true -> strict_eq b c = true -> strict_eq a c = true.

Lemma same_on_refl (keys : list K) (x : T) : same keys x x = true.
Proof.
  unfold Filters.same_on. apply List.forallb_forall. intros k _. apply strict_eq_refl.
Qed.

Lemma same_on_trans (keys : list K) (x y z : T) :
  same keys x y = true -> same keys y z = true -> same keys x z = true.
Proof.
  unfold Filters.same_on. rewrite !List.forallb_forall.
  intros Hxy Hyz k Hk. eapply strict_eq_trans; [apply Hxy, Hk|apply Hyz, Hk].
Qed.

Lemma kept_after_represents (keys : list K) (seen l : list T) (v : T) :
  In v l ->
  exists u, (In u (kept keys seen l) \/ In u seen) /\ same keys u v = true.
Proof.
  revert seen.
  induction l as [|x l IH]; intros seen Hin; [destruct Hin|].
  cbn [Filters.kept_after]. rewrite same_on_refl. cbn [andb].
  destruct (existsb (fun t => same keys t x) seen) eqn:Eseen; cbn [negb].
  - apply List.existsb_exists in Eseen as [t [Ht Htx]].
    destruct Hin as [<-|Hin].
    + exists t. split; [right; exact Ht|exact Htx].
    + destruct (IH (seen ++ [x]) Hin) as [u [[Hu|Hu] Huv]].
      * exists u. split; [left; exact Hu|exact Huv].
      * apply List.in_app_or in Hu as [Hu|[<-|[]]].
        -- exists u. split; [right; exact Hu|exact Huv].
        -- exists t. split; [right; exact Ht|]. eapply same_on_trans; eassumption.
  - destruct Hin as [<-|Hin].
    + exists x. split; [left; left; reflexivity|apply same_on_refl].
    + destruct (IH (seen ++ [x]) Hin) as [u [[Hu|Hu] Huv]].
      * exists u. split; [left; right; exact Hu|exact Huv].
      * apply List.in_app_or in Hu as [Hu|[<-|[]]].
        -- exists u. split; [right; exact Hu|exact Huv].
        -- exists x. split; [left; left; reflexivity|exact Huv].
Qed.

(** X23.  When [===] is reflexive and transitive on the values compared
    (no [NaN] among them), [removeDuplicates] loses no class: every
    input value agrees, on every compared key, with a value that is
    kept. *)
Theorem removeDuplicates_keeps_every_class (first : T) (rest : list T) (v : T) :
  In v (first :: rest) ->
  exists u,
    In u (Filters.removeDuplicates get strict_eq own_keys interfaceKeys (first :: rest)) /\
    Filters.same_on get strict_eq (Filters.compared_keys own_keys interfaceKeys first) u v = true.
Proof.
  intros Hin. rewrite removeDuplicates_kept_after.
  destruct (kept_after_represents (keys_of first) [] (first :: rest) v Hin)
    as [u [[Hu|[]] Huv]].
  exists u. split; [exact Hu|exact Huv].
Qed.

End equivalence.
End removeDuplicates_facts.

Lemma removeDuplicates_is_idempotent_witness :
  Filters.removeDuplicates_strings
    (Filters.removeDuplicates_strings ["id"; "name"; "id"; "idx"; "email"]) =
  Filters.removeDuplicates_strings ["id"; "name"; "id"; "idx"; "email"].
Proof.
  apply (removeDuplicates_is_idempotent
           (fun s i => String.get i s) (fun a b => bool_decide (a = b))
           (fun s => seq 0 (String.length s)) None "id" ["name"; "id"; "idx"; "email"]).
  vm_compute. reflexivity.
Defined.

Lemma removeDuplicates_keeps_every_class_witness :
  exists u,
    In u (Filters.removeDuplicates_strings ["id"; "name"; "id"; "idx"; "email"]) /\
    Filters.same_on (fun s i => String.get i s) (fun a b => bool_decide (a = b))
      [0; 1] u "idx" = true.
Proof.
  apply (removeDuplicates_keeps_every_class
           (fun s i => String.get i s) (fun a b => bool_decide (a = b))
           (fun s => seq 0 (String.length s)) None).
  - intros v. apply bool_decide_eq_true_2. reflexivity.
  - intros a b c Hab Hbc. apply bool_decide_eq_true_2.
    apply bool_decide_eq_true_1 in Hab, Hbc. congruence.
  - cbn [In]. tauto.
Defined.

Lemma prefix_get (a b : string) (i : nat) :
  String.prefix a b = true -> i < String.length a -> String.get i b = String.get i a.
Proof.
  revert b i.
  induction a as [|c a IH]; intros b i Hp Hi; cbn [String.length] in Hi; [lia|].
  destruct b as [|d b]; cbn [String.prefix] in Hp; [discriminate|].
  destruct (Ascii.ascii_dec c d) as [->|]; [|discriminate].
  destruct i as [|i]; cbn [String.get]; [reflexivity|].
  apply IH; [exact Hp|lia].
Qed.

(** X24.  On strings, as [mergeObjects] applies [removeDuplicates] to two
    joined arrays of names, the compared keys are the indices of the
    first string: the result begins with the first string, and none of
    the strings kept after it begins with the first string, whether
    equal to it or longer. *)
Theorem removeDuplicates_strings_compares_prefixes (first : string) (rest : list string) :
  exists kept_rest,
    Filters.removeDuplicates_strings (first :: rest) = first :: kept_rest /\
    Forall (fun s => String.prefix first s = false) kept_rest.
Proof.
  unfold Filters.removeDuplicates_strings.
  rewrite removeDuplicates_kept_after.
  set (keys := Filters.compared_keys (fun s => seq 0 (String.length s)) None first).
  assert (Hkeys : keys = seq 0 (String.length first)).
  { unfold keys, Filters.compared_keys. cbv zeta.
    destruct (length (seq 0 (String.length first)) <=? 0); reflexivity. }
  assert (Hrefl : forall s,
            Filters.same_on (fun s i => String.get i s) (fun a b => bool_decide (a = b))
              keys s s = true).
  { intros s. apply same_on_refl. intros v. apply bool_decide_eq_true_2. reflexivity. }
  cbn [Filters.kept_after existsb negb]. rewrite Hrefl. cbn [andb app].
  eexists. split; [reflexivity|].
  eapply List.Forall_impl; [|apply kept_after_fresh].
  intros s [_ Hseen]. cbn [existsb] in Hseen. rewrite orb_false_r in Hseen.
  destruct (String.prefix first s) eqn:Hp; [|reflexivity].
  rewrite <- Hseen. symmetry. unfold Filters.same_on.
  apply List.forallb_forall. intros i Hi. apply bool_decide_eq_true_2.
  rewrite Hkeys in Hi. apply List.in_seq in Hi.
  symmetry. apply prefix_get; [exact Hp|lia].
Qed.

Section set_prop_facts.
Context {A : Type}.
Implicit Types (o : list (string * A)) (k : string) (v : A).

Lemma replace_prop_None o k v : Filters.replace_prop o k v = None <-> prop o k = None.
Proof.
  induction o as [|[k0 v0] o IH]; cbn [Filters.replace_prop prop]; [tauto|].
  destruct (k0 =? k)%string; [split; discriminate|].
  rewrite <- IH. destruct (Filters.replace_prop o k v); cbn [option_map]; split; congruence.
Qed.

Lemma replace_prop_Some o k v o' :
  Filters.replace_prop o k v = Some o' ->
  map fst o' = map fst o /\
  forall k', prop o' k' = if (k =? k')%string then Some v else prop o k'.
Proof.
  revert o'.
  induction o as [|[k0 v0] o IH]; intros o'; cbn [Filters.replace_prop]; [discriminate|].
  destruct (k0 =? k)%string eqn:E.
  - apply String.eqb_eq in E as ->. intros H. injection H as <-.
    split; [reflexivity|]. intros k'. cbn [prop]. destruct (k =? k')%string; reflexivity.
  - destruct (Filters.replace_prop o k v) as [o1|]; cbn [option_map]; [|discriminate].
    intros H. injection H as <-. destruct (IH o1 eq_refl) as [Hkeys Hprop].
    split; [cbn [map fst]; rewrite Hkeys; reflexivity|].
    intros k'. cbn [prop]. rewrite Hprop.
    destruct (k0 =? k')%string eqn:E0; [|reflexivity].
    apply String.eqb_eq in E0 as ->. rewrite String.eqb_sym, E. reflexivity.
Qed.

Lemma insert_index_facts o n k v :
  map fst (Filters.insert_index o n k v) ≡ₚ k :: map fst o /\
  (prop o k = None ->
   forall k', prop (Filters.insert_index o n k v) k' =
              if (k =? k')%string then Some v else prop o k').
Proof.
  induction o as [|[k0 v0] o [IHperm IHprop]]; cbn [Filters.insert_index].
  - split; [reflexivity|]. intros _ k'. reflexivity.
  - assert (Hfront : map fst ((k, v) :: (k0, v0) :: o) ≡ₚ k :: map fst ((k0, v0) :: o) /\
                     forall k', prop ((k, v) :: (k0, v0) :: o) k' =
                                if (k =? k')%string then Some v else prop ((k0, v0) :: o) k').
    { split; [reflexivity|]. intros k'. reflexivity. }
    destruct (Filters.array_index k0) as [n0|]; [|split; [apply Hfront|intros _; apply Hfront]].
    destruct (n0 <? n)%N; [|split; [apply Hfront|intros _; apply Hfront]].
    split.
    + cbn [map fst]. rewrite IHperm. apply Permutation_swap.
    + cbn [prop]. destruct (k0 =? k)%string eqn:E; [discriminate|].
      intros Hnone k'. rewrite (IHprop Hnone).
      destruct (k0 =? k')%string eqn:E0; [|reflexivity].
      apply String.eqb_eq in E0 as ->. rewrite String.eqb_sym, E. reflexivity.
Qed.

Lemma prop_app o o' k :
  prop (o ++ o') k = match prop o k with Some x => Some x | None => prop o' k end.
Proof.
  induction o as [|[k0 v0] o IH]; cbn [app prop]; [reflexivity|].
  destruct (k0 =? k)%string; [reflexivity|apply IH].
Qed.

Lemma set_prop_lookup o k v k' :
  prop (Filters.set_prop o k v) k' = if (k =? k')%string then Some v else prop o k'.
Proof.
  unfold Filters.set_prop.
  destruct (Filters.replace_prop o k v) as [o'|] eqn:E.
  - apply replace_prop_Some in E as [_ Hprop]. apply Hprop.
  - apply replace_prop_None in E.
    destruct (Filters.array_index k) as [n|]; [apply insert_index_facts, E|].
    rewrite prop_app. cbn [prop].
    destruct (k =? k')%string eqn:Ek.
    + apply String.eqb_eq in Ek as <-. rewrite E. reflexivity.
    + destruct (prop o k'); reflexivity.
Qed.

Lemma set_prop_keys o k v :
  map fst (Filters.set_prop o k v) ≡ₚ
  if defined (prop o k) then map fst o else k :: map fst o.
Proof.
  unfold Filters.set_prop.
  destruct (Filters.replace_prop o k v) as [o'|] eqn:E.
  - destruct (prop o k) eqn:Ep.
    + apply replace_prop_Some in E as [-> _]. reflexivity.
    + pose proof (proj2 (replace_prop_None o k v) Ep) as Hnone. congruence.
  - apply replace_prop_None in E. rewrite E. cbn [defined].
    destruct (Filters.array_index k) as [n|]; [apply insert_index_facts|].
    rewrite List.map_app. cbn [map fst]. symmetry. apply Permutation_cons_append.
Qed.

Lemma prop_None_keys o k : prop o k = None <-> ~ In k (map fst o).
Proof.
  induction o as [|[k0 v0] o IH]; cbn [prop map fst In]; [tauto|].
  destruct (k0 =? k)%string eqn:E.
  - apply String.eqb_eq in E. split; [discriminate|tauto].
  - apply String.eqb_neq in E. tauto.
Qed.

Lemma set_prop_NoDup o k v :
  List.NoDup (map fst o) -> List.NoDup (map fst (Filters.set_prop o k v)).
Proof.
  intros Hnd. eapply Permutation_NoDup; [symmetry; apply set_prop_keys|].
  destruct (prop o k) eqn:E; cbn [defined]; [exact Hnd|].
  constructor; [apply prop_None_keys, E|exact Hnd].
Qed.

Lemma prop_In_NoDup o k v :
  List.NoDup (map fst o) -> (prop o k = Some v <-> In (k, v) o).
Proof.
  induction o as [|[k0 v0] o IH]; cbn [prop map fst In]; intros Hnd.
  - split; [discriminate|tauto].
  - inversion Hnd as [|? ? Hnotin Hnd']; subst. specialize (IH Hnd').
    destruct (k0 =? k)%string eqn:E.
    + apply String.eqb_eq in E as ->. split.
      * intros H. injection H as ->. left. reflexivity.
      * intros [H|H]; [congruence|].
        exfalso. apply Hnotin. apply (List.in_map fst) in H. exact H.
    + apply String.eqb_neq in E. rewrite IH. split; [tauto|].
      intros [H|H]; [congruence|exact H].
Qed.

End set_prop_facts.

Section merge_facts.
Context {E K V : Type}.
Variable get : E -> K -> V.
Variable strict_eq : V -> V -> bool.
Variable own_keys : E -> list K.
Variable interfaceKeys : option (list K).
Variable element_string : E -> string.
Variable delimiter : string.

Abbreviation merge := (Filters.mergeObjects get strict_eq own_keys interfaceKeys).
Abbreviation merged_value := (Filters.merged_value get strict_eq own_keys interfaceKeys).
Abbreviation name := (Filters.name_of element_string delimiter).
Abbreviation merge_into :=
  (Filters.merge_into get strict_eq own_keys interfaceKeys element_string).
Abbreviation group n objects :=
  (List.filter (fun o : Filters.object E => (name o =? n)%string) objects).

Lemma merge_loop_lookup (obj1 acc obj2 : Filters.object E) (key : string) :
  List.NoDup (map fst obj2) ->
  prop (fold_left
          (fun mergedObj kv => Filters.set_prop mergedObj kv.1 (merged_value obj1 kv.1 kv.2))
          obj2 acc) key =
  match prop obj2 key with
  | Some v2 => Some (merged_value obj1 key v2)
  | None => prop acc key
  end.
Proof.
  revert acc.
  induction obj2 as [|[k v] obj2 IH]; intros acc Hnd; [reflexivity|].
  inversion Hnd as [|? ? Hnotin Hnd']; subst.
  cbn [fold_left fst snd prop]. rewrite (IH _ Hnd'), set_prop_lookup.
  destruct (k =? key)%string eqn:Ek; [|reflexivity].
  apply String.eqb_eq in Ek as <-.
  apply prop_None_keys in Hnotin. rewrite Hnotin. reflexivity.
Qed.

Lemma merge_loop_NoDup (obj1 acc obj2 : Filters.object E) :
  List.NoDup (map fst acc) ->
  List.NoDup
    (map fst
       (fold_left
          (fun mergedObj kv => Filters.set_prop mergedObj kv.1 (merged_value obj1 kv.1 kv.2))
          obj2 acc)).
Proof.
  revert acc.
  induction obj2 as [|[k v] obj2 IH]; intros acc Hnd; [exact Hnd|].
  cbn [fold_left]. apply IH, set_prop_NoDup, Hnd.
Qed.

(** X25.  [mergeObjects(obj1, obj2)] has, under every key of [obj2], the
    value of [obj2], except that where both objects hold an array it has
    the two arrays joined and passed through [removeDuplicates]; under
    any other key it has what [obj1] has.  Its keys stay distinct. *)
Theorem mergeObjects_lookup (obj1 obj2 : Filters.object E) (key : string) :
  List.NoDup (map fst obj1) ->
  List.NoDup (map fst obj2) ->
  List.NoDup (map fst (merge obj1 obj2)) /\
  prop (merge obj1 obj2) key =
  match prop obj2 key with
  | Some v2 => Some (merged_value obj1 key v2)
  | None => prop obj1 key
  end.
Proof.
  intros Hnd1 Hnd2. split.
  - apply merge_loop_NoDup, Hnd1.
  - apply merge_loop_lookup, Hnd2.
Qed.

Lemma merge_into_lookup (acc : list (string * Filters.object E))
    (objects : list (Filters.object E)) :
  Forall (fun o => name o <> "__proto__") objects ->
  exists m,
    merge_into acc objects delimiter = Some m /\
    (List.NoDup (map fst acc) -> List.NoDup (map fst m)) /\
    forall n,
      prop m n =
      match prop acc n, group n objects with
      | Some e, os => Some (fold_left merge os e)
      | None, o :: os => Some (fold_left merge os o)
      | None, [] => None
      end.
Proof.
  revert acc.
  induction objects as [|obj rest IH]; intros acc Hnames.
  - exists acc. split; [reflexivity|]. split; [tauto|].
    intros n. cbn [List.filter fold_left]. destruct (prop acc n); reflexivity.
  - inversion Hnames as [|? ? Hobj Hrest]; subst.
    cbn [Filters.merge_into]. cbv zeta.
    apply String.eqb_neq in Hobj. rewrite Hobj.
    destruct (IH (match prop acc (name obj) with
                  | Some existingObj =>
                      Filters.set_prop acc (name obj) (merge existingObj obj)
                  | None => Filters.set_prop acc (name obj) obj
                  end) Hrest) as [m [Hm [Hnd Hprop]]].
    exists m. split; [exact Hm|]. split.
    + intros Hacc. apply Hnd. destruct (prop acc (name obj)); apply set_prop_NoDup, Hacc.
    + intros n. rewrite Hprop. cbn [List.filter].
      destruct (name obj =? n)%string eqn:En.
      * apply String.eqb_eq in En. subst n.
        destruct (prop acc (name obj)) as [e|];
          rewrite set_prop_lookup, String.eqb_refl; reflexivity.
      * assert (Hother : forall x, prop (Filters.set_prop acc (name obj) x) n = prop acc n).
        { intros x. rewrite set_prop_lookup, En. reflexivity. }
        destruct (prop acc (name obj)); rewrite Hother; reflexivity.
Qed.

(** X26.  Unless an object is named [__proto__],
    [mergeObjectsWithSameName] returns, for each name that occurs, the
    objects of that name folded from the left with [mergeObjects],
    starting from the first of them, and nothing else. *)
Theorem mergeObjectsWithSameName_merges_groups (objects : list (Filters.object E)) :
  Forall (fun o => name o <> "__proto__") objects ->
  exists merged,
    Filters.mergeObjectsWithSameName get strict_eq own_keys interfaceKeys element_string
      objects delimiter = Some merged /\
    forall o,
      In o merged <->
      exists n first others,
        group n objects = first :: others /\ o = fold_left merge others first.
Proof.
  intros Hnames.
  destruct (merge_into_lookup [] objects Hnames) as [m [Hm [Hnd Hprop]]].
  specialize (Hnd (List.NoDup_nil _)).
  exists (map snd m). unfold Filters.mergeObjectsWithSameName.
  split; [rewrite Hm; reflexivity|].
  intros o. rewrite List.in_map_iff. split.
  - intros [[n o'] [Ho Hin]]. cbn [snd] in Ho. subst o'.
    apply (prop_In_NoDup _ _ _ Hnd) in Hin. rewrite Hprop in Hin. cbn [prop] in Hin.
    exists n. destruct (group n objects) as [|first others]; [discriminate|].
    exists first, others. split; [reflexivity|congruence].
  - intros [n [first [others [Hgroup ->]]]].
    exists (n, fold_left merge others first). split; [reflexivity|].
    apply (prop_In_NoDup _ _ _ Hnd). rewrite Hprop, Hgroup. reflexivity.
Qed.

Lemma merge_keeps_name (obj1 obj2 : Filters.object E) (n : string) :
  List.NoDup (map fst obj2) ->
  name obj1 = n -> name obj2 = n ->
  Filters.isArray_at delimiter obj1 = false ->
  Filters.isArray_at delimiter obj2 = false ->
  name (merge obj1 obj2) = n /\ Filters.isArray_at delimiter (merge obj1 obj2) = false.
Proof.
  unfold Filters.name_of, Filters.isArray_at, Filters.mergeObjects.
  intros Hnd H1 H2 A1 A2. rewrite (merge_loop_lookup obj1 obj1 obj2 delimiter Hnd).
  destruct (prop obj2 delimiter) as [[v|a]|]; [|discriminate|split; assumption].
  unfold Filters.merged_value.
  destruct (prop obj1 delimiter) as [[v1|a1]|]; split; first [exact H2|reflexivity].
Qed.

Lemma fold_keeps_name (others : list (Filters.object E)) (first : Filters.object E)
    (n : string) :
  Forall (fun o => List.NoDup (map fst o) /\ name o = n /\
                   Filters.isArray_at delimiter o = false) others ->
  name first = n -> Filters.isArray_at delimiter first = false ->
  name (fold_left merge others first) = n.
Proof.
  revert first.
  induction others as [|o others IH]; intros first Hall Hn Ha; [exact Hn|].
  apply List.Forall_cons_iff in Hall as [[Hnd [Hon Hoa]] Hrest].
  cbn [fold_left].
  destruct (merge_keeps_name first o n Hnd Hn Hon Ha Hoa) as [Hn' Ha'].
  apply IH; assumption.
Qed.

(** X27.  When the objects have no array under the delimiter (and none
    is named [__proto__]), the objects that [mergeObjectsWithSameName]
    returns have pairwise different names, and their names are exactly
    the names of the objects given. *)
Theorem mergeObjectsWithSameName_names_are_distinct (objects : list (Filters.object E)) :
  Forall (fun o => name o <> "__proto__") objects ->
  Forall (fun o => List.NoDup (map fst o)) objects ->
  Forall (fun o => Filters.isArray_at delimiter o = false) objects ->
  exists merged,
    Filters.mergeObjectsWithSameName get strict_eq own_keys interfaceKeys element_string
      objects delimiter = Some merged /\
    List.NoDup (map name merged) /\
    forall n, In n (map name merged) <-> In n (map name objects).
Proof.
  intros Hnames Hkeys Harrays.
  destruct (merge_into_lookup [] objects Hnames) as [m [Hm [Hnd Hprop]]].
  specialize (Hnd (List.NoDup_nil _)).
  exists (map snd m). unfold Filters.mergeObjectsWithSameName.
  split; [rewrite Hm; reflexivity|].
  assert (Hgroup : forall n o, In o (group n objects) ->
            List.NoDup (map fst o) /\ name o = n /\ Filters.isArray_at delimiter o = false).
  { intros n o Hin. apply List.filter_In in Hin as [Hin Hn].
    apply String.eqb_eq in Hn. rewrite List.Forall_forall in Hkeys, Harrays.
    split; [apply Hkeys, Hin|]. split; [exact Hn|apply Harrays, Hin]. }
  assert (Hentry : forall kv, In kv m -> name kv.2 = kv.1).
  { intros [n o] Hin. cbn [fst snd].
    apply (prop_In_NoDup _ _ _ Hnd) in Hin. rewrite Hprop in Hin. cbn [prop] in Hin.
    destruct (group n objects) as [|first others] eqn:Eg; [discriminate|].
    injection Hin as <-.
    assert (Hfirst := Hgroup n first). rewrite Eg in Hfirst.
    destruct (Hfirst (or_introl eq_refl)) as [_ [Hn Ha]].
    apply fold_keeps_name; [|exact Hn|exact Ha].
    apply List.Forall_forall. intros o Ho. apply Hgroup. rewrite Eg. right. exact Ho. }
  assert (Hmap : map name (map snd m) = map fst m).
  { rewrite List.map_map. apply List.map_ext_in. exact Hentry. }
  rewrite Hmap. split; [exact Hnd|].
  intros n. rewrite (List.in_map_iff name objects). split.
  - intros Hin.
    destruct (prop m n) as [o|] eqn:Ep;
      [|apply prop_None_keys in Ep; contradiction].
    rewrite Hprop in Ep. cbn [prop] in Ep.
    destruct (group n objects) as [|first others] eqn:Eg; [discriminate|].
    exists first. assert (Hfirst : In first (group n objects)) by (rewrite Eg; left; reflexivity).
    apply List.filter_In in Hfirst as [Hin' Hn]. apply String.eqb_eq in Hn.
    split; assumption.
  - intros [o [Hn Hin]].
    assert (Hg : In o (group n objects)).
    { apply List.filter_In. split; [exact Hin|]. apply String.eqb_eq, Hn. }
    destruct (prop m n) as [x|] eqn:Ep.
    + apply (prop_In_NoDup _ _ _ Hnd) in Ep. apply (List.in_map fst) in Ep. exact Ep.
    + rewrite Hprop in Ep. cbn [prop] in Ep.
      destruct (group n objects); [destruct Hg|discriminate].
Qed.

End merge_facts.

Ltac distinct_keys :=
  repeat (apply List.NoDup_cons; [cbn [In]; intuition discriminate|]); apply List.NoDup_nil.

Lemma mergeObjects_lookup_witness :
  prop (Filters.mergeObjects_strings Filters.users_read Filters.users_filtered) "cols" =
  Some (Filters.Arr ["id"; "name"; "email"]).
Proof.
  refine (eq_trans
            (proj2 (mergeObjects_lookup
                      (fun s i => String.get i s) (fun a b => bool_decide (a = b))
                      (fun s => seq 0 (String.length s)) None
                      Filters.users_read Filters.users_filtered "cols" _ _)) _).
  - cbn [map fst Filters.users_read]. distinct_keys.
  - cbn [map fst Filters.users_filtered]. distinct_keys.
  - vm_compute. reflexivity.
Defined.

Lemma mergeObjectsWithSameName_merges_groups_witness :
  exists merged,
    Filters.mergeObjectsWithSameName_strings
      [Filters.users_read; Filters.payments_read; Filters.users_filtered] "name" =
    Some merged /\
    forall o,
      In o merged <->
      exists n first others,
        List.filter (fun o => (Filters.name_of id "name" o =? n)%string)
          [Filters.users_read; Filters.payments_read; Filters.users_filtered] =
        first :: others /\
        o = fold_left Filters.mergeObjects_strings others first.
Proof.
  apply (mergeObjectsWithSameName_merges_groups
           (fun s i => String.get i s) (fun a b => bool_decide (a = b))
           (fun s => seq 0 (String.length s)) None id "name").
  repeat constructor; intros H; vm_compute in H; discriminate H.
Defined.

Lemma mergeObjectsWithSameName_names_are_distinct_witness :
  exists merged,
    Filters.mergeObjectsWithSameName_strings
      [Filters.users_read; Filters.payments_read; Filters.users_filtered] "name" =
    Some merged /\
    List.NoDup (map (Filters.name_of id "name") merged) /\
    forall n,
      In n (map (Filters.name_of id "name") merged) <->
      In n (map (Filters.name_of id "name")
              [Filters.users_read; Filters.payments_read; Filters.users_filtered]).
Proof.
  apply (mergeObjectsWithSameName_names_are_distinct
           (fun s i => String.get i s) (fun a b => bool_decide (a = b))
           (fun s => seq 0 (String.length s)) None id "name").
  - repeat constructor; intros H; vm_compute in H; discriminate H.
  - repeat apply List.Forall_cons; try apply List.Forall_nil;
      cbn [map fst Filters.users_read Filters.payments_read Filters.users_filtered];
      distinct_keys.
  - repeat constructor.
Defined.

(** The two descriptions of [users] are merged into one, in the place of
    the first, with the columns of both and the filter of the second. *)
Example mergeObjectsWithSameName_example :
  Filters.mergeObjectsWithSameName_strings
    [Filters.users_read; Filters.payments_read; Filters.users_filtered] "name" =
  Some [ [("name", Filters.Other (JStr "users"));
          ("cols", Filters.Arr ["id"; "name"; "email"]);
          ("defaultWhere", Filters.Other (JStr "active"))];
         Filters.payments_read ].
Proof. vm_compute. reflexivity. Qed.
